(** * The Zacks ranking ingestion pipeline

  A shallow embedding of the repository's ingestion program: the retrying
  fetch, the payload checks, the stock resolver, the ranking writer, the
  per-row unit of work and the coordinator that fans rows out and waits for
  them, together with the two tables of [db-setup.js].  Beside it stand the
  two earlier versions of the program ([index.js], with its one client for
  all rows, and the first program, which waits for nothing) and
  [setupDatabase] of [db-setup.js].

  Asynchronous functions are programs of a small resumption monad: a program
  is either finished, or suspended at an [await] with a continuation for the
  reply.  The event loop resumes one suspended program at a time, so the code
  between two [await]s is one atomic step, exactly as in the JavaScript
  run-time. *)

From Stdlib Require Import ZArith List String Bool Arith Lia DecimalString.
Import ListNotations.

Local Open Scope Z_scope.

Set Implicit Arguments.
Set Warnings "-register-all".

(** ** JavaScript values *)

Module Js.

(** Numbers as far as the program looks at them: it only asks whether a
    number is NaN and whether it is falsy. *)
Inductive number : Type :=
| NaN
| Num (z : Z).

Inductive value : Type :=
| Null
| Undefined
| Bool (b : bool)
| Number (n : number)
| Str (s : string)
| DateObj (t : option Z)               (* a Date; [None] is Invalid Date *)
| Obj (fields : list (string * value)).

(** [typeof v === "object"] *)
Definition typeof_object (v : value) : bool :=
  match v with
  | Null | DateObj _ | Obj _ => true
  | _ => false
  end.

(** [typeof v === "string"] *)
Definition typeof_string (v : value) : bool :=
  match v with Str _ => true | _ => false end.

(** [v instanceof Date] *)
Definition instanceof_Date (v : value) : bool :=
  match v with DateObj _ => true | _ => false end.

(** [v === null] *)
Definition strict_null (v : value) : bool :=
  match v with Null => true | _ => false end.

(** [v == null] *)
Definition loose_null (v : value) : bool :=
  match v with Null | Undefined => true | _ => false end.

(** ToBoolean *)
Definition truthy (v : value) : bool :=
  match v with
  | Null | Undefined => false
  | Bool b => b
  | Number NaN => false
  | Number (Num z) => negb (z =? 0)
  | Str s => negb (String.eqb s EmptyString)
  | DateObj _ | Obj _ => true
  end.

Fixpoint lookup (key : string) (fields : list (string * value)) : value :=
  match fields with
  | [] => Undefined
  | (k, v) :: rest => if String.eqb k key then v else lookup key rest
  end.

(** [v.key] for a value that is neither null nor undefined (the program
    never reads a property of a nullish value). *)
Definition get (v : value) (key : string) : value :=
  match v with
  | Obj fields => lookup key fields
  | _ => Undefined
  end.

Fixpoint assign (key : string) (x : value) (fields : list (string * value))
  : list (string * value) :=
  match fields with
  | [] => [(key, x)]
  | (k, v) :: rest =>
      if String.eqb k key then (k, x) :: rest else (k, v) :: assign key x rest
  end.

(** [v.key = x] on a record *)
Definition set (v : value) (key : string) (x : value) : value :=
  match v with
  | Obj fields => Obj (assign key x fields)
  | _ => v
  end.

End Js.

Import Js.

(** What the program takes from its platform and cannot be read off its own
  text: the JavaScript engine's date parser and string-to-number
  conversion. *)
Class Platform : Type := {
  (** the time value of [new Date(s)], [None] for Invalid Date *)
  Date_parse : string -> option Z;
  (** [Number(s)] *)
  String_toNumber : string -> number;
  (** the server's cast of a text parameter to TIMESTAMP, [None] when it
      refuses the text *)
  pg_timestamp : string -> option Z
}.

Section Conversions.
Context {P : Platform}.

(** ToNumber, as [isNaN] applies it to its argument *)
Definition toNumber (v : value) : number :=
  match v with
  | Undefined => NaN
  | Null => Num 0
  | Bool b => Num (if b then 1 else 0)
  | Number n => n
  | Str s => String_toNumber s
  | DateObj (Some t) => Num t
  | DateObj None => NaN
  | Obj _ => NaN                        (* "[object Object]" *)
  end.

Definition isNaN (v : value) : bool :=
  match toNumber v with NaN => true | Num _ => false end.

(** The time value of [new Date(v)] for a string or a Date [v] *)
Definition new_Date (v : value) : option Z :=
  match v with
  | Str s => Date_parse s
  | DateObj t => t
  | _ => None
  end.
End Conversions.

(** ** The relational store ([db-setup.js]) *)

Record StockRow : Type := {
  stock_id : Z;                 (* id SERIAL PRIMARY KEY *)
  stock_ticker : string;        (* ticker VARCHAR(10) UNIQUE NOT NULL *)
  stock_name : string           (* name VARCHAR(255) NOT NULL *)
}.

Record RankingRow : Type := {
  rk_id : Z;                    (* id SERIAL PRIMARY KEY *)
  rk_stock_id : Z;              (* stock_id INTEGER REFERENCES stocks(id) *)
  rk_text : value;              (* zacksRankText *)
  rk_rank : value;              (* zacksRank *)
  rk_updatedAt : option Z       (* updatedAt TIMESTAMP, [None] is NULL;
                                   UNIQUE(stock_id, updatedAt) *)
}.

Record Store : Type := {
  stocks : list StockRow;
  stocks_seq : Z;               (* last value of the stocks id sequence *)
  rankings : list RankingRow;
  rankings_seq : Z
}.

Definition empty_store : Store :=
  {| stocks := []; stocks_seq := 0; rankings := []; rankings_seq := 0 |}.

(** Errors a program can see.  [ExnDb code] carries the SQLSTATE. *)
Inductive Exn : Type :=
| ExnApi (tag : nat)            (* whatever [api.getData] rejects with *)
| ExnInvalidData                (* new Error("Invalid data received from API") *)
| ExnConnect                    (* [pool.connect()] rejected *)
| ExnDb (code : string)         (* [client.query] rejected *)
| ExnType                       (* TypeError: reading a field of [rows[0]] on no row *)
| ExnStream (tag : nat)         (* the row stream's 'error' *)
| ExnSetup.                     (* [setup()] rejected *)

Inductive Result (A : Type) : Type :=
| Ok (a : A)
| Throw (e : Exn).

Arguments Ok {A} a.
Arguments Throw {A} e.

Definition unique_violation : string := "23505".
Definition foreign_key_violation : string := "23503".
Definition invalid_datetime : string := "22007".

(** The statements the program sends, indexed by the type of the one column
  their result rows carry. *)
Inductive Query : Type -> Type :=
| Begin : Query unit
| Commit : Query unit
| Rollback : Query unit
| SelectStockId (ticker : string) : Query Z
  (* SELECT id FROM stocks WHERE ticker = $1 *)
| InsertStock (ticker name : string) : Query Z
  (* INSERT INTO stocks (ticker, name) VALUES ($1, $2) RETURNING id *)
| UpsertStock (ticker name : string) : Query Z
  (* ... ON CONFLICT (ticker) DO UPDATE SET name = $2 RETURNING id *)
| InsertRanking (stockId : Z) (text rank updatedAt : value) : Query unit
  (* INSERT INTO zacks_rankings (...) VALUES ($1, $2, $3, $4) *)
| UpsertRanking (stockId : Z) (text rank updatedAt : value) : Query bool.
  (* ... ON CONFLICT (stock_id, updatedAt) DO UPDATE SET zacksRankText =
     EXCLUDED.zacksRankText, zacksRank = EXCLUDED.zacksRank
     RETURNING (xmax = 0) AS inserted *)

Module Sql.
Section Exec.
Context {P : Platform}.

Definition has_ticker (t : string) (r : StockRow) : bool :=
  String.eqb (stock_ticker r) t.

Definition select_stock_ids (t : string) (st : Store) : list Z :=
  map stock_id (filter (has_ticker t) (stocks st)).

Definition rename (t n : string) (r : StockRow) : StockRow :=
  if has_ticker t r
  then {| stock_id := stock_id r; stock_ticker := stock_ticker r; stock_name := n |}
  else r.

(** NULL never conflicts: a row matches a key only on a stored timestamp. *)
Definition has_key (sid : Z) (ts : option Z) (r : RankingRow) : bool :=
  (rk_stock_id r =? sid) &&
  match ts, rk_updatedAt r with
  | Some t, Some t' => t' =? t
  | _, _ => false
  end.

Definition overwrite (sid : Z) (ts : option Z) (text rank : value) (r : RankingRow)
  : RankingRow :=
  if has_key sid ts r
  then {| rk_id := rk_id r; rk_stock_id := rk_stock_id r;
          rk_text := text; rk_rank := rank; rk_updatedAt := rk_updatedAt r |}
  else r.

(** The text the driver sends for a number or a boolean, [val.toString()]:
    the decimal digits of an integer below 10^21 in size ([None] beyond
    that, where the text has an exponent). *)
Definition number_text (n : number) : option string :=
  match n with
  | NaN => Some "NaN"%string
  | Num z =>
      if Z.abs z <? 10 ^ 21
      then Some (NilZero.string_of_int (Z.to_int z))
      else None
  end.

Definition bool_text (b : bool) : string :=
  if b then "true"%string else "false"%string.

(** The TIMESTAMP a parameter is stored as: [None] when the server refuses
    it, [Some None] for NULL (the driver sends null and undefined as NULL),
    the time value of a valid Date, the server's cast of a text.  A string
    is sent as it is, a number or a boolean as its text, and the server
    casts what it is sent: 20240102 is stored as the second of January.  A
    number with an exponent, the text of an Invalid Date and the JSON text
    of an object are no timestamp. *)
Definition timestamp (v : value) : option (option Z) :=
  match v with
  | Null | Undefined => Some None
  | DateObj (Some t) => Some (Some t)
  | Str s => option_map Some (pg_timestamp s)
  | Number n =>
      match number_text n with
      | Some s => option_map Some (pg_timestamp s)
      | None => None
      end
  | Bool b => option_map Some (pg_timestamp (bool_text b))
  | DateObj None | Obj _ => None
  end.

Definition with_stocks (st : Store) (rows : list StockRow) (seq : Z) : Store :=
  {| stocks := rows; stocks_seq := seq;
     rankings := rankings st; rankings_seq := rankings_seq st |}.

Definition with_rankings (st : Store) (rows : list RankingRow) (seq : Z) : Store :=
  {| stocks := stocks st; stocks_seq := stocks_seq st;
     rankings := rows; rankings_seq := seq |}.

Definition new_stock (id : Z) (t n : string) : StockRow :=
  {| stock_id := id; stock_ticker := t; stock_name := n |}.

Definition new_ranking (id sid : Z) (text rank : value) (ts : option Z) : RankingRow :=
  {| rk_id := id; rk_stock_id := sid; rk_text := text; rk_rank := rank;
     rk_updatedAt := ts |}.

Definition references_stock (sid : Z) (st : Store) : bool :=
  existsb (fun r => stock_id r =? sid) (stocks st).

(** One statement, executed atomically.  An INSERT draws its id from the
    sequence before the uniqueness check, as a SERIAL column does; the
    foreign key of a ranking is checked when its row is written.  Whatever
    else makes the server refuse a statement (a lost connection, a text too
    long for its column, a rank that is no integer) is not decided here: the
    environment injects it, see [answer] below. *)
Definition exec {T} (q : Query T) (st : Store) : Result (list T) * Store :=
  match q in Query T return Result (list T) * Store with
  | Begin | Commit | Rollback => (Ok [], st)
  | SelectStockId t => (Ok (select_stock_ids t st), st)
  | InsertStock t n =>
      let id := stocks_seq st + 1 in
      if existsb (has_ticker t) (stocks st)
      then (Throw (ExnDb unique_violation), with_stocks st (stocks st) id)
      else (Ok [id], with_stocks st (stocks st ++ [new_stock id t n]) id)
  | UpsertStock t n =>
      let id := stocks_seq st + 1 in
      if existsb (has_ticker t) (stocks st)
      then (Ok (select_stock_ids t st),
            with_stocks st (map (rename t n) (stocks st)) id)
      else (Ok [id], with_stocks st (stocks st ++ [new_stock id t n]) id)
  | InsertRanking sid text rank upd =>
      match timestamp upd with
      | None => (Throw (ExnDb invalid_datetime), st)
      | Some ts =>
          let id := rankings_seq st + 1 in
          if existsb (has_key sid ts) (rankings st)
          then (Throw (ExnDb unique_violation), with_rankings st (rankings st) id)
          else if references_stock sid st
          then (Ok [tt],
                with_rankings st (rankings st ++ [new_ranking id sid text rank ts]) id)
          else (Throw (ExnDb foreign_key_violation), with_rankings st (rankings st) id)
      end
  | UpsertRanking sid text rank upd =>
      match timestamp upd with
      | None => (Throw (ExnDb invalid_datetime), st)
      | Some ts =>
          let id := rankings_seq st + 1 in
          if existsb (has_key sid ts) (rankings st)
          then (Ok [false],
                with_rankings st (map (overwrite sid ts text rank) (rankings st)) id)
          else if references_stock sid st
          then (Ok [true],
                with_rankings st (rankings st ++ [new_ranking id sid text rank ts]) id)
          else (Throw (ExnDb foreign_key_violation), with_rankings st (rankings st) id)
      end
  end.

End Exec.
End Sql.

(** ** Asynchronous programs *)

(** The run counters of [main]. *)
Record Counters : Type := {
  totalProcessed : nat;
  successfulSaves : nat;
  failedRetrievals : nat;
  failedSaves : nat;
  noRankingStocks : nat;
  totalInserts : nat;
  totalUpdates : nat;
  failedProcessing : nat
}.

Definition zero_counters : Counters :=
  {| totalProcessed := 0; successfulSaves := 0; failedRetrievals := 0;
     failedSaves := 0; noRankingStocks := 0; totalInserts := 0;
     totalUpdates := 0; failedProcessing := 0 |}.

Inductive Counter : Type :=
| TotalProcessed | SuccessfulSaves | FailedRetrievals | FailedSaves
| NoRankingStocks | TotalInserts | TotalUpdates | FailedProcessing.

(** [counter++] *)
Definition incr (c : Counter) (k : Counters) : Counters :=
  match c with
  | TotalProcessed =>
      {| totalProcessed := S (totalProcessed k); successfulSaves := successfulSaves k;
         failedRetrievals := failedRetrievals k; failedSaves := failedSaves k;
         noRankingStocks := noRankingStocks k; totalInserts := totalInserts k;
         totalUpdates := totalUpdates k; failedProcessing := failedProcessing k |}
  | SuccessfulSaves =>
      {| totalProcessed := totalProcessed k; successfulSaves := S (successfulSaves k);
         failedRetrievals := failedRetrievals k; failedSaves := failedSaves k;
         noRankingStocks := noRankingStocks k; totalInserts := totalInserts k;
         totalUpdates := totalUpdates k; failedProcessing := failedProcessing k |}
  | FailedRetrievals =>
      {| totalProcessed := totalProcessed k; successfulSaves := successfulSaves k;
         failedRetrievals := S (failedRetrievals k); failedSaves := failedSaves k;
         noRankingStocks := noRankingStocks k; totalInserts := totalInserts k;
         totalUpdates := totalUpdates k; failedProcessing := failedProcessing k |}
  | FailedSaves =>
      {| totalProcessed := totalProcessed k; successfulSaves := successfulSaves k;
         failedRetrievals := failedRetrievals k; failedSaves := S (failedSaves k);
         noRankingStocks := noRankingStocks k; totalInserts := totalInserts k;
         totalUpdates := totalUpdates k; failedProcessing := failedProcessing k |}
  | NoRankingStocks =>
      {| totalProcessed := totalProcessed k; successfulSaves := successfulSaves k;
         failedRetrievals := failedRetrievals k; failedSaves := failedSaves k;
         noRankingStocks := S (noRankingStocks k); totalInserts := totalInserts k;
         totalUpdates := totalUpdates k; failedProcessing := failedProcessing k |}
  | TotalInserts =>
      {| totalProcessed := totalProcessed k; successfulSaves := successfulSaves k;
         failedRetrievals := failedRetrievals k; failedSaves := failedSaves k;
         noRankingStocks := noRankingStocks k; totalInserts := S (totalInserts k);
         totalUpdates := totalUpdates k; failedProcessing := failedProcessing k |}
  | TotalUpdates =>
      {| totalProcessed := totalProcessed k; successfulSaves := successfulSaves k;
         failedRetrievals := failedRetrievals k; failedSaves := failedSaves k;
         noRankingStocks := noRankingStocks k; totalInserts := totalInserts k;
         totalUpdates := S (totalUpdates k); failedProcessing := failedProcessing k |}
  | FailedProcessing =>
      {| totalProcessed := totalProcessed k; successfulSaves := successfulSaves k;
         failedRetrievals := failedRetrievals k; failedSaves := failedSaves k;
         noRankingStocks := noRankingStocks k; totalInserts := totalInserts k;
         totalUpdates := totalUpdates k; failedProcessing := S (failedProcessing k) |}
  end.

(** The lines the program prints, by the call that prints them. *)
Inductive Line : Type :=
| ErrGetOrCreateStockId (ticker : string) (e : Exn)
| WarnInvalidDataSkippingSave (stockId : Z)
| LogInsertedRanking (stockId : Z) (updatedAt : value)
| LogUpdatedRanking (stockId : Z) (updatedAt : value)
| ErrSavingRanking (stockId : Z) (e : Exn)
| ErrApiGetData (ticker : string) (e : Exn)
| LogNoRankingAvailable (ticker : string)
| WarnIncompleteData (ticker : string)
| WarnInvalidDate (ticker : string) (updatedAt : value)
| WarnMissingUpdatedAt (ticker : string)
| ErrAttemptFailed (attempt : nat) (ticker : string) (e : Exn)
| LogFailedToRetrieve (ticker : string) (maxRetries : nat)
| LogSkippingInsertion (ticker : string)
| ErrProcessingTicker (ticker : string) (e : Exn)
| LogCsvCompleted
| ErrProcessingCsv (e : Exn)
| LogConnectionsClosed
| LogSummary (k : Counters)        (* the eight counter lines of [main] *)
| ErrMain (e : Exn)                (* [main().catch(console.error)] *)
| LogProgramCompleted
| LogData (data : value)           (* index.js *)
| LogDuplicateEntry (stockId : Z) (updatedAt : value)
| ErrFailedToRetrieve (ticker : string).

(** What a program waits for: the reply arrives in a later turn of the event
    loop. *)
Inductive Call : Type -> Type :=
| GetData (ticker : string) : Call (Result value)     (* api.getData(ticker) *)
| SetTimeout (ms : Z) : Call unit                     (* new Promise(r => setTimeout(r, ms)) *)
| Connect : Call (Result unit)                        (* pool.connect() *)
| ClientQuery {T} (q : Query T) : Call (Result (list T)).   (* client.query(...) *)

(** What a program does on the spot. *)
Inductive Sync : Type -> Type :=
| Tick (c : Counter) : Sync unit        (* counter++ *)
| Print (l : Line) : Sync unit          (* console.log / warn / error *)
| NewDate : Sync Z                      (* new Date() *)
| Release : Sync unit.                  (* client.release() *)

Inductive Prog (A : Type) : Type :=
| Ret (a : A)
| Await {R} (c : Call R) (k : R -> Prog A)
| Do {R} (s : Sync R) (k : R -> Prog A).

Arguments Ret {A} a.
Arguments Await {A R} c k.
Arguments Do {A R} s k.

Fixpoint bind {A B} (p : Prog A) (f : A -> Prog B) : Prog B :=
  match p with
  | Ret a => f a
  | Await c k => Await c (fun r => bind (k r) f)
  | Do s k => Do s (fun r => bind (k r) f)
  end.

Definition await {R} (c : Call R) : Prog R := Await c Ret.
Definition perform {R} (s : Sync R) : Prog R := Do s Ret.

(** An async function either returns or throws. *)
Definition Async (A : Type) : Type := Prog (Result A).

Definition ret {A} (a : A) : Async A := Ret (Ok a).
Definition throw {A} (e : Exn) : Async A := Ret (Throw e).

(** Sequencing that lets a throw escape *)
Definition bindE {A B} (p : Async A) (f : A -> Async B) : Async B :=
  bind p (fun r => match r with Ok a => f a | Throw e => Ret (Throw e) end).

(** [try { p } catch (e) { h e }] *)
Definition try_catch {A} (p : Async A) (h : Exn -> Async A) : Async A :=
  bind p (fun r => match r with Ok a => Ret (Ok a) | Throw e => h e end).

(** [try { p } finally { f }] for an [f] that does not throw *)
Definition try_finally {A} (p : Async A) (f : Prog unit) : Async A :=
  bind p (fun r => bind f (fun _ => Ret r)).

Declare Scope prog_scope.
Delimit Scope prog_scope with prog.
Notation "x <- p ;; q" := (bind p (fun x => q))
  (at level 61, p at next level, right associativity) : prog_scope.
Notation "p ;; q" := (bind p (fun _ => q))
  (at level 61, right associativity) : prog_scope.
Notation "x <-! p ;; q" := (bindE p (fun x => q))
  (at level 61, p at next level, right associativity) : prog_scope.
Notation "p ;;! q" := (bindE p (fun _ => q))
  (at level 61, right associativity) : prog_scope.
Local Open Scope prog_scope.

(** [rows[0]]: reading a column of it throws a TypeError when there is no row *)
Definition first_row {T} (rows : list T) : Async T :=
  match rows with
  | r :: _ => ret r
  | [] => throw ExnType
  end.

(** ** The event loop's view of a program *)

(** What is observed of a run, newest first: the calls made and the lines
    printed. *)
Inductive Obs : Type :=
| ObsGetData (ticker : string)
| ObsTimeout (ms : Z)
| ObsConnect
| ObsQuery {T} (q : Query T)
| ObsRelease
| ObsPrint (l : Line).

Record World : Type := {
  counters : Counters;
  store : Store;
  clock : Z;                     (* the wall clock at the current turn *)
  log : list Obs
}.

Definition initial_world : World :=
  {| counters := zero_counters; store := empty_store; clock := 0; log := [] |}.

(** What the environment decides when a call completes: what the provider
    answers, whether the store round trip fails (and how), and the time. *)
Record Oracle : Type := {
  o_api : Result value;
  o_fail : option Exn;
  o_now : Z
}.

Definition obs_of_call {R} (c : Call R) : Obs :=
  match c with
  | GetData t => ObsGetData t
  | SetTimeout ms => ObsTimeout ms
  | Connect => ObsConnect
  | ClientQuery q => ObsQuery q
  end.

Section Semantics.
Context {P : Platform}.

Definition answer {R} (c : Call R) (o : Oracle) (st : Store) : R * Store :=
  match c in Call R return R * Store with
  | GetData _ => (o_api o, st)
  | SetTimeout _ => (tt, st)
  | Connect => (match o_fail o with Some e => Throw e | None => Ok tt end, st)
  | ClientQuery q =>
      match o_fail o with
      | Some e => (Throw e, st)
      | None => Sql.exec q st
      end
  end.

(** The world after call [c] completed with the environment's choice [o] *)
Definition complete {R} (c : Call R) (o : Oracle) (w : World) : R * World :=
  let '(r, st) := answer c o (store w) in
  (r, {| counters := counters w; store := st; clock := o_now o;
         log := obs_of_call c :: log w |}).

Definition effect {R} (s : Sync R) (w : World) : R * World :=
  match s in Sync R return R * World with
  | Tick c =>
      (tt, {| counters := incr c (counters w); store := store w; clock := clock w;
              log := log w |})
  | Print l =>
      (tt, {| counters := counters w; store := store w; clock := clock w;
              log := ObsPrint l :: log w |})
  | NewDate => (clock w, w)
  | Release =>
      (tt, {| counters := counters w; store := store w; clock := clock w;
              log := ObsRelease :: log w |})
  end.

(** Run a program on its own to its end; [os i] decides the [i]-th call it
    waits for.  The result carries the number of the next call. *)
Fixpoint run {A} (p : Prog A) (os : nat -> Oracle) (i : nat) (w : World)
  : A * World * nat :=
  match p with
  | Ret a => (a, w, i)
  | Await c k => let '(r, w') := complete c (os i) w in run (k r) os (S i) w'
  | Do s k => let '(r, w') := effect s w in run (k r) os i w'
  end.

(** Run the synchronous part of a program, up to its next [await]. *)
Fixpoint advance {A} (p : Prog A) (w : World) : Prog A * World :=
  match p with
  | Do s k => let '(r, w') := effect s w in advance (k r) w'
  | _ => (p, w)
  end.

(** One turn of the event loop for a suspended program: the call it waits
    for completes and it runs up to its next [await]. *)
Definition resume {A} (o : Oracle) (p : Prog A) (w : World) : Prog A * World :=
  match p with
  | Await c k => let '(r, w') := complete c o w in advance (k r) w'
  | _ => (p, w)
  end.

End Semantics.

(** ** The pipeline (the program with the run counters) *)

Record Row : Type := {
  row_ticker : string;          (* row["ticker"] *)
  row_name : string             (* row["name"] *)
}.

Local Open Scope string_scope.

(** The defaults of [getDataWithRetry(ticker, maxRetries = 3, delay = 1000)] *)
Definition default_maxRetries : nat := 3.
Definition default_delay : Z := 1000.

Section Pipeline.
Context {P : Platform}.

Definition query {T} (q : Query T) : Async (list T) := await (ClientQuery q).
Definition print (l : Line) : Prog unit := perform (Print l).
Definition tick (c : Counter) : Prog unit := perform (Tick c).

(** [getOrCreateStockId(ticker, name)] *)
Definition getOrCreateStockId (ticker name : string) : Async Z :=
  await Connect ;;!
  try_finally
    (try_catch
       (query Begin ;;!
        res <-! query (SelectStockId ticker) ;;
        if (0 <? List.length res)%nat then
          query Commit ;;!
          first_row res
        else
          res <-! query (UpsertStock ticker name) ;;
          query Commit ;;!
          first_row res)
       (fun error =>
          query Rollback ;;!
          print (ErrGetOrCreateStockId ticker error) ;;
          throw error))
    (perform Release).

(** The guard at the head of [saveZacksRanking] *)
Definition invalid_for_save (data : value) : bool :=
  negb (truthy (get data "zacksRankText"))
  || loose_null (get data "zacksRank")
  || loose_null (get data "updatedAt")
  || isNaN (get data "zacksRank").

(** [saveZacksRanking(stockId, data)] *)
Definition saveZacksRanking (stockId : Z) (data : value) : Async unit :=
  if invalid_for_save data then
    print (WarnInvalidDataSkippingSave stockId) ;;
    tick NoRankingStocks ;;
    ret tt
  else
    await Connect ;;!
    try_finally
      (try_catch
         (query Begin ;;!
          result <-! query (UpsertRanking stockId (get data "zacksRankText")
                              (get data "zacksRank") (get data "updatedAt")) ;;
          query Commit ;;!
          isInserted <-! first_row result ;;
          (if isInserted : bool then
             print (LogInsertedRanking stockId (get data "updatedAt")) ;;
             tick TotalInserts
           else
             print (LogUpdatedRanking stockId (get data "updatedAt")) ;;
             tick TotalUpdates) ;;
          tick SuccessfulSaves ;;
          ret tt)
         (fun error =>
            query Rollback ;;!
            print (ErrSavingRanking stockId error) ;;
            tick FailedSaves ;;
            tick NoRankingStocks ;;
            throw error))
      (perform Release).

(** The [updatedAt] check of [getDataWithRetry], which leaves a valid Date in
    the field. *)
Definition normalizeUpdatedAt (ticker : string) (data : value) : Prog value :=
  let updatedAt := get data "updatedAt" in
  if typeof_string updatedAt || instanceof_Date updatedAt then
    match new_Date updatedAt with
    | Some t => Ret (set data "updatedAt" (DateObj (Some t)))
    | None =>
        print (WarnInvalidDate ticker updatedAt) ;;
        now <- perform NewDate ;;
        Ret (set data "updatedAt" (DateObj (Some now)))
    end
  else
    print (WarnMissingUpdatedAt ticker) ;;
    now <- perform NewDate ;;
    Ret (set data "updatedAt" (DateObj (Some now))).

(** The body of the [try] of one attempt: it returns from the function
    ([Ok]) or throws into the retry handler. *)
Definition attempt (ticker : string) : Async value :=
  r <- await (GetData ticker) ;;
  match r with
  | Throw error =>
      print (ErrApiGetData ticker error) ;;
      throw error
  | Ok data =>
      if strict_null data then
        print (LogNoRankingAvailable ticker) ;;
        tick NoRankingStocks ;;
        ret Null
      else if negb (typeof_object data) then
        throw ExnInvalidData
      else if loose_null (get data "zacksRank")
              || loose_null (get data "zacksRankText") then
        print (WarnIncompleteData ticker) ;;
        tick NoRankingStocks ;;
        ret Null
      else
        data' <- normalizeUpdatedAt ticker data ;;
        ret data'
  end.

(** What follows the loop of [getDataWithRetry] *)
Definition retries_exhausted (ticker : string) (maxRetries : nat) : Async value :=
  print (LogFailedToRetrieve ticker maxRetries) ;;
  tick FailedRetrievals ;;
  tick NoRankingStocks ;;
  ret Null.

(** [for (let attempt = 1; attempt <= maxRetries; attempt++)], from the
    current value of [attempt] on; [fuel] bounds the iterations left. *)
Fixpoint attempts (ticker : string) (maxRetries : nat) (delay : Z)
  (fuel n : nat) : Async value :=
  match fuel with
  | O => retries_exhausted ticker maxRetries
  | S fuel' =>
      if (n <=? maxRetries)%nat then
        r <- attempt ticker ;;
        match r with
        | Ok data => ret data
        | Throw error =>
            print (ErrAttemptFailed n ticker error) ;;
            (if (n <? maxRetries)%nat then await (SetTimeout delay) else Ret tt) ;;
            attempts ticker maxRetries delay fuel' (S n)
        end
      else retries_exhausted ticker maxRetries
  end.

(** [getDataWithRetry(ticker, maxRetries = 3, delay = 1000)] *)
Definition getDataWithRetry (ticker : string) (maxRetries : nat) (delay : Z)
  : Async value :=
  attempts ticker maxRetries delay maxRetries 1.

(** The unit of work [processCSV] starts for a row *)
Definition rowUnit (row : Row) : Async unit :=
  let ticker := row_ticker row in
  let name := row_name row in
  try_catch
    (tick TotalProcessed ;;
     data <-! getDataWithRetry ticker default_maxRetries default_delay ;;
     if truthy data then
       stockId <-! getOrCreateStockId ticker name ;;
       saveZacksRanking stockId data
     else
       print (LogSkippingInsertion ticker) ;;
       ret tt)
    (fun error =>
       print (ErrProcessingTicker ticker error) ;;
       tick FailedProcessing ;;
       tick NoRankingStocks ;;
       ret tt).

End Pipeline.

(** ** The coordinator: [processCSV] and [main] *)

(** What the row stream emits *)
Inductive StreamEvent : Type :=
| StreamData (row : Row)        (* 'data' *)
| StreamEnd                     (* 'end' *)
| StreamError (e : Exn)         (* 'error' of the parser's stream, the last of the pipe *)
| SourceError (e : Exn).        (* 'error' of the file stream or of the stream
                                   that strips the byte-order mark: [pipe]
                                   does not pass it on, and nothing listens *)

Inductive StreamState : Type :=
| Unopened                      (* [processCSV] has not been called *)
| Flowing
| Ended
| Errored.                      (* one of the streams of the pipe raised an error *)

(** Where [main] is suspended *)
Inductive MainState : Type :=
| MainSetup                     (* await setup() *)
| MainCsv                       (* await processCSV() *)
| MainPoolEnd                   (* finally: await pool.end() *)
| MainExited (code : Z).        (* the process has ended with status [code] *)

Record System : Type := {
  world : World;
  main : MainState;
  stream : StreamState;
  pendingPromises : list (Async unit);   (* each unit, as far as it has run *)
  csv : option (Result unit)             (* the promise of processCSV(), once settled *)
}.

(** The process as it starts, over the database as earlier runs left it
    ([setup()] creates the tables only where they do not exist). *)
Definition boot (st : Store) : System :=
  {| world := {| counters := zero_counters; store := st; clock := 0; log := [] |};
     main := MainSetup; stream := Unopened;
     pendingPromises := []; csv := None |}.

(** A turn of the event loop *)
Inductive Event : Type :=
| EvMain (o : Oracle)             (* the call [main] waits for completes *)
| EvStream (e : StreamEvent)      (* the stream emits *)
| EvUnit (i : nat) (o : Oracle).  (* the call unit [i] waits for completes *)

(** [Promise.all(pendingPromises)]: settled once every unit has fulfilled, or
    as soon as one has rejected (the first in the array stands for the first
    in time). *)
Fixpoint promise_all (ps : list (Async unit)) : option (Result unit) :=
  match ps with
  | [] => Some (Ok tt)
  | Ret (Throw e) :: _ => Some (Throw e)
  | Ret (Ok _) :: rest => promise_all rest
  | _ :: rest =>
      match promise_all rest with
      | Some (Throw e) => Some (Throw e)
      | _ => None
      end
  end.

Fixpoint replace_nth {A} (i : nat) (x : A) (l : list A) : list A :=
  match l, i with
  | [], _ => []
  | _ :: rest, O => x :: rest
  | y :: rest, S i' => y :: replace_nth i' x rest
  end.

Definition say (l : Line) (w : World) : World :=
  {| counters := counters w; store := store w; clock := clock w;
     log := ObsPrint l :: log w |}.

Section Coordinator.
Context {P : Platform}.

(** The 'end' handler's [Promise.all(...).then(...).catch(reject)], run as
    soon as it can settle the promise of [processCSV()]. *)
Definition settle (s : System) : System :=
  match csv s, stream s with
  | None, Ended =>
      match promise_all (pendingPromises s) with
      | Some (Ok _) =>
          {| world := say LogCsvCompleted (world s); main := main s; stream := stream s;
             pendingPromises := pendingPromises s; csv := Some (Ok tt) |}
      | Some (Throw e) =>
          {| world := world s; main := main s; stream := stream s;
             pendingPromises := pendingPromises s; csv := Some (Throw e) |}
      | None => s
      end
  | _, _ => s
  end.

(** [main] after [await processCSV()]: the [catch] prints the error, and the
    [finally] block starts closing the pool. *)
Definition wake_main (s : System) : System :=
  match main s, csv s with
  | MainCsv, Some (Ok _) =>
      {| world := world s; main := MainPoolEnd; stream := stream s;
         pendingPromises := pendingPromises s; csv := csv s |}
  | MainCsv, Some (Throw e) =>
      {| world := say (ErrProcessingCsv e) (world s); main := MainPoolEnd;
         stream := stream s; pendingPromises := pendingPromises s; csv := csv s |}
  | _, _ => s
  end.

(** [main()] rejects with [e]: [.catch(console.error)] prints it, then the
    [.finally] handler prints its line and exits with status 0. *)
Definition reject_main (e : Exn) (s : System) : System :=
  {| world := say LogProgramCompleted (say (ErrMain e) (world s));
     main := MainExited 0; stream := stream s;
     pendingPromises := pendingPromises s; csv := csv s |}.

(** The awaits of [main] outside [processCSV()], and the handlers chained on
    [main()].  A rejected [setup()] makes [main()] reject before the [try];
    a rejected [pool.end()] makes it reject from the [finally] block, before
    the summary is printed. *)
Definition main_turn (o : Oracle) (s : System) : System :=
  match main s with
  | MainSetup =>
      match o_fail o with
      | Some e => reject_main e s
      | None =>
          (* processCSV() opens the stream and registers its handlers *)
          {| world := world s; main := MainCsv; stream := Flowing;
             pendingPromises := pendingPromises s; csv := csv s |}
      end
  | MainPoolEnd =>
      match o_fail o with
      | Some e => reject_main e s
      | None =>
          let w := world s in
          {| world :=
               say LogProgramCompleted
                 (say (LogSummary (counters w)) (say LogConnectionsClosed w));
             main := MainExited 0; stream := stream s;
             pendingPromises := pendingPromises s; csv := csv s |}
      end
  | _ => s
  end.

(** The events of the pipe [fs.createReadStream(...).pipe(stripBomStream())
    .pipe(csv())].  [processCSV] listens on the last stream only.  The
    streams emit while the pipe is open: the file has been read to its end
    before the parser emits 'end', and an error of the parser's stream
    undoes the pipe. *)
Definition stream_turn (e : StreamEvent) (s : System) : System :=
  match stream s with
  | Flowing =>
      match e with
      | StreamData row =>
          let '(p, w) := advance (rowUnit row) (world s) in
          {| world := w; main := main s; stream := Flowing;
             pendingPromises := pendingPromises s ++ [p]; csv := csv s |}
      | StreamEnd =>
          {| world := world s; main := main s; stream := Ended;
             pendingPromises := pendingPromises s; csv := csv s |}
      | StreamError err =>
          (* the listener of [processCSV]: reject(error) *)
          {| world := world s; main := main s; stream := Errored;
             pendingPromises := pendingPromises s;
             csv := match csv s with None => Some (Throw err) | settled => settled end |}
      | SourceError _ =>
          (* an 'error' event without a listener is thrown: the exception is
             uncaught and the process dies with status 1, the run-time
             reporting the exception; the promise of [processCSV()] is left
             pending and no handler of the program runs again, so that the
             program itself prints nothing more *)
          {| world := world s; main := MainExited 1; stream := Errored;
             pendingPromises := pendingPromises s; csv := csv s |}
      end
  | _ => s
  end.

Definition unit_turn (i : nat) (o : Oracle) (s : System) : System :=
  match nth_error (pendingPromises s) i with
  | Some p =>
      let '(p', w) := resume o p (world s) in
      {| world := w; main := main s; stream := stream s;
         pendingPromises := replace_nth i p' (pendingPromises s); csv := csv s |}
  | None => s
  end.

Definition step (s : System) (ev : Event) : System :=
  match main s with
  | MainExited _ => s               (* the process is gone *)
  | _ =>
      wake_main (settle
        match ev with
        | EvMain o => main_turn o s
        | EvStream e => stream_turn e s
        | EvUnit i o => unit_turn i o s
        end)
  end.

Definition steps (s : System) (evs : list Event) : System :=
  fold_left step evs s.

End Coordinator.

(** ** The earlier program ([index.js]): one client, no counters *)

Module IndexJs.
Section Program.
Context {P : Platform}.

(** [getStockId(ticker, name)]: look the ticker up, insert when absent *)
Definition getStockId (ticker name : string) : Async Z :=
  res <-! query (SelectStockId ticker) ;;
  if (0 <? List.length res)%nat then
    first_row res
  else
    res <-! query (InsertStock ticker name) ;;
    first_row res.

(** [error.code === "23505"] *)
Definition is_unique_violation (error : Exn) : bool :=
  match error with
  | ExnDb code => String.eqb code unique_violation
  | _ => false
  end.

(** [saveZacksRanking(stockId, data)]: a plain insert; a duplicate key is
    logged and dropped. *)
Definition saveZacksRanking (stockId : Z) (data : value) : Async unit :=
  try_catch
    (print (LogData data) ;;
     query (InsertRanking stockId (get data "zacksRankText")
              (get data "zacksRank") (get data "updatedAt")) ;;!
     ret tt)
    (fun error =>
       if is_unique_violation error then
         print (LogDuplicateEntry stockId (get data "updatedAt")) ;;
         ret tt
       else throw error).

Fixpoint attempts (ticker : string) (maxRetries : nat) (delay : Z)
  (fuel n : nat) : Async value :=
  match fuel with
  | O => ret Null
  | S fuel' =>
      if (n <=? maxRetries)%nat then
        r <- await (GetData ticker) ;;
        match r with
        | Ok data => ret data
        | Throw error =>
            print (ErrAttemptFailed n ticker error) ;;
            (if (n <? maxRetries)%nat then await (SetTimeout delay) else Ret tt) ;;
            attempts ticker maxRetries delay fuel' (S n)
        end
      else ret Null
  end.

(** [getDataWithRetry(ticker, maxRetries = 3, delay = 1000)] *)
Definition getDataWithRetry (ticker : string) (maxRetries : nat) (delay : Z)
  : Async value :=
  attempts ticker maxRetries delay maxRetries 1.

Definition rowUnit (row : Row) : Async unit :=
  let ticker := row_ticker row in
  let name := row_name row in
  try_catch
    (data <-! getDataWithRetry ticker default_maxRetries default_delay ;;
     if truthy data then
       stockId <-! getStockId ticker name ;;
       saveZacksRanking stockId data
     else
       print (ErrFailedToRetrieve ticker) ;;
       ret tt)
    (fun error =>
       print (ErrProcessingTicker ticker error) ;;
       ret tt).

(** The [try] block of the unit, and its [catch] *)
Definition row_try (row : Row) : Async unit :=
  data <-! getDataWithRetry (row_ticker row) default_maxRetries default_delay ;;
  if truthy data then
    stockId <-! getStockId (row_ticker row) (row_name row) ;;
    saveZacksRanking stockId data
  else
    print (ErrFailedToRetrieve (row_ticker row)) ;;
    ret tt.

Definition row_catch (row : Row) (error : Exn) : Async unit :=
  print (ErrProcessingTicker (row_ticker row) error) ;;
  ret tt.

End Program.
End IndexJs.

(** ** Programs in a pool: the interleavings of the event loop *)

Section Pool.
Context {P : Platform} {A : Type}.

(** Turn [i] of a pool of suspended programs sharing one world *)
Definition pool_turn (s : list (Prog A) * World) (t : nat * Oracle)
  : list (Prog A) * World :=
  let '(ps, w) := s in
  let '(i, o) := t in
  match nth_error ps i with
  | Some p => let '(p', w') := resume o p w in (replace_nth i p' ps, w')
  | None => (ps, w)
  end.

Definition pool_run (ps : list (Prog A)) (w : World) (sched : list (nat * Oracle))
  : list (Prog A) * World :=
  fold_left pool_turn sched (ps, w).

End Pool.

(** A reply in which no store round trip fails and the provider has nothing *)
Definition quiet : Oracle :=
  {| o_api := Ok Null; o_fail := None; o_now := 0 |}.

(** ** Measures on the log *)

Definition is_get_data (ob : Obs) : bool :=
  match ob with ObsGetData _ => true | _ => false end.

Definition is_timeout (ob : Obs) : bool :=
  match ob with ObsTimeout _ => true | _ => false end.

Definition is_timeout_of (ms : Z) (ob : Obs) : bool :=
  match ob with ObsTimeout m => (m =? ms)%Z | _ => false end.

Definition is_plain_stock_insert (ob : Obs) : bool :=
  match ob with ObsQuery (InsertStock _ _) => true | _ => false end.

Definition count (f : Obs -> bool) (l : list Obs) : nat :=
  List.length (filter f l).

Arguments count : simpl never.
Arguments incr : simpl never.

(** Calls to the provider made so far *)
Definition api_calls (w : World) : nat := count is_get_data (log w).

(** Backoff waits so far *)
Definition delays (w : World) : nat := count is_timeout (log w).

(** Backoff waits of [ms] milliseconds so far *)
Definition delays_of (ms : Z) (w : World) : nat := count (is_timeout_of ms) (log w).

(** ** Statements of the properties *)

(** The provider rejects every call. *)
Definition always_errors (os : nat -> Oracle) : Prop :=
  forall j, exists e, o_api (os j) = Throw e.

(** A reply that makes the attempt throw into the retry handler: a rejection,
    or a payload that is neither [null] nor of type "object". *)
Definition fails_attempt (r : Result value) : bool :=
  match r with
  | Throw _ => true
  | Ok data => negb (strict_null data) && negb (typeof_object data)
  end.

(** A payload that passes the checks of [getDataWithRetry] *)
Definition passes_checks (data : value) : bool :=
  negb (strict_null data) && typeof_object data
  && negb (loose_null (get data "zacksRank"))
  && negb (loose_null (get data "zacksRankText")).

(** The time [getDataWithRetry] leaves in [updatedAt] when the clock shows
    [now] *)
Definition normalized_time {P : Platform} (updatedAt : value) (now : Z) : Z :=
  match updatedAt with
  | Str s => match Date_parse s with Some t => t | None => now end
  | DateObj (Some t) => t
  | _ => now
  end.

(** ** Sample inputs *)

(** A platform for closed examples: it reads one date and one number, and
    its server reads that date with or without the dashes. *)
Definition sample_platform : Platform :=
  {| Date_parse := fun s => if String.eqb s "2024-01-02" then Some 1704153600000 else None;
     String_toNumber := fun s => if String.eqb s "1" then Num 1 else NaN;
     pg_timestamp := fun s =>
       if String.eqb s "2024-01-02" || String.eqb s "20240102"
       then Some 1704153600000 else None |}.

Definition sample_payload : value :=
  Obj [("zacksRankText", Str "Buy"); ("zacksRank", Number (Num 1));
       ("updatedAt", Str "2024-01-02")].

Definition answers (r : Result value) : Oracle :=
  {| o_api := r; o_fail := None; o_now := 42 |}.

Definition breaks (e : Exn) : Oracle :=
  {| o_api := Ok Null; o_fail := Some e; o_now := 42 |}.

(** The reading of a non-record payload as a rejection at first sight: the
    first attempt returns, one call to the provider, no wait, the row in
    [noRankingStocks] and not in [failedRetrievals]. *)
Definition malformed_rejected_at_once : Prop :=
  forall (P : Platform) ticker maxRetries delay os i w data,
    (1 <= maxRetries)%nat ->
    o_api (os i) = Ok data ->
    strict_null data = false -> typeof_object data = false ->
    exists w',
      run (getDataWithRetry ticker maxRetries delay) os i w = (Ok Null, w', S i) /\
      api_calls w' = S (api_calls w) /\
      delays w' = delays w /\
      noRankingStocks (counters w') = S (noRankingStocks (counters w)) /\
      failedRetrievals (counters w') = failedRetrievals (counters w).

(** The provider answers every call with a payload that is neither [null]
    nor of type "object". *)
Definition always_malformed (os : nat -> Oracle) : Prop :=
  forall j, exists data,
    o_api (os j) = Ok data /\ strict_null data = false /\ typeof_object data = false.

(** No store round trip fails. *)
Definition all_fault_free (os : nat -> Oracle) : Prop :=
  forall j, o_fail (os j) = None.

(** A ranking as [getDataWithRetry] hands it on and the guard of
    [saveZacksRanking] lets it through, observed at [ts] *)
Definition validated {P : Platform} (data : value) (ts : Z) : Prop :=
  invalid_for_save data = false /\ get data "updatedAt" = DateObj (Some ts).

(** The rows of a store for a [(stock_id, updatedAt)] pair *)
Definition observations (sid ts : Z) (st : Store) : list RankingRow :=
  filter (Sql.has_key sid (Some ts)) (rankings st).

(** ** The stock resolver, turn by turn *)

(** The [catch] and [finally] of [getOrCreateStockId] around what is left of
    its [try] block *)
Definition resolver_guard (ticker : string) (p : Async Z) : Async Z :=
  try_finally
    (try_catch p
       (fun error =>
          query Rollback ;;!
          print (ErrGetOrCreateStockId ticker error) ;;
          throw error))
    (perform Release).

(** [getOrCreateStockId] suspended at BEGIN, at the SELECT, at the INSERT, at
    COMMIT with the rows it will return from, and at ROLLBACK with the error
    it will rethrow *)
Definition at_begin (ticker name : string) : Async Z :=
  resolver_guard ticker
    (query Begin ;;!
     res <-! query (SelectStockId ticker) ;;
     if (0 <? List.length res)%nat then
       query Commit ;;! first_row res
     else
       res <-! query (UpsertStock ticker name) ;;
       query Commit ;;! first_row res).

Definition at_select (ticker name : string) : Async Z :=
  resolver_guard ticker
    (res <-! query (SelectStockId ticker) ;;
     if (0 <? List.length res)%nat then
       query Commit ;;! first_row res
     else
       res <-! query (UpsertStock ticker name) ;;
       query Commit ;;! first_row res).

Definition at_insert (ticker name : string) : Async Z :=
  resolver_guard ticker
    (res <-! query (UpsertStock ticker name) ;;
     query Commit ;;! first_row res).

Definition at_commit (ticker : string) (res : list Z) : Async Z :=
  resolver_guard ticker (query Commit ;;! first_row res).

Definition at_rollback (ticker : string) (error : Exn) : Async Z :=
  try_finally
    (query Rollback ;;!
     print (ErrGetOrCreateStockId ticker error) ;;
     throw error)
    (perform Release).

(** Every state a call [getOrCreateStockId(ticker, name)] goes through *)
Inductive resolver_state (ticker name : string) : Async Z -> Prop :=
| rs_connect : resolver_state ticker name (getOrCreateStockId ticker name)
| rs_begin : resolver_state ticker name (at_begin ticker name)
| rs_select : resolver_state ticker name (at_select ticker name)
| rs_insert : resolver_state ticker name (at_insert ticker name)
| rs_commit res : resolver_state ticker name (at_commit ticker res)
| rs_rollback e : resolver_state ticker name (at_rollback ticker e)
| rs_settled r : resolver_state ticker name (Ret r).

(** The program waits for the reply to the lookup / to the insert. *)
Definition awaits_lookup {A} (p : Prog A) : bool :=
  match p with
  | Await (ClientQuery (SelectStockId _)) _ => true
  | _ => false
  end.

Definition awaits_insert {A} (p : Prog A) : bool :=
  match p with
  | Await (ClientQuery (UpsertStock _ _)) _ => true
  | Await (ClientQuery (InsertStock _ _)) _ => true
  | _ => false
  end.

(** ** Concurrent calls of the resolver *)

(** What is known of a call for [ticker] in a pool when no round trip fails:
    it has not inserted or looked up yet, or it holds the id of the one row
    of [ticker]. *)
Definition task_ok (ticker : string) (st : Store) (p : Async Z) : Prop :=
  (exists name,
     p = getOrCreateStockId ticker name \/ p = at_begin ticker name \/
     p = at_select ticker name \/ p = at_insert ticker name) \/
  (exists id,
     (p = at_commit ticker [id] \/ p = Ret (Ok id)) /\
     Sql.select_stock_ids ticker st = [id]).

(** The UNIQUE constraint on [ticker], for one ticker *)
Definition ticker_unique (ticker : string) (st : Store) : Prop :=
  (List.length (Sql.select_stock_ids ticker st) <= 1)%nat.

Definition schedule_fault_free (sched : list (nat * Oracle)) : Prop :=
  Forall (fun t => o_fail (snd t) = None) sched.

(** Plain INSERTs into [stocks] sent so far *)
Definition plain_inserts (w : World) : nat := count is_plain_stock_insert (log w).

(** ** The unit of work and the run *)

(** The [try] block and the [catch] block of the unit of work *)
Definition row_try {P : Platform} (row : Row) : Async unit :=
  tick TotalProcessed ;;
  data <-! getDataWithRetry (row_ticker row) default_maxRetries default_delay ;;
  if truthy data then
    stockId <-! getOrCreateStockId (row_ticker row) (row_name row) ;;
    saveZacksRanking stockId data
  else
    print (LogSkippingInsertion (row_ticker row)) ;;
    ret tt.

Definition row_catch (row : Row) (error : Exn) : Async unit :=
  print (ErrProcessingTicker (row_ticker row) error) ;;
  tick FailedProcessing ;;
  tick NoRankingStocks ;;
  ret tt.

(** Whatever the environment replies, the program ends by returning: its
    promise fulfils. *)
Inductive fulfils {A} : Async A -> Prop :=
| fulfils_ret a : fulfils (Ret (Ok a))
| fulfils_await R (c : Call R) k : (forall r, fulfils (k r)) -> fulfils (Await c k)
| fulfils_do R (s : Sync R) k : (forall r, fulfils (k r)) -> fulfils (Do s k).

(** Every line the program can print satisfies [Q]. *)
Inductive prints_only {A} (Q : Line -> Prop) : Prog A -> Prop :=
| po_ret a : prints_only Q (Ret a)
| po_await R (c : Call R) k :
    (forall r, prints_only Q (k r)) -> prints_only Q (Await c k)
| po_print l k :
    Q l -> (forall r, prints_only Q (k r)) -> prints_only Q (Do (Print l) k)
| po_tick c k :
    (forall r, prints_only Q (k r)) -> prints_only Q (Do (Tick c) k)
| po_now k :
    (forall r, prints_only Q (k r)) -> prints_only Q (Do NewDate k)
| po_release k :
    (forall r, prints_only Q (k r)) -> prints_only Q (Do Release k).

(** The lines of [main] and of the handlers of [processCSV], as against those
    of a row's unit *)
Definition run_line (l : Line) : bool :=
  match l with
  | LogCsvCompleted | ErrProcessingCsv _ | LogConnectionsClosed | LogSummary _
  | ErrMain _ | LogProgramCompleted => true
  | _ => false
  end.

Definition row_line (l : Line) : Prop := run_line l = false.

Definition settled {A} (p : Prog A) : Prop := exists a, p = Ret a.

(** A run in which the store refuses the write of the one row: setup, one
    row, its fetch, the five round trips of the resolver, the connect and
    BEGIN of the writer, the failing INSERT, ROLLBACK, end of the stream,
    [pool.end()]. *)
Definition store_failure_run : list Event :=
  [EvMain quiet;
   EvStream (StreamData {| row_ticker := "AAPL"; row_name := "Apple" |});
   EvUnit 0 (answers (Ok sample_payload));
   EvUnit 0 quiet; EvUnit 0 quiet; EvUnit 0 quiet; EvUnit 0 quiet; EvUnit 0 quiet;
   EvUnit 0 quiet; EvUnit 0 quiet;
   EvUnit 0 (breaks (ExnDb "57014"));
   EvUnit 0 quiet;
   EvStream StreamEnd;
   EvMain quiet].


(** A run of [index.js] over two rows, the store refusing the write of the
    first: setup, the client, the two rows, the end of the stream; the fetch,
    the lookup, the insert of the stock and the failing insert of the
    ranking for the first row; the four round trips of the second;
    [pool.end()]. *)
Definition index_store_failure_run : list Event :=
  [EvMain quiet; EvMain quiet;
   EvStream (StreamData {| row_ticker := "AAPL"; row_name := "Apple" |});
   EvStream (StreamData {| row_ticker := "MSFT"; row_name := "Microsoft" |});
   EvStream StreamEnd;
   EvUnit 0 (answers (Ok sample_payload)); EvUnit 0 quiet; EvUnit 0 quiet;
   EvUnit 0 (breaks (ExnDb "57014"));
   EvUnit 1 (answers (Ok sample_payload)); EvUnit 1 quiet; EvUnit 1 quiet; EvUnit 1 quiet;
   EvMain quiet].


(** The lines of [main] and of the handlers of [processCSV] among what was
    observed, newest first *)
Fixpoint run_lines (obs : list Obs) : list Line :=
  match obs with
  | [] => []
  | ObsPrint l :: rest => if run_line l then l :: run_lines rest else run_lines rest
  | _ :: rest => run_lines rest
  end.

(** How [processCSV()] settled: the line that is printed for it (by the 'end'
    handler when it resolves, by the [catch] of [main] when it rejects), and
    the state the stream was left in. *)
Definition csv_line (r : Result unit) : Line :=
  match r with
  | Ok _ => LogCsvCompleted
  | Throw e => ErrProcessingCsv e
  end.

Definition stream_of (r : Result unit) : StreamState :=
  match r with
  | Ok _ => Ended
  | Throw _ => Errored
  end.



(** ** Counting along the paths of a program *)

(** A weight for each counter, and the weighted sum of the counters *)
Definition measure (wt : Counter -> Z) (k : Counters) : Z :=
  wt TotalProcessed * Z.of_nat (totalProcessed k)
  + wt SuccessfulSaves * Z.of_nat (successfulSaves k)
  + wt FailedRetrievals * Z.of_nat (failedRetrievals k)
  + wt FailedSaves * Z.of_nat (failedSaves k)
  + wt NoRankingStocks * Z.of_nat (noRankingStocks k)
  + wt TotalInserts * Z.of_nat (totalInserts k)
  + wt TotalUpdates * Z.of_nat (totalUpdates k)
  + wt FailedProcessing * Z.of_nat (failedProcessing k).

(** [tally wt p Q acc]: on every path of [p], whatever the environment
    replies, the program ends with a result [a] and a weighted number of
    increments which, added to [acc], satisfy [Q]. *)
Fixpoint tally {A} (wt : Counter -> Z) (p : Prog A) (Q : A -> Z -> Prop) (acc : Z)
  : Prop :=
  match p with
  | Ret a => Q a acc
  | Await c k => forall r, tally wt (k r) Q acc
  | Do s k =>
      match s in Sync R return (R -> Z -> Prop) -> Prop with
      | Tick c => fun rest => rest tt (acc + wt c)
      | _ => fun rest => forall r, rest r acc
      end (fun r acc' => tally wt (k r) Q acc')
  end.

(** The two sides of the counter identity against each other: a processed
    row and a failed save on one side, a successful save and a row without
    ranking on the other. *)
Definition balance (c : Counter) : Z :=
  match c with
  | SuccessfulSaves | NoRankingStocks => 1
  | TotalProcessed | FailedSaves => -1
  | _ => 0
  end.

Definition processed (c : Counter) : Z :=
  match c with TotalProcessed => 1 | _ => 0 end.

(** The counters are the sum of what the units have counted so far, each unit
    being on its way to a total of [T]. *)
Definition tallied (wt : Counter -> Z) (T : Z) (s : System) : Prop :=
  exists accs,
    Forall2 (fun p acc => tally wt p (fun _ z => z = T) acc) (pendingPromises s) accs /\
    measure wt (counters (world s)) = fold_right Z.add 0 accs.

(** What the fetch counts: nothing for a payload it returns, one row without
    ranking for a [null] it returns, and a failed retrieval besides when the
    attempts ran out.  It never throws. *)
Definition fetch_post (wt : Counter -> Z) (acc : Z) (r : Result value) (z : Z) : Prop :=
  exists v, r = Ok v /\
    ((v = Null /\ (z = acc + wt NoRankingStocks \/
                  z = acc + wt FailedRetrievals + wt NoRankingStocks)) \/
     (truthy v = true /\ z = acc)).

(** The ways a unit of work can end, by what it has counted. *)
Definition unit_totals (wt : Counter -> Z) (z : Z) : Prop :=
  z = wt TotalProcessed + wt NoRankingStocks \/
  z = wt TotalProcessed + wt FailedRetrievals + wt NoRankingStocks \/
  z = wt TotalProcessed + wt FailedProcessing + wt NoRankingStocks \/
  z = wt TotalProcessed + wt TotalInserts + wt SuccessfulSaves \/
  z = wt TotalProcessed + wt TotalUpdates + wt SuccessfulSaves \/
  z = wt TotalProcessed + wt FailedSaves + wt NoRankingStocks
        + wt FailedProcessing + wt NoRankingStocks.

(** ** The constraints of the schema *)

(** UNIQUE(ticker) and UNIQUE(stock_id, updatedAt): no two rows of [stocks]
    with one ticker, no two rows of [zacks_rankings] with one stock and one
    timestamp. *)
Definition constraints_hold (st : Store) : Prop :=
  (forall t, (List.length (Sql.select_stock_ids t st) <= 1)%nat) /\
  (forall sid ts, (List.length (observations sid ts st) <= 1)%nat).

(** ** What holds on every path of a program *)

(** [wp p Q w]: started in [w], whatever the environment replies to its
    calls, the program ends with a result and in a world that satisfy [Q]. *)
Fixpoint wp {P : Platform} {A} (p : Prog A) (Q : A -> World -> Prop) (w : World) : Prop :=
  match p with
  | Ret a => Q a w
  | Await c k => forall o, wp (k (fst (complete c o w))) Q (snd (complete c o w))
  | Do s k => wp (k (fst (effect s w))) Q (snd (effect s w))
  end.

Definition is_connect (ob : Obs) : bool :=
  match ob with ObsConnect => true | _ => false end.

Definition is_release (ob : Obs) : bool :=
  match ob with ObsRelease => true | _ => false end.

Definition is_query (ob : Obs) : bool :=
  match ob with ObsQuery _ => true | _ => false end.

(** Calls of [pool.connect()], of [client.release()] and of [client.query]
    so far *)
Definition connects (w : World) : nat := count is_connect (log w).
Definition releases (w : World) : nat := count is_release (log w).
Definition queries (w : World) : nat := count is_query (log w).

(** A record as [getDataWithRetry] hands it on: rank and label present,
    [updatedAt] a valid Date *)
Definition fetched_record (data : value) : Prop :=
  passes_checks data = true /\ exists ts, get data "updatedAt" = DateObj (Some ts).

(** The database is as it was and no connection or statement was asked for. *)
Definition db_untouched (w w' : World) : Prop :=
  store w' = store w /\ connects w' = connects w /\ queries w' = queries w.

(** ** The counters at every turn *)

(** [steady wt I p Q acc]: on every path of [p], whatever the environment
    replies, the weighted number of increments, counted from [acc], is in
    [I] whenever the program waits for a call, and the program ends with a
    result and a count that satisfy [Q]. *)
Fixpoint steady {A} (wt : Counter -> Z) (I : Z -> Prop) (p : Prog A)
  (Q : A -> Z -> Prop) (acc : Z) : Prop :=
  match p with
  | Ret a => Q a acc
  | Await c k => I acc /\ forall r, steady wt I (k r) Q acc
  | Do s k =>
      match s in Sync R return (R -> Z -> Prop) -> Prop with
      | Tick c => fun rest => rest tt (acc + wt c)
      | _ => fun rest => forall r, rest r acc
      end (fun r acc' => steady wt I (k r) Q acc')
  end.

(** The counters are the sum of what the units have counted, each unit having
    counted a number in [I] at its last turn and at all its turns to come. *)
Definition steadily (wt : Counter -> Z) (I : Z -> Prop) (s : System) : Prop :=
  exists accs,
    Forall2 (fun p acc => steady wt I p (fun _ z => I z) acc) (pendingPromises s) accs /\
    Forall I accs /\
    measure wt (counters (world s)) = fold_right Z.add 0 accs.

(** Successful saves against inserts and updates *)
Definition saves_split (c : Counter) : Z :=
  match c with
  | SuccessfulSaves => 1
  | TotalInserts | TotalUpdates => -1
  | _ => 0
  end.

(** Failures caught by the unit against failed saves *)
Definition caught_over_failed_saves (c : Counter) : Z :=
  match c with
  | FailedProcessing => 1
  | FailedSaves => -1
  | _ => 0
  end.

(** Rows without ranking against the two kinds of failure counted with them *)
Definition no_ranking_over_failures (c : Counter) : Z :=
  match c with
  | NoRankingStocks => 1
  | FailedRetrievals | FailedProcessing => -1
  | _ => 0
  end.

(** ** Setting the database up ([db-setup.js]) *)

Module DbSetup.

(** A database of the server: the two tables of the application, as far as
    they exist, each with its rows and the last value of its id sequence. *)
Record Database : Type := {
  tbl_stocks : option (list StockRow * Z);
  tbl_rankings : option (list RankingRow * Z)
}.

Definition no_tables : Database := {| tbl_stocks := None; tbl_rankings := None |}.

(** The databases of the server, by name *)
Definition Cluster : Type := list (string * Database).

Fixpoint find_db (name : string) (c : Cluster) : option Database :=
  match c with
  | [] => None
  | (n, db) :: rest => if String.eqb n name then Some db else find_db name rest
  end.

Fixpoint put_db (name : string) (db : Database) (c : Cluster) : Cluster :=
  match c with
  | [] => [(name, db)]
  | (n, d) :: rest =>
      if String.eqb n name then (n, db) :: rest else (n, d) :: put_db name db rest
  end.

Definition exists_db (name : string) (c : Cluster) : bool :=
  match find_db name c with Some _ => true | None => false end.

(** The three statements of [setupDatabase] *)
Inductive Statement : Type -> Type :=
| SelectDatabase (datname : string) : Statement nat
  (* SELECT 1 FROM pg_database WHERE datname=$1, as [res.rows.length] *)
| CreateDatabase (text : string) : Statement unit
  (* CREATE DATABASE ${...}: the name is spliced into the statement *)
| CreateTables : Statement unit.
  (* CREATE TABLE IF NOT EXISTS stocks (...); CREATE TABLE IF NOT EXISTS
     zacks_rankings (...) *)

(** What [setupDatabase] waits for, by the database its pool is bound to *)
Inductive Op : Type -> Type :=
| PoolQuery (database : string) {T} (q : Statement T) : Op (Result T)
| PoolEnd (database : string) : Op (Result unit).

Inductive Line : Type :=
| LogDatabaseCreated (name : string)
| LogTablesCreated.

Inductive Obs : Type :=
| ObsQuery (database : string) {T} (q : Statement T)
| ObsEnd (database : string)
| ObsLog (l : Line).

Inductive Setup (A : Type) : Type :=
| Done (a : A)
| Wait {R} (op : Op R) (k : R -> Setup A)
| Log (l : Line) (k : Setup A).

Arguments Done {A} a.
Arguments Wait {A R} op k.
Arguments Log {A} l k.

Fixpoint then_ {A B} (p : Setup A) (f : A -> Setup B) : Setup B :=
  match p with
  | Done a => f a
  | Wait op k => Wait op (fun r => then_ (k r) f)
  | Log l k => Log l (then_ k f)
  end.

Definition wait {R} (op : Op R) : Setup R := Wait op Done.

(** Sequencing that lets a throw escape *)
Definition and_then {A B} (p : Setup (Result A)) (f : A -> Setup (Result B))
  : Setup (Result B) :=
  then_ p (fun r => match r with Ok a => f a | Throw e => Done (Throw e) end).

(** [try { p } finally { await f }]: a rejection of [f] replaces the outcome
    of [p]. *)
Definition finally {A} (p : Setup (Result A)) (f : Setup (Result unit))
  : Setup (Result A) :=
  then_ p (fun r =>
  then_ f (fun e => match e with Ok _ => Done r | Throw e' => Done (Throw e') end)).

(** The maintenance database the first pool is bound to *)
Definition postgres : string := "postgres".

(** [setupDatabase()], for the value of [process.env.PGDATABASE] *)
Definition setupDatabase (PGDATABASE : string) : Setup (Result unit) :=
  and_then
    (finally
       (and_then (wait (PoolQuery postgres (SelectDatabase PGDATABASE))) (fun rows =>
        if (rows =? 0)%nat then
          and_then (wait (PoolQuery postgres (CreateDatabase PGDATABASE))) (fun _ =>
          Log (LogDatabaseCreated PGDATABASE) (Done (Ok tt)))
        else Done (Ok tt)))
       (wait (PoolEnd postgres)))
    (fun _ =>
     finally
       (and_then (wait (PoolQuery PGDATABASE CreateTables)) (fun _ =>
        Log LogTablesCreated (Done (Ok tt))))
       (wait (PoolEnd PGDATABASE))).

Definition invalid_catalog_name : string := "3D000".
Definition duplicate_database : string := "42P04".
Definition syntax_error : string := "42601".

Record Server : Type := {
  cluster : Cluster;
  trace : list Obs               (* newest first *)
}.

Section Semantics.

(** The name the server reads in the text spliced after CREATE DATABASE
    (it folds an unquoted name to lower case), [None] when the text is no
    name. *)
Variable pg_identifier : string -> option string.

(** CREATE TABLE IF NOT EXISTS, for both tables *)
Definition create_tables (db : Database) : Database :=
  {| tbl_stocks := match tbl_stocks db with Some t => Some t | None => Some ([], 0) end;
     tbl_rankings := match tbl_rankings db with Some t => Some t | None => Some ([], 0) end |}.

(** A statement on a pool bound to [database]: the pool connects first, and
    cannot when the database is not there. *)
Definition exec {T} (database : string) (q : Statement T) (c : Cluster)
  : Result T * Cluster :=
  match find_db database c with
  | None => (Throw (ExnDb invalid_catalog_name), c)
  | Some db =>
      match q in Statement T return Result T * Cluster with
      | SelectDatabase n => (Ok (if exists_db n c then 1 else 0)%nat, c)
      | CreateDatabase text =>
          match pg_identifier text with
          | None => (Throw (ExnDb syntax_error), c)
          | Some n =>
              if exists_db n c then (Throw (ExnDb duplicate_database), c)
              else (Ok tt, c ++ [(n, no_tables)])%list
          end
      | CreateTables => (Ok tt, put_db database (create_tables db) c)
      end
  end.

Definition obs_of {R} (op : Op R) : Obs :=
  match op with
  | PoolQuery d q => ObsQuery d q
  | PoolEnd d => ObsEnd d
  end.

(** The reply to an operation; [fault] is what the environment makes of it
    (a lost connection, a refused login), if anything. *)
Definition answer {R} (op : Op R) (fault : option Exn) (c : Cluster) : R * Cluster :=
  match op in Op R return R * Cluster with
  | PoolQuery d q =>
      match fault with
      | Some e => (Throw e, c)
      | None => exec d q c
      end
  | PoolEnd d => (match fault with Some e => Throw e | None => Ok tt end, c)
  end.

(** Run to the end; [faults i] decides the [i]-th operation. *)
Fixpoint run {A} (p : Setup A) (faults : nat -> option Exn) (i : nat) (s : Server)
  : A * Server :=
  match p with
  | Done a => (a, s)
  | Wait op k =>
      let '(r, c) := answer op (faults i) (cluster s) in
      run (k r) faults (S i) {| cluster := c; trace := obs_of op :: trace s |}
  | Log l k => run k faults i {| cluster := cluster s; trace := ObsLog l :: trace s |}
  end.

End Semantics.

(** Operations observed so far *)
Definition is_end_of (database : string) (ob : Obs) : bool :=
  match ob with ObsEnd d => String.eqb d database | _ => false end.

Definition is_query_on (database : string) (ob : Obs) : bool :=
  match ob with ObsQuery d _ => String.eqb d database | _ => false end.

Definition is_create_database (ob : Obs) : bool :=
  match ob with ObsQuery _ (CreateDatabase _) => true | _ => false end.

Definition is_create_tables (ob : Obs) : bool :=
  match ob with ObsQuery _ CreateTables => true | _ => false end.

Definition tally (f : Obs -> bool) (s : Server) : nat :=
  List.length (filter f (trace s)).

Definition no_fault : nat -> option Exn := fun _ => None.

(** The table as it is, or as CREATE TABLE makes it *)
Definition table_or_new {R} (t : option (list R * Z)) : list R * Z :=
  match t with Some x => x | None => ([], 0) end.

End DbSetup.

(** ** The run of the earlier program ([index.js]): one client for all rows *)

Module IndexJsRun.

(** Where [main] is suspended *)
Inductive MainState : Type :=
| MainSetup                     (* await setup() *)
| MainConnect                   (* await pool.connect() *)
| MainCsv                       (* await processCSV() *)
| MainPoolEnd                   (* finally: await pool.end() *)
| MainExited (code : Z).        (* the process has ended with status [code] *)

Record System : Type := {
  world : World;
  main : MainState;
  stream : StreamState;
  pendingPromises : list (Async unit);
  csv : option (Result unit)
}.

Definition boot (st : Store) : System :=
  {| world := {| counters := zero_counters; store := st; clock := 0; log := [] |};
     main := MainSetup; stream := Unopened;
     pendingPromises := []; csv := None |}.

Section Coordinator.
Context {P : Platform}.

(** [main()] rejects with [e]: [.catch(console.error)], then the [.finally]
    handler prints and exits. *)
Definition reject_main (e : Exn) (w : World) (s : System) : System :=
  {| world := say LogProgramCompleted (say (ErrMain e) w);
     main := MainExited 0; stream := stream s;
     pendingPromises := pendingPromises s; csv := csv s |}.

Definition settle (s : System) : System :=
  match csv s, stream s with
  | None, Ended =>
      match promise_all (pendingPromises s) with
      | Some (Ok _) =>
          {| world := say LogCsvCompleted (world s); main := main s; stream := stream s;
             pendingPromises := pendingPromises s; csv := Some (Ok tt) |}
      | Some (Throw e) =>
          {| world := world s; main := main s; stream := stream s;
             pendingPromises := pendingPromises s; csv := Some (Throw e) |}
      | None => s
      end
  | _, _ => s
  end.

(** [main] after [await processCSV()]: the [catch] prints the error, and the
    [finally] block releases the client and starts closing the pool. *)
Definition wake_main (s : System) : System :=
  match main s, csv s with
  | MainCsv, Some (Ok _) =>
      {| world := snd (effect Release (world s)); main := MainPoolEnd; stream := stream s;
         pendingPromises := pendingPromises s; csv := csv s |}
  | MainCsv, Some (Throw e) =>
      {| world := snd (effect Release (say (ErrProcessingCsv e) (world s)));
         main := MainPoolEnd; stream := stream s;
         pendingPromises := pendingPromises s; csv := csv s |}
  | _, _ => s
  end.

Definition main_turn (o : Oracle) (s : System) : System :=
  match main s with
  | MainSetup =>
      match o_fail o with
      | Some e => reject_main e (world s) s
      | None =>
          {| world := world s; main := MainConnect; stream := stream s;
             pendingPromises := pendingPromises s; csv := csv s |}
      end
  | MainConnect =>
      let '(r, w) := complete Connect o (world s) in
      match r with
      | Throw e => reject_main e w s
      | Ok _ =>
          (* processCSV() opens the stream and registers its handlers *)
          {| world := w; main := MainCsv; stream := Flowing;
             pendingPromises := pendingPromises s; csv := csv s |}
      end
  | MainPoolEnd =>
      match o_fail o with
      | Some e => reject_main e (world s) s
      | None =>
          {| world := say LogProgramCompleted (say LogConnectionsClosed (world s));
             main := MainExited 0; stream := stream s;
             pendingPromises := pendingPromises s; csv := csv s |}
      end
  | _ => s
  end.

Definition stream_turn (e : StreamEvent) (s : System) : System :=
  match stream s with
  | Flowing =>
      match e with
      | StreamData row =>
          let '(p, w) := advance (IndexJs.rowUnit row) (world s) in
          {| world := w; main := main s; stream := Flowing;
             pendingPromises := pendingPromises s ++ [p]; csv := csv s |}
      | StreamEnd =>
          {| world := world s; main := main s; stream := Ended;
             pendingPromises := pendingPromises s; csv := csv s |}
      | StreamError err =>
          {| world := world s; main := main s; stream := Errored;
             pendingPromises := pendingPromises s;
             csv := match csv s with None => Some (Throw err) | settled => settled end |}
      | SourceError _ =>
          (* no listener: the process dies with status 1, the client of
             [main] still checked out *)
          {| world := world s; main := MainExited 1; stream := Errored;
             pendingPromises := pendingPromises s; csv := csv s |}
      end
  | _ => s
  end.

Definition unit_turn (i : nat) (o : Oracle) (s : System) : System :=
  match nth_error (pendingPromises s) i with
  | Some p =>
      let '(p', w) := resume o p (world s) in
      {| world := w; main := main s; stream := stream s;
         pendingPromises := replace_nth i p' (pendingPromises s); csv := csv s |}
  | None => s
  end.

Definition step (s : System) (ev : Event) : System :=
  match main s with
  | MainExited _ => s
  | _ =>
      wake_main (settle
        match ev with
        | EvMain o => main_turn o s
        | EvStream e => stream_turn e s
        | EvUnit i o => unit_turn i o s
        end)
  end.

Definition steps (s : System) (evs : list Event) : System :=
  fold_left step evs s.

End Coordinator.

End IndexJsRun.

(** A program that never asks the pool for a client and never releases one *)
Definition asks_pool {R} (c : Call R) : bool :=
  match c with Connect => true | _ => false end.

Definition gives_back {R} (s : Sync R) : bool :=
  match s with Release => true | _ => false end.

Inductive pool_free {A} : Prog A -> Prop :=
| pf_ret a : pool_free (Ret a)
| pf_await R (c : Call R) k :
    asks_pool c = false -> (forall r, pool_free (k r)) -> pool_free (Await c k)
| pf_do R (s : Sync R) k :
    gives_back s = false -> (forall r, pool_free (k r)) -> pool_free (Do s k).

(** A program that moves no counter *)
Definition counts {R} (s : Sync R) : bool :=
  match s with Tick _ => true | _ => false end.

Inductive tick_free {A} : Prog A -> Prop :=
| tf_ret a : tick_free (Ret a)
| tf_await R (c : Call R) k : (forall r, tick_free (k r)) -> tick_free (Await c k)
| tf_do R (s : Sync R) k :
    counts s = false -> (forall r, tick_free (k r)) -> tick_free (Do s k).

(** What holds of the units of a run of [index.js] at any time: they return,
    print lines of their own only, leave the pool and the client of [main]
    alone and count nothing. *)
Definition index_units_ok (ps : list (Async unit)) : Prop :=
  Forall fulfils ps /\ Forall (prints_only row_line) ps /\
  Forall pool_free ps /\ Forall tick_free ps.

(** The states a run of [index.js] goes through.  No counter is ever moved;
    the one client is asked for once, held while [processCSV()] is awaited,
    and released once before the pool is closed. *)
Inductive index_phase (st : Store) : IndexJsRun.System -> Prop :=
| iph_start w m :
    m = IndexJsRun.MainSetup \/ m = IndexJsRun.MainConnect ->
    log w = [] -> store w = st -> counters w = zero_counters ->
    index_phase st (IndexJsRun.Build_System w m Unopened [] None)
| iph_refused w e rest :
    rest = [] \/ rest = [ObsConnect] ->
    log w = ObsPrint LogProgramCompleted :: ObsPrint (ErrMain e) :: rest ->
    store w = st -> counters w = zero_counters ->
    index_phase st (IndexJsRun.Build_System w (IndexJsRun.MainExited 0) Unopened [] None)
| iph_flowing w ps :
    index_units_ok ps -> counters w = zero_counters ->
    connects w = 1%nat -> releases w = 0%nat -> run_lines (log w) = [] ->
    index_phase st (IndexJsRun.Build_System w IndexJsRun.MainCsv Flowing ps None)
| iph_draining w ps :
    index_units_ok ps -> counters w = zero_counters ->
    connects w = 1%nat -> releases w = 0%nat -> run_lines (log w) = [] ->
    promise_all ps = None ->
    index_phase st (IndexJsRun.Build_System w IndexJsRun.MainCsv Ended ps None)
| iph_crashed w ps :
    index_units_ok ps -> counters w = zero_counters ->
    connects w = 1%nat -> releases w = 0%nat -> run_lines (log w) = [] ->
    index_phase st (IndexJsRun.Build_System w (IndexJsRun.MainExited 1) Errored ps None)
| iph_closing w ps r :
    index_units_ok ps -> counters w = zero_counters ->
    connects w = 1%nat -> releases w = 1%nat -> run_lines (log w) = [csv_line r] ->
    (stream_of r = Ended -> Forall settled ps) ->
    index_phase st
      (IndexJsRun.Build_System w IndexJsRun.MainPoolEnd (stream_of r) ps (Some r))
| iph_exited w ps r rest :
    index_units_ok ps -> counters w = zero_counters ->
    connects w = 1%nat -> releases w = 1%nat ->
    (stream_of r = Ended -> Forall settled ps) ->
    log w = ObsPrint LogProgramCompleted :: ObsPrint LogConnectionsClosed :: rest ->
    run_lines (log w) = [LogProgramCompleted; LogConnectionsClosed; csv_line r] ->
    index_phase st
      (IndexJsRun.Build_System w (IndexJsRun.MainExited 0) (stream_of r) ps (Some r))
| iph_pool_failed w ps r e rest :
    index_units_ok ps -> counters w = zero_counters ->
    connects w = 1%nat -> releases w = 1%nat ->
    (stream_of r = Ended -> Forall settled ps) ->
    log w = ObsPrint LogProgramCompleted :: ObsPrint (ErrMain e) :: rest ->
    run_lines (log w) = [LogProgramCompleted; ErrMain e; csv_line r] ->
    index_phase st
      (IndexJsRun.Build_System w (IndexJsRun.MainExited 0) (stream_of r) ps (Some r)).

(** ** The first program: a pool, a client for each statement, no waiting *)

Module Script.
Section Program.
Context {P : Platform}.

(** [getStockId(ticker, name)] *)
Definition getStockId (ticker name : string) : Async Z :=
  await Connect ;;!
  try_finally
    (res <-! query (SelectStockId ticker) ;;
     if (0 <? List.length res)%nat then
       first_row res
     else
       res <-! query (InsertStock ticker name) ;;
       first_row res)
    (perform Release).

(** [saveZacksRanking(stockId, data)] *)
Definition saveZacksRanking (stockId : Z) (data : value) : Async unit :=
  await Connect ;;!
  try_finally
    (try_catch
       (print (LogData data) ;;
        query (InsertRanking stockId (get data "zacksRankText")
                 (get data "zacksRank") (get data "updatedAt")) ;;!
        ret tt)
       (fun error =>
          if IndexJs.is_unique_violation error then
            print (LogDuplicateEntry stockId (get data "updatedAt")) ;;
            ret tt
          else throw error))
    (perform Release).

(** [getDataWithRetry]: the loop is the one of [index.js], line for line. *)
Definition getDataWithRetry (ticker : string) (maxRetries : nat) (delay : Z)
  : Async value :=
  IndexJs.getDataWithRetry ticker maxRetries delay.

(** The 'data' handler *)
Definition onData (row : Row) : Async unit :=
  let ticker := row_ticker row in
  let name := row_name row in
  try_catch
    (data <-! getDataWithRetry ticker default_maxRetries default_delay ;;
     if truthy data then
       stockId <-! getStockId ticker name ;;
       saveZacksRanking stockId data
     else
       print (ErrFailedToRetrieve ticker) ;;
       ret tt)
    (fun error =>
       print (ErrProcessingTicker ticker error) ;;
       ret tt).

End Program.

(** The process: the stream, and the handlers it has started.  Nothing waits
    for the handlers, and the stream has no 'error' listener: an error of
    the stream is an uncaught exception. *)
Record System : Type := {
  world : World;
  stream : StreamState;
  handlers : list (Async unit);
  crashed : bool
}.

Definition boot (st : Store) : System :=
  {| world := {| counters := zero_counters; store := st; clock := 0; log := [] |};
     stream := Flowing; handlers := []; crashed := false |}.

Section Process.
Context {P : Platform}.

Definition step (s : System) (ev : Event) : System :=
  if crashed s then s
  else
    match ev with
    | EvMain _ => s
    | EvStream e =>
        match stream s with
        | Flowing =>
            match e with
            | StreamData row =>
                let '(p, w) := advance (onData row) (world s) in
                {| world := w; stream := Flowing; handlers := handlers s ++ [p];
                   crashed := false |}
            | StreamEnd =>
                {| world := say LogCsvCompleted (world s); stream := Ended;
                   handlers := handlers s; crashed := false |}
            | StreamError _ | SourceError _ =>
                {| world := world s; stream := Errored; handlers := handlers s;
                   crashed := true |}
            end
        | _ => s
        end
    | EvUnit i o =>
        match nth_error (handlers s) i with
        | Some p =>
            let '(p', w) := resume o p (world s) in
            {| world := w; stream := stream s;
               handlers := replace_nth i p' (handlers s); crashed := false |}
        | None => s
        end
    end.

Definition steps (s : System) (evs : list Event) : System :=
  fold_left step evs s.

End Process.

End Script.

(** BEGIN, COMMIT and ROLLBACK sent so far *)
Definition is_begin (ob : Obs) : bool :=
  match ob with ObsQuery Begin => true | _ => false end.

Definition is_commit (ob : Obs) : bool :=
  match ob with ObsQuery Commit => true | _ => false end.

Definition is_rollback (ob : Obs) : bool :=
  match ob with ObsQuery Rollback => true | _ => false end.

Definition begins (w : World) : nat := count is_begin (log w).
Definition commits (w : World) : nat := count is_commit (log w).
Definition rollbacks (w : World) : nat := count is_rollback (log w).

(** How a call that was given a client has left its transaction: committed
    when it returns, rolled back when it throws. *)
Definition transaction_closed {A} (w : World) (r : Result A) (w' : World) : Prop :=
  begins w' = S (begins w) /\
  match r with
  | Ok _ => commits w' = S (commits w) /\ rollbacks w' = rollbacks w
  | Throw _ => rollbacks w' = S (rollbacks w) /\ (commits w' <= S (commits w))%nat
  end.

(** A record that lacks its rank or its label *)
Definition incomplete (data : value) : bool :=
  negb (strict_null data) && typeof_object data
  && (loose_null (get data "zacksRank") || loose_null (get data "zacksRankText")).

(** * Properties *)

(** ** The semantics *)

Section RunFacts.
Context {P : Platform}.

Lemma run_bind {A B} (p : Prog A) (f : A -> Prog B) os i w :
  run (bind p f) os i w =
  let '(a, w', i') := run p os i w in run (f a) os i' w'.
Proof.
  revert i w.
  induction p as [a | R c k IH | R s k IH]; intros i w; simpl.
  - reflexivity.
  - destruct (complete c (os i) w) as [r w']. apply IH.
  - destruct (effect s w) as [r w']. apply IH.
Qed.

(** Running on from where [advance] stopped is running from the start. *)
Lemma run_advance {A} (p : Prog A) os i w :
  run (fst (advance p w)) os i (snd (advance p w)) = run p os i w.
Proof.
  revert w.
  induction p as [a | R c k IH | R s k IH]; intros w; simpl; try reflexivity.
  destruct (effect s w) as [r w']. apply IH.
Qed.

(** A run is the event loop's turns one after the other. *)
Lemma run_resume {A R} (c : Call R) (k : R -> Prog A) os i w :
  run (Await c k) os i w =
  run (fst (resume (os i) (Await c k) w)) os (S i)
      (snd (resume (os i) (Await c k) w)).
Proof.
  simpl. destruct (complete c (os i) w) as [r w'].
  symmetry. apply run_advance.
Qed.

Lemma count_cons f ob l :
  count f (ob :: l) = ((if f ob then 1 else 0) + count f l)%nat.
Proof. unfold count; simpl. destruct (f ob); reflexivity. Qed.

End RunFacts.


#[local] Existing Instance sample_platform.

(** ** The retrying fetch *)

Ltac count_log :=
  unfold api_calls, delays, delays_of in *; cbn [log] in *;
  rewrite ?count_cons in *;
  cbn [is_get_data is_timeout is_timeout_of is_plain_stock_insert] in *.

Section Fetch.
Context {P : Platform}.

(** One attempt whose reply fails it: a call to the provider and nothing
    else that is counted. *)
Lemma attempt_fails ticker os i w :
  fails_attempt (o_api (os i)) = true ->
  exists e w',
    run (attempt ticker) os i w = (Throw e, w', S i) /\
    api_calls w' = S (api_calls w) /\
    delays w' = delays w /\
    (forall ms, delays_of ms w' = delays_of ms w) /\
    counters w' = counters w /\
    store w' = store w.
Proof.
  intros Hf. unfold attempt. simpl. unfold complete. simpl.
  destruct (o_api (os i)) as [data | e]; simpl in Hf |- *.
  - apply andb_true_iff in Hf. destruct Hf as [Hn Ho].
    apply negb_true_iff in Hn, Ho. rewrite Hn, Ho. simpl.
    eexists _, _. split; [reflexivity |].
    count_log. repeat split; reflexivity.
  - eexists _, _. split; [reflexivity |].
    count_log. repeat split; reflexivity.
Qed.

(** The loop when every reply fails its attempt: the attempts left are all
    made, with a wait of [delay] after each but the last. *)
Lemma attempts_all_fail ticker maxRetries delay os :
  (forall j, fails_attempt (o_api (os j)) = true) ->
  forall fuel n i w,
    (n + fuel = maxRetries + 1)%nat ->
    exists w' i',
      run (attempts ticker maxRetries delay fuel n) os i w = (Ok Null, w', i') /\
      api_calls w' = (api_calls w + fuel)%nat /\
      delays w' = (delays w + (fuel - 1))%nat /\
      delays_of delay w' = (delays_of delay w + (fuel - 1))%nat /\
      counters w' = incr NoRankingStocks (incr FailedRetrievals (counters w)) /\
      store w' = store w.
Proof.
  intros Herr fuel.
  induction fuel as [| fuel IH]; intros n i w Hn.
  - eexists _, _. simpl. split; [reflexivity |].
    count_log. repeat split; try reflexivity; lia.
  - cbn [attempts].
    assert (Hle : (n <=? maxRetries)%nat = true) by (apply Nat.leb_le; lia).
    rewrite Hle. rewrite run_bind.
    destruct (@attempt_fails ticker os i w (Herr i))
      as (e & w1 & Hrun1 & Ha1 & Hd1 & Hf1 & Hc1 & Hs1).
    rewrite Hrun1. simpl.
    destruct (n <? maxRetries)%nat eqn:Hlt.
    + apply Nat.ltb_lt in Hlt. simpl. unfold complete; simpl.
      match goal with |- context [run _ os ?j ?w2] =>
        destruct (IH (S n) j w2 ltac:(lia)) as (w' & i' & Hrun & Ha & Hd & Hf & Hc & Hs)
      end.
      exists w', i'. split; [exact Hrun |]. clear IH Hrun Hrun1.
      specialize (Hf1 delay).
      count_log. rewrite Z.eqb_refl in Hf. cbn [counters store] in *.
      repeat split; try lia; congruence.
    + apply Nat.ltb_ge in Hlt. simpl.
      match goal with |- context [run _ os ?j ?w2] =>
        destruct (IH (S n) j w2 ltac:(lia)) as (w' & i' & Hrun & Ha & Hd & Hf & Hc & Hs)
      end.
      exists w', i'. split; [exact Hrun |]. clear IH Hrun Hrun1.
      specialize (Hf1 delay).
      count_log. cbn [counters store] in *.
      assert (fuel = 0)%nat by lia. subst fuel.
      repeat split; try lia; congruence.
Qed.



End Fetch.


Section Classification.
Context {P : Platform}.

(** C5.  When the provider answers [null] at an attempt, [getDataWithRetry]
    returns at once from that attempt, whichever it is: no further call to
    the provider, no wait, the row counted in [noRankingStocks] and not in
    [failedRetrievals].  In particular at the first attempt. *)
Theorem null_response_is_terminal ticker maxRetries delay os i w fuel n :
  (n <= maxRetries)%nat ->
  o_api (os i) = Ok Null ->
  exists w',
    run (attempts ticker maxRetries delay (S fuel) n) os i w = (Ok Null, w', S i) /\
    api_calls w' = S (api_calls w) /\
    delays w' = delays w /\
    counters w' = incr NoRankingStocks (counters w) /\
    failedRetrievals (counters w') = failedRetrievals (counters w) /\
    ((1 <= maxRetries)%nat ->
     run (getDataWithRetry ticker maxRetries delay) os i w = (Ok Null, w', S i)).
Proof.
  intros Hn Hnull.
  assert (Hle : (n <=? maxRetries)%nat = true) by (apply Nat.leb_le; lia).
  eexists. split; [| split; [| split; [| split; [| split]]]].
  - cbn [attempts]. rewrite Hle. unfold attempt. simpl. unfold complete. simpl.
    rewrite Hnull. simpl. reflexivity.
  - count_log. reflexivity.
  - count_log. reflexivity.
  - reflexivity.
  - reflexivity.
  - intros Hm. unfold getDataWithRetry.
    destruct maxRetries as [| m]; [lia |].
    cbn [attempts]. replace (1 <=? S m)%nat with true by (symmetry; apply Nat.leb_le; lia).
    unfold attempt. simpl. unfold complete. simpl.
    rewrite Hnull. simpl. reflexivity.
Qed.

End Classification.

Lemma null_response_is_terminal_witness :
  exists w',
    run (attempts "ZZZ" 3 1000 2 2)
        (fun _ => answers (Ok Null)) 7 initial_world = (Ok Null, w', 8%nat) /\
    api_calls w' = 1%nat /\ delays w' = 0%nat /\
    noRankingStocks (counters w') = 1%nat /\
    failedRetrievals (counters w') = 0%nat.
Proof.
  destruct (@null_response_is_terminal sample_platform "ZZZ" 3 1000
              (fun _ => answers (Ok Null)) 7 initial_world 1 2 ltac:(lia) eq_refl)
    as (w' & Hrun & Ha & Hd & Hc & Hf & _).
  exists w'. rewrite Hf, Hc. repeat split; assumption.
Defined.

(** ** The checks on a payload *)

Lemma lookup_assign_same key x fields :
  lookup key (assign key x fields) = x.
Proof.
  induction fields as [| [k v] rest IH]; simpl.
  - rewrite String.eqb_refl. reflexivity.
  - destruct (String.eqb k key) eqn:E; simpl; rewrite E; auto.
Qed.

Lemma lookup_assign_other key key' x fields :
  key' <> key ->
  lookup key' (assign key x fields) = lookup key' fields.
Proof.
  intros Hne.
  induction fields as [| [k v] rest IH]; simpl.
  - destruct (String.eqb key key') eqn:E; [| reflexivity].
    apply String.eqb_eq in E. congruence.
  - destruct (String.eqb k key) eqn:E; simpl.
    + apply String.eqb_eq in E. subst k.
      destruct (String.eqb key key') eqn:E'; [| reflexivity].
      apply String.eqb_eq in E'. congruence.
    + destruct (String.eqb k key'); auto.
Qed.

(** A payload that passes the checks is a record. *)
Lemma passes_checks_record data :
  passes_checks data = true -> exists fields, data = Obj fields.
Proof.
  unfold passes_checks. destruct data; simpl; try discriminate.
  intros _. eexists; reflexivity.
Qed.

Section Validation.
Context {P : Platform}.

(** What [normalizeUpdatedAt] returns and that it touches nothing that is
    counted. *)
Lemma normalizeUpdatedAt_run ticker data os i w :
  exists w',
    run (normalizeUpdatedAt ticker data) os i w =
      (set data "updatedAt"
         (DateObj (Some (normalized_time (get data "updatedAt") (clock w)))), w', i) /\
    counters w' = counters w /\ store w' = store w /\ clock w' = clock w /\
    api_calls w' = api_calls w /\ delays w' = delays w.
Proof.
  unfold normalizeUpdatedAt, normalized_time.
  destruct (get data "updatedAt") as [| | b | x | s | [t |] | fs]; simpl;
    try (eexists; split; [reflexivity |]; count_log; repeat split; reflexivity).
  destruct (Date_parse s); simpl;
    eexists; (split; [reflexivity |]); count_log; repeat split; reflexivity.
Qed.

(** C6.  A payload that passes the checks of [getDataWithRetry] is returned
    by the attempt that received it, with [updatedAt] replaced by a valid
    Date: the parsed value when the field is a string the engine parses or a
    valid Date, the time of the clock otherwise (a string or Date that does
    not parse, a missing field).  The field never makes the fetch reject the
    payload, nor the guard of [saveZacksRanking] afterwards; the other two
    fields are left as they were. *)
Theorem observedAt_normalization ticker maxRetries delay os i w fuel n data :
  (n <= maxRetries)%nat ->
  o_api (os i) = Ok data ->
  passes_checks data = true ->
  let updatedAt := get data "updatedAt" in
  let now := o_now (os i) in
  let t := match updatedAt with
           | Str s => match Date_parse s with Some t => t | None => now end
           | DateObj (Some t) => t
           | _ => now
           end in
  let data' := set data "updatedAt" (DateObj (Some t)) in
  exists w',
    run (attempts ticker maxRetries delay (S fuel) n) os i w = (Ok data', w', S i) /\
    counters w' = counters w /\
    api_calls w' = S (api_calls w) /\ delays w' = delays w /\
    get data' "updatedAt" = DateObj (Some t) /\
    get data' "zacksRank" = get data "zacksRank" /\
    get data' "zacksRankText" = get data "zacksRankText" /\
    truthy data' = true /\
    invalid_for_save data' =
      (negb (truthy (get data "zacksRankText")) || isNaN (get data "zacksRank")).
Proof.
  intros Hn Hapi Hpass updatedAt now t data'.
  assert (Hle : (n <=? maxRetries)%nat = true) by (apply Nat.leb_le; lia).
  destruct (passes_checks_record data Hpass) as [fields ->].
  unfold passes_checks in Hpass. simpl in Hpass.
  apply andb_true_iff in Hpass. destruct Hpass as [Hrank Htext].
  apply negb_true_iff in Hrank, Htext.
  assert (Hget : get data' "updatedAt" = DateObj (Some t))
    by (apply lookup_assign_same).
  assert (Hr : get data' "zacksRank" = get (Obj fields) "zacksRank")
    by (apply lookup_assign_other; discriminate).
  assert (Ht : get data' "zacksRankText" = get (Obj fields) "zacksRankText")
    by (apply lookup_assign_other; discriminate).
  cbn [attempts]. rewrite Hle. rewrite run_bind.
  unfold attempt. cbn [bind await run]. unfold complete at 1.
  cbn [answer]. rewrite Hapi. cbn [strict_null typeof_object negb].
  cbn [get]. rewrite Hrank, Htext. cbn [orb].
  rewrite run_bind.
  match goal with |- context [run (normalizeUpdatedAt ?tk ?d) ?os ?j ?w1] =>
    destruct (normalizeUpdatedAt_run tk d os j w1)
      as (w' & Hrun & Hc & Hs & Hk & Ha & Hd)
  end.
  rewrite Hrun. cbn [run ret].
  exists w'. split; [reflexivity |].
  split; [exact Hc |]. split; [rewrite Ha; count_log; reflexivity |].
  split; [rewrite Hd; count_log; reflexivity |].
  split; [exact Hget |]. split; [exact Hr |]. split; [exact Ht |].
  split; [reflexivity |].
  unfold invalid_for_save. rewrite Hget, Hr, Ht.
  cbn [get]. rewrite Hrank. cbn [loose_null orb]. rewrite !orb_false_r.
  reflexivity.
Qed.

End Validation.

Lemma observedAt_normalization_witness :
  exists w',
    run (attempts "AAPL" 3 1000 3 1)
        (fun _ => answers (Ok (Obj [("zacksRankText", Str "Buy");
                                      ("zacksRank", Number (Num 1));
                                      ("updatedAt", Str "yesterday")])))
        0 initial_world =
      (Ok (Obj [("zacksRankText", Str "Buy"); ("zacksRank", Number (Num 1));
                ("updatedAt", DateObj (Some 42))]), w', 1%nat) /\
    counters w' = zero_counters.
Proof.
  destruct (@observedAt_normalization sample_platform "AAPL" 3 1000
              (fun _ => answers (Ok (Obj [("zacksRankText", Str "Buy");
                                            ("zacksRank", Number (Num 1));
                                            ("updatedAt", Str "yesterday")])))
              0 initial_world 2 1 _ ltac:(lia) eq_refl eq_refl)
    as (w' & Hrun & Hc & _).
  exists w'. split; [exact Hrun | exact Hc].
Defined.

Section Malformed.
Context {P : Platform}.

Lemma always_malformed_fail os : always_malformed os ->
  forall j, fails_attempt (o_api (os j)) = true.
Proof.
  intros H j. destruct (H j) as (data & He & Hn & Ho).
  rewrite He. simpl. rewrite Hn, Ho. reflexivity.
Qed.

(** C7, as the program has it.  A payload that is neither [null] nor of type
    "object" makes its attempt throw "Invalid data received from API" into
    the retry handler, as a rejection of the call does; when every attempt
    ends so, [getDataWithRetry] has called the provider [maxRetries] times
    and waited [maxRetries - 1] times, and counts the row once in
    [failedRetrievals] and once in [noRankingStocks]. *)
Theorem malformed_payload_is_retried ticker maxRetries delay os i w :
  always_malformed os ->
  (exists w1,
     run (attempt ticker) os i w = (Throw ExnInvalidData, w1, S i) /\
     counters w1 = counters w) /\
  exists w' i',
    run (getDataWithRetry ticker maxRetries delay) os i w = (Ok Null, w', i') /\
    api_calls w' = (api_calls w + maxRetries)%nat /\
    delays w' = (delays w + (maxRetries - 1))%nat /\
    delays_of delay w' = (delays_of delay w + (maxRetries - 1))%nat /\
    counters w' = incr NoRankingStocks (incr FailedRetrievals (counters w)).
Proof.
  intros Hbad. split.
  - destruct (Hbad i) as (data & He & Hn & Ho).
    unfold attempt. simpl. unfold complete. simpl. rewrite He, Hn, Ho. simpl.
    eexists. split; reflexivity.
  - destruct (@attempts_all_fail _ ticker maxRetries delay os (always_malformed_fail Hbad)
                maxRetries 1%nat i w ltac:(lia))
      as (w' & i' & Hrun & Ha & Hd & Hf & Hc & _).
    exists w', i'. unfold getDataWithRetry. repeat split; assumption.
Qed.

End Malformed.

Lemma malformed_payload_is_retried_witness :
  always_malformed (fun _ => answers (Ok (Str "Service Unavailable"))) /\
  exists w' i',
    run (getDataWithRetry "ZZZ" 3 1000)
        (fun _ => answers (Ok (Str "Service Unavailable"))) 0 initial_world =
      (Ok Null, w', i') /\
    api_calls w' = 3%nat /\ delays w' = 2%nat /\
    failedRetrievals (counters w') = 1%nat /\
    noRankingStocks (counters w') = 1%nat.
Proof.
  assert (H : always_malformed (fun _ => answers (Ok (Str "Service Unavailable"))))
    by (intro j; eexists; repeat split; reflexivity).
  split; [exact H |].
  destruct (@malformed_payload_is_retried sample_platform "ZZZ" 3 1000 _ 0
              initial_world H)
    as (_ & w' & i' & Hrun & Ha & Hd & _ & Hc).
  exists w', i'. rewrite Hc. repeat split; assumption.
Defined.

(** C7, as it is worded, fails: a string answered on every call is fetched
    three times, not once. *)
Lemma malformed_rejected_at_once_fails : ~ malformed_rejected_at_once.
Proof.
  intros H.
  destruct (H sample_platform "ZZZ" 3%nat 1000
              (fun _ => answers (Ok (Str "Service Unavailable"))) 0%nat
              initial_world (Str "Service Unavailable")
              ltac:(lia) eq_refl eq_refl eq_refl)
    as (w' & Hrun & _).
  vm_compute in Hrun. discriminate Hrun.
Qed.

(** ** The ranking writer *)

Section Writer.
Context {P : Platform}.

Lemma saveZacksRanking_run sid data ts os i w :
  validated data ts ->
  Sql.references_stock sid (store w) = true ->
  all_fault_free os ->
  exists w',
    run (saveZacksRanking sid data) os i w = (Ok tt, w', (i + 4)%nat) /\
    stocks (store w') = stocks (store w) /\
    if existsb (Sql.has_key sid (Some ts)) (rankings (store w))
    then
      rankings (store w') =
        map (Sql.overwrite sid (Some ts) (get data "zacksRankText") (get data "zacksRank"))
            (rankings (store w)) /\
      counters w' = incr SuccessfulSaves (incr TotalUpdates (counters w)) /\
      In (ObsPrint (LogUpdatedRanking sid (DateObj (Some ts)))) (log w')
    else
      rankings (store w') =
        (rankings (store w) ++
         [Sql.new_ranking (rankings_seq (store w) + 1) sid (get data "zacksRankText")
            (get data "zacksRank") (Some ts)])%list /\
      counters w' = incr SuccessfulSaves (incr TotalInserts (counters w)) /\
      In (ObsPrint (LogInsertedRanking sid (DateObj (Some ts)))) (log w').
Proof.
  intros [Hvalid Hts] Hfk Hff.
  unfold saveZacksRanking. rewrite Hvalid, Hts.
  repeat (progress (unfold complete; simpl; rewrite ?Hff, ?Hfk)).
  destruct (existsb (Sql.has_key sid (Some ts)) (rankings (store w))) eqn:Hex.
  - repeat (progress (unfold complete; simpl; rewrite ?Hff, ?Hfk)).
    eexists. split; [f_equal; lia |]. simpl. repeat split; try reflexivity. tauto.
  - repeat (progress (unfold complete; simpl; rewrite ?Hff, ?Hfk)).
    eexists. split; [f_equal; lia |]. simpl. repeat split; try reflexivity. tauto.
Qed.

Lemma has_key_overwrite sid ts text rank sid' ts' r :
  Sql.has_key sid' ts' (Sql.overwrite sid ts text rank r) = Sql.has_key sid' ts' r.
Proof.
  unfold Sql.overwrite. destruct (Sql.has_key sid ts r); reflexivity.
Qed.

Lemma observations_overwrite sid ts text rank rows :
  filter (Sql.has_key sid ts) (map (Sql.overwrite sid ts text rank) rows) =
  map (Sql.overwrite sid ts text rank) (filter (Sql.has_key sid ts) rows).
Proof.
  induction rows as [| r rows IH]; simpl; [reflexivity |].
  rewrite has_key_overwrite.
  destruct (Sql.has_key sid ts r); simpl; rewrite IH; reflexivity.
Qed.

Lemma existsb_filter {A} (f : A -> bool) l :
  existsb f l = negb (match filter f l with [] => true | _ => false end).
Proof.
  induction l as [| a l IH]; simpl; [reflexivity |].
  destruct (f a); simpl; [reflexivity | exact IH].
Qed.

Lemma overwrite_sets sid ts text rank r :
  Sql.has_key sid ts r = true ->
  rk_text (Sql.overwrite sid ts text rank r) = text /\
  rk_rank (Sql.overwrite sid ts text rank r) = rank.
Proof. intros H. unfold Sql.overwrite. rewrite H. split; reflexivity. Qed.

(** Two writes for one pair leave one row, with what the second wrote. *)
Lemma saveZacksRanking_twice sid d1 d2 ts os i w :
  validated d1 ts -> validated d2 ts ->
  Sql.references_stock sid (store w) = true ->
  all_fault_free os ->
  (List.length (observations sid ts (store w)) <= 1)%nat ->
  let '(_, w1, i1) := run (saveZacksRanking sid d1) os i w in
  let '(_, w2, _) := run (saveZacksRanking sid d2) os i1 w1 in
  exists r,
    observations sid ts (store w2) = [r] /\
    rk_text r = get d2 "zacksRankText" /\ rk_rank r = get d2 "zacksRank" /\
    List.length (rankings (store w2)) = List.length (rankings (store w1)) /\
    totalUpdates (counters w2) = S (totalUpdates (counters w1)).
Proof.
  intros Hv1 Hv2 Hfk Hff Huniq.
  destruct (@saveZacksRanking_run sid d1 ts os i w Hv1 Hfk Hff)
    as (w1 & Hrun1 & Hst1 & Hcase1).
  rewrite Hrun1.
  assert (Hfk1 : Sql.references_stock sid (store w1) = true)
    by (unfold Sql.references_stock in *; rewrite Hst1; exact Hfk).
  destruct (@saveZacksRanking_run sid d2 ts os (i + 4)%nat w1 Hv2 Hfk1 Hff)
    as (w2 & Hrun2 & Hst2 & Hcase2).
  rewrite Hrun2.
  assert (Hobs1 : exists r1, observations sid ts (store w1) = [r1]).
  { unfold observations in *.
    rewrite existsb_filter in Hcase1.
    destruct (filter (Sql.has_key sid (Some ts)) (rankings (store w))) as [| r0 rest] eqn:Hf;
      simpl in Hcase1; destruct Hcase1 as (Hr1 & _ & _); rewrite Hr1.
    - rewrite filter_app, Hf. simpl.
      unfold Sql.has_key at 1. simpl. rewrite !Z.eqb_refl. simpl.
      eexists; reflexivity.
    - rewrite observations_overwrite, Hf.
      destruct rest; [| simpl in Huniq; lia].
      eexists; reflexivity. }
  destruct Hobs1 as [r1 Hobs1].
  unfold observations in *.
  rewrite existsb_filter, Hobs1 in Hcase2. simpl in Hcase2.
  destruct Hcase2 as (Hr2 & Hc2 & _).
  rewrite Hr2, observations_overwrite, Hobs1. simpl.
  assert (Hk : Sql.has_key sid (Some ts) r1 = true).
  { assert (Hin : In r1 (filter (Sql.has_key sid (Some ts)) (rankings (store w1))))
      by (rewrite Hobs1; left; reflexivity).
    apply filter_In in Hin. tauto. }
  destruct (@overwrite_sets sid (Some ts) (get d2 "zacksRankText") (get d2 "zacksRank") r1 Hk)
    as [Ht Hr].
  eexists. split; [reflexivity |].
  split; [exact Ht |]. split; [exact Hr |].
  split; [apply length_map |].
  rewrite Hc2. reflexivity.
Qed.

(** X30.  [saveZacksRanking] of the program with counters, on a validated
    ranking for a stock of the store, when no round trip fails: if a row
    with the same [(stockId, observedAt)] exists,
    that row takes the new label and value in place (no row is added, the
    other rows are untouched) and the write is counted in [totalUpdates];
    otherwise one row is appended and the write is counted in
    [totalInserts]; either way it is a successful save and the outcome is
    printed.  So two writes for one pair leave exactly one row for it,
    holding what the second wrote. *)
Theorem ranking_upsert sid d1 d2 ts os i w :
  validated d1 ts -> validated d2 ts ->
  Sql.references_stock sid (store w) = true ->
  all_fault_free os ->
  (List.length (observations sid ts (store w)) <= 1)%nat ->
  let text := get d1 "zacksRankText" in
  let rank := get d1 "zacksRank" in
  (exists w1,
     run (saveZacksRanking sid d1) os i w = (Ok tt, w1, (i + 4)%nat) /\
     if existsb (Sql.has_key sid (Some ts)) (rankings (store w))
     then
       rankings (store w1) =
         map (Sql.overwrite sid (Some ts) text rank) (rankings (store w)) /\
       List.length (rankings (store w1)) = List.length (rankings (store w)) /\
       (forall r, In r (observations sid ts (store w1)) ->
                  rk_text r = text /\ rk_rank r = rank) /\
       counters w1 = incr SuccessfulSaves (incr TotalUpdates (counters w)) /\
       In (ObsPrint (LogUpdatedRanking sid (DateObj (Some ts)))) (log w1)
     else
       rankings (store w1) =
         (rankings (store w) ++
          [Sql.new_ranking (rankings_seq (store w) + 1) sid text rank (Some ts)])%list /\
       counters w1 = incr SuccessfulSaves (incr TotalInserts (counters w)) /\
       In (ObsPrint (LogInsertedRanking sid (DateObj (Some ts)))) (log w1)) /\
  (let '(_, w1, i1) := run (saveZacksRanking sid d1) os i w in
   let '(_, w2, _) := run (saveZacksRanking sid d2) os i1 w1 in
   exists r,
     observations sid ts (store w2) = [r] /\
     rk_text r = get d2 "zacksRankText" /\ rk_rank r = get d2 "zacksRank" /\
     List.length (rankings (store w2)) = List.length (rankings (store w1)) /\
     totalUpdates (counters w2) = S (totalUpdates (counters w1))).
Proof.
  intros Hv1 Hv2 Hfk Hff Huniq text rank. split.
  - destruct (@saveZacksRanking_run sid d1 ts os i w Hv1 Hfk Hff)
      as (w1 & Hrun1 & Hst1 & Hcase1).
    exists w1. split; [exact Hrun1 |].
    destruct (existsb (Sql.has_key sid (Some ts)) (rankings (store w))).
    + destruct Hcase1 as (Hr & Hc & Hl). split; [exact Hr |].
      split; [rewrite Hr; apply length_map |].
      split; [| split; [exact Hc | exact Hl]].
      intros r Hin. unfold observations in Hin.
      rewrite Hr, observations_overwrite in Hin.
      apply in_map_iff in Hin. destruct Hin as (r0 & <- & Hin0).
      apply filter_In in Hin0. apply overwrite_sets. tauto.
    + exact Hcase1.
  - exact (@saveZacksRanking_twice sid d1 d2 ts os i w Hv1 Hv2 Hfk Hff Huniq).
Qed.

End Writer.

Lemma ranking_upsert_witness :
  exists w1 w2 i1 i2 r,
    run (saveZacksRanking 1
           (Obj [("zacksRankText", Str "Buy"); ("zacksRank", Number (Num 1));
                 ("updatedAt", DateObj (Some 1704153600000))]))
        (fun _ => quiet) 0
        {| counters := zero_counters;
           store := {| stocks := [Sql.new_stock 1 "AAPL" "Apple"]; stocks_seq := 1;
                       rankings := []; rankings_seq := 0 |};
           clock := 0; log := [] |} = (Ok tt, w1, i1) /\
    run (saveZacksRanking 1
           (Obj [("zacksRankText", Str "Hold"); ("zacksRank", Number (Num 3));
                 ("updatedAt", DateObj (Some 1704153600000))]))
        (fun _ => quiet) i1 w1 = (Ok tt, w2, i2) /\
    observations 1 1704153600000 (store w2) = [r] /\
    rk_text r = Str "Hold" /\ rk_rank r = Number (Num 3).
Proof.
  pose proof (@ranking_upsert sample_platform 1
    (Obj [("zacksRankText", Str "Buy"); ("zacksRank", Number (Num 1));
          ("updatedAt", DateObj (Some 1704153600000))])
    (Obj [("zacksRankText", Str "Hold"); ("zacksRank", Number (Num 3));
          ("updatedAt", DateObj (Some 1704153600000))])
    1704153600000 (fun _ => quiet) 0%nat
    {| counters := zero_counters;
       store := {| stocks := [Sql.new_stock 1 "AAPL" "Apple"]; stocks_seq := 1;
                   rankings := []; rankings_seq := 0 |};
       clock := 0; log := [] |}
    (conj eq_refl eq_refl) (conj eq_refl eq_refl) eq_refl (fun _ => eq_refl)
    (Nat.le_0_l 1)) as [_ H].
  destruct (run (saveZacksRanking 1 _) (fun _ => quiet) 0 _) as [[r1 w1] i1] eqn:E1 in H.
  destruct (run (saveZacksRanking 1 _) (fun _ => quiet) i1 w1) as [[r2 w2] i2] eqn:E2 in H.
  destruct H as (r & Hobs & Ht & Hr & _).
  exists w1, w2, i1, i2, r.
  vm_compute in E1. injection E1 as <- <- <-.
  vm_compute in E2. injection E2 as <- <- <-.
  repeat split; assumption.
Defined.

(** ** The stock resolver *)

Section Resolver.
Context {P : Platform}.

Lemma getOrCreateStockId_unfold ticker name :
  getOrCreateStockId ticker name =
  (await Connect ;;! at_begin ticker name).
Proof. reflexivity. Qed.

Lemma resume_connect ticker name o w :
  resume o (getOrCreateStockId ticker name) w =
  (match o_fail o with Some e => Ret (Throw e) | None => at_begin ticker name end,
   snd (complete Connect o w)).
Proof.
  unfold getOrCreateStockId, resume; simpl. unfold complete; simpl.
  destruct (o_fail o); reflexivity.
Qed.

Lemma resume_begin ticker name o w :
  resume o (at_begin ticker name) w =
  (match o_fail o with Some e => at_rollback ticker e | None => at_select ticker name end,
   snd (complete (ClientQuery Begin) o w)).
Proof.
  unfold at_begin, resume; simpl. unfold complete; simpl.
  destruct (o_fail o); reflexivity.
Qed.

Lemma resume_select ticker name o w :
  resume o (at_select ticker name) w =
  (match o_fail o with
   | Some e => at_rollback ticker e
   | None =>
       match Sql.select_stock_ids ticker (store w) with
       | [] => at_insert ticker name
       | res => at_commit ticker res
       end
   end,
   snd (complete (ClientQuery (SelectStockId ticker)) o w)).
Proof.
  unfold at_select, resume; simpl. unfold complete; simpl.
  destruct (o_fail o); [reflexivity |]. simpl.
  destruct (Sql.select_stock_ids ticker (store w)); reflexivity.
Qed.

Lemma resume_insert ticker name o w :
  resume o (at_insert ticker name) w =
  (match o_fail o with
   | Some e => at_rollback ticker e
   | None =>
       match fst (Sql.exec (UpsertStock ticker name) (store w)) with
       | Ok res => at_commit ticker res
       | Throw e => at_rollback ticker e
       end
   end,
   snd (complete (ClientQuery (UpsertStock ticker name)) o w)).
Proof.
  unfold at_insert, resume; simpl. unfold complete; simpl.
  destruct (o_fail o); [reflexivity |]. simpl.
  destruct (existsb (Sql.has_ticker ticker) (stocks (store w))); reflexivity.
Qed.

Lemma resume_commit ticker res o w :
  exists w',
    resume o (at_commit ticker res) w =
    (match o_fail o with
     | Some e => at_rollback ticker e
     | None =>
         match res with
         | id :: _ => Ret (Ok id)
         | [] => at_rollback ticker ExnType
         end
     end, w') /\
    store w' = store w.
Proof.
  unfold at_commit, resume; simpl. unfold complete; simpl.
  destruct (o_fail o); [eexists; split; reflexivity |]. simpl.
  destruct res; eexists; split; reflexivity.
Qed.

Lemma resume_rollback ticker error o w :
  exists w',
    resume o (at_rollback ticker error) w =
    (Ret (Throw (match o_fail o with Some e => e | None => error end)), w') /\
    store w' = store w.
Proof.
  unfold at_rollback, resume; simpl. unfold complete; simpl.
  destruct (o_fail o); eexists; split; reflexivity.
Qed.

Lemma store_complete {R} (c : Call R) o w :
  store (snd (complete c o w)) = snd (answer c o (store w)).
Proof. unfold complete. destruct (answer c o (store w)); reflexivity. Qed.

(** The states of a call are closed under the turns of the event loop. *)
Lemma resolver_state_resume ticker name p o w :
  resolver_state ticker name p ->
  resolver_state ticker name (fst (resume o p w)).
Proof.
  intros [| | | | res | e | r].
  - rewrite resume_connect. simpl. destruct (o_fail o); constructor.
  - rewrite resume_begin. simpl. destruct (o_fail o); constructor.
  - rewrite resume_select. simpl. destruct (o_fail o); [constructor |].
    destruct (Sql.select_stock_ids ticker (store w)); constructor.
  - rewrite resume_insert. cbn [fst]. destruct (o_fail o); [constructor |].
    destruct (fst (Sql.exec (UpsertStock ticker name) (store w))); constructor.
  - destruct (resume_commit ticker res o w) as (w' & -> & _). simpl.
    destruct (o_fail o); [constructor |]. destruct res; constructor.
  - destruct (resume_rollback ticker e o w) as (w' & -> & _). constructor.
  - simpl. constructor.
Qed.

(** Only the reply to the insert changes the store. *)
Lemma resolver_store_frame ticker name p o w :
  resolver_state ticker name p ->
  awaits_insert p = false ->
  store (snd (resume o p w)) = store w.
Proof.
  intros [| | | | res | e | r] Hno.
  - rewrite resume_connect. cbn [snd]. rewrite store_complete. cbn [answer].
    destruct (o_fail o); reflexivity.
  - rewrite resume_begin. cbn [snd]. rewrite store_complete. cbn [answer].
    destruct (o_fail o); reflexivity.
  - rewrite resume_select. cbn [snd]. rewrite store_complete. cbn [answer].
    destruct (o_fail o); reflexivity.
  - discriminate Hno.
  - destruct (resume_commit ticker res o w) as (w' & -> & Hs). exact Hs.
  - destruct (resume_rollback ticker e o w) as (w' & -> & Hs). exact Hs.
  - reflexivity.
Qed.

(** The insert is awaited only after a lookup that found no row. *)
Lemma resolver_insert_after_miss ticker name p o w :
  resolver_state ticker name p ->
  awaits_insert (fst (resume o p w)) = true ->
  awaits_insert p = false ->
  awaits_lookup p = true /\
  Sql.select_stock_ids ticker (store w) = [] /\ o_fail o = None.
Proof.
  intros [| | | | res | e | r] Hnext Hnow.
  - rewrite resume_connect in Hnext. simpl in Hnext.
    destruct (o_fail o); discriminate Hnext.
  - rewrite resume_begin in Hnext. simpl in Hnext.
    destruct (o_fail o); discriminate Hnext.
  - rewrite resume_select in Hnext. simpl in Hnext.
    destruct (o_fail o); [discriminate Hnext |].
    destruct (Sql.select_stock_ids ticker (store w)); [| discriminate Hnext].
    repeat split; reflexivity.
  - discriminate Hnow.
  - destruct (resume_commit ticker res o w) as (w' & Hr & _).
    rewrite Hr in Hnext. simpl in Hnext.
    destruct (o_fail o); [discriminate Hnext |]. destruct res; discriminate Hnext.
  - destruct (resume_rollback ticker e o w) as (w' & Hr & _).
    rewrite Hr in Hnext. discriminate Hnext.
  - discriminate Hnext.
Qed.

Lemma getOrCreateStockId_found ticker name os i w id rest :
  all_fault_free os ->
  Sql.select_stock_ids ticker (store w) = id :: rest ->
  exists w',
    run (getOrCreateStockId ticker name) os i w = (Ok id, w', (i + 4)%nat) /\
    store w' = store w.
Proof.
  intros Hff Hsel.
  unfold getOrCreateStockId.
  repeat (progress (unfold complete; simpl; rewrite ?Hff, ?Hsel)).
  eexists. split; [f_equal; lia | reflexivity].
Qed.

(** C10.  [getOrCreateStockId(ticker, name)] when the lookup finds a row for
    the ticker: it returns the id of that row and leaves the store as it was,
    the name in it included and no row created; this holds for the call run
    on its own and turn by turn under any interleaving.  A turn of the call
    changes the store only when it is the reply to the INSERT, the INSERT is
    awaited only after a lookup that found no row, and on a ticker that is
    there by then (the conflict) it sets the name of its row to the one
    supplied and adds no row. *)
Theorem resolve_existing_keeps_name ticker name :
  (forall os i w id rest,
     all_fault_free os ->
     Sql.select_stock_ids ticker (store w) = id :: rest ->
     exists w',
       run (getOrCreateStockId ticker name) os i w = (Ok id, w', (i + 4)%nat) /\
       store w' = store w) /\
  (forall o w id rest,
     o_fail o = None ->
     Sql.select_stock_ids ticker (store w) = id :: rest ->
     fst (resume o (at_select ticker name) w) = at_commit ticker (id :: rest) /\
     forall o' w', o_fail o' = None ->
       fst (resume o' (at_commit ticker (id :: rest)) w') = Ret (Ok id) /\
       store (snd (resume o' (at_commit ticker (id :: rest)) w')) = store w') /\
  (forall p o w,
     resolver_state ticker name p ->
     resolver_state ticker name (fst (resume o p w)) /\
     (awaits_insert p = false -> store (snd (resume o p w)) = store w) /\
     (awaits_insert (fst (resume o p w)) = true -> awaits_insert p = false ->
      awaits_lookup p = true /\
      Sql.select_stock_ids ticker (store w) = [] /\ o_fail o = None)) /\
  (forall o w,
     o_fail o = None ->
     existsb (Sql.has_ticker ticker) (stocks (store w)) = true ->
     let w' := snd (resume o (at_insert ticker name) w) in
     stocks (store w') = map (Sql.rename ticker name) (stocks (store w)) /\
     List.length (stocks (store w')) = List.length (stocks (store w)) /\
     map stock_id (stocks (store w')) = map stock_id (stocks (store w))).
Proof.
  split; [| split; [| split]].
  - intros os i w id rest. apply getOrCreateStockId_found.
  - intros o w id rest Ho Hsel. split.
    + rewrite resume_select, Ho, Hsel. reflexivity.
    + intros o' w' Ho'.
      destruct (resume_commit ticker (id :: rest) o' w') as (w2 & Hr & Hs).
      rewrite Hr, Ho'. split; [reflexivity | exact Hs].
  - intros p o w Hp. split; [| split].
    + apply resolver_state_resume; assumption.
    + apply (resolver_store_frame o w Hp).
    + apply (resolver_insert_after_miss o w Hp).
  - intros o w Ho Hex w'. subst w'.
    rewrite resume_insert. cbn [snd]. rewrite store_complete.
    cbn [answer]. rewrite Ho. cbn [Sql.exec]. rewrite Hex. cbn [snd Sql.with_stocks stocks].
    split; [reflexivity |]. split; [apply length_map |].
    rewrite map_map. apply map_ext. intros r. unfold Sql.rename.
    destruct (Sql.has_ticker ticker r); reflexivity.
Qed.

End Resolver.

(** A ticker the store knows: the call returns its id, and the name stored
    stays, whatever name is supplied. *)
Example getOrCreateStockId_existing :
  let st := {| stocks := [Sql.new_stock 7 "MSFT" "Microsoft"; Sql.new_stock 9 "AAPL" "Apple"];
               stocks_seq := 9; rankings := []; rankings_seq := 0 |} in
  let w := {| counters := zero_counters; store := st; clock := 0; log := [] |} in
  let '(r, w', i) := run (getOrCreateStockId "AAPL" "Apple Inc.") (fun _ => quiet) 0 w in
  r = Ok 9 /\ store w' = st /\ i = 4%nat.
Proof. vm_compute. repeat split; reflexivity. Qed.

(** ** Concurrent calls of the resolver *)

Lemma replace_nth_length {A} i (x : A) l :
  List.length (replace_nth i x l) = List.length l.
Proof.
  revert i; induction l as [| y l IH]; intros [| i]; simpl; auto.
Qed.

Lemma Forall_replace_nth {A} (Q : A -> Prop) i x l :
  Forall Q l -> Q x -> Forall Q (replace_nth i x l).
Proof.
  intros Hl Hx. revert i.
  induction Hl as [| y l Hy Hl IH]; intros [| i]; simpl; auto.
Qed.



Ltac split_pair H :=
  let H1 := fresh in
  let H2 := fresh in
  pose proof (f_equal fst H) as H1; pose proof (f_equal snd H) as H2;
  cbn [fst snd] in H1, H2; clear H; subst.

Section Race.
Context {P : Platform}.

Lemma select_ids_exists t st :
  existsb (Sql.has_ticker t) (stocks st) = true <-> Sql.select_stock_ids t st <> [].
Proof.
  unfold Sql.select_stock_ids. rewrite existsb_filter.
  destruct (filter (Sql.has_ticker t) (stocks st)); simpl; split;
    intros H; try discriminate; try congruence; reflexivity.
Qed.

Lemma has_ticker_rename t n t' r :
  Sql.has_ticker t' (Sql.rename t n r) = Sql.has_ticker t' r.
Proof. unfold Sql.rename. destruct (Sql.has_ticker t r); reflexivity. Qed.

Lemma select_ids_rename t n t' st seq :
  Sql.select_stock_ids t' (Sql.with_stocks st (map (Sql.rename t n) (stocks st)) seq) =
  Sql.select_stock_ids t' st.
Proof.
  unfold Sql.select_stock_ids. simpl.
  induction (stocks st) as [| r rows IH]; simpl; [reflexivity |].
  rewrite has_ticker_rename.
  destruct (Sql.has_ticker t' r); simpl; rewrite IH; [| reflexivity].
  f_equal. unfold Sql.rename. destruct (Sql.has_ticker t r); reflexivity.
Qed.

(** The upsert keeps the ids of a ticker that is there, and gives a ticker
    that is not its one row. *)
Lemma upsert_select t n st :
  fst (Sql.exec (UpsertStock t n) st) =
    Ok (Sql.select_stock_ids t (snd (Sql.exec (UpsertStock t n) st))) /\
  (Sql.select_stock_ids t st <> [] ->
   Sql.select_stock_ids t (snd (Sql.exec (UpsertStock t n) st)) =
   Sql.select_stock_ids t st) /\
  (Sql.select_stock_ids t st = [] ->
   Sql.select_stock_ids t (snd (Sql.exec (UpsertStock t n) st)) = [stocks_seq st + 1]).
Proof.
  cbn [Sql.exec].
  destruct (existsb (Sql.has_ticker t) (stocks st)) eqn:Hex; cbn [fst snd].
  - rewrite select_ids_rename. split; [reflexivity |]. split; [reflexivity |].
    intros Hnil. apply select_ids_exists in Hex. contradiction.
  - assert (Hnil : Sql.select_stock_ids t st = []).
    { destruct (Sql.select_stock_ids t st) eqn:E; [reflexivity |].
      assert (Hne : Sql.select_stock_ids t st <> []) by (rewrite E; discriminate).
      apply select_ids_exists in Hne. congruence. }
    assert (Hnew : Sql.select_stock_ids t
                     (Sql.with_stocks st (stocks st ++ [Sql.new_stock (stocks_seq st + 1) t n])
                        (stocks_seq st + 1)) = [stocks_seq st + 1]).
    { unfold Sql.select_stock_ids in *. cbn [Sql.with_stocks stocks].
      rewrite filter_app, map_app, Hnil. cbn.
      unfold Sql.has_ticker. cbn. rewrite String.eqb_refl. reflexivity. }
    rewrite Hnew. split; [reflexivity |]. split; [| reflexivity].
    intros Hne. contradiction.
Qed.

(** No turn of the resolver sends a plain INSERT. *)
Lemma resolver_no_plain_insert ticker name p o w :
  resolver_state ticker name p ->
  plain_inserts (snd (resume o p w)) = plain_inserts w.
Proof.
  unfold plain_inserts.
  intros [| | | | res | e | r].
  - unfold getOrCreateStockId, resume; simpl. unfold complete; simpl.
    destruct (o_fail o); cbn [snd]; count_log; reflexivity.
  - unfold at_begin, resume; simpl. unfold complete; simpl.
    destruct (o_fail o); cbn [snd]; count_log; reflexivity.
  - unfold at_select, resume; simpl. unfold complete; simpl.
    destruct (o_fail o); simpl;
      [| destruct (Sql.select_stock_ids ticker (store w))];
      cbn [snd]; count_log; reflexivity.
  - unfold at_insert, resume; simpl. unfold complete; simpl.
    destruct (o_fail o); simpl;
      [| destruct (existsb (Sql.has_ticker ticker) (stocks (store w)))];
      cbn [snd]; count_log; reflexivity.
  - unfold at_commit, resume; simpl. unfold complete; simpl.
    destruct (o_fail o); simpl; [| destruct res];
      cbn [snd]; count_log; reflexivity.
  - unfold at_rollback, resume; simpl. unfold complete; simpl.
    destruct (o_fail o); cbn [snd]; count_log; reflexivity.
  - reflexivity.
Qed.

Lemma task_ok_resolver_state ticker st p :
  task_ok ticker st p -> exists name, resolver_state ticker name p.
Proof.
  intros [(n & [-> | [-> | [-> | ->]]]) | (id & [-> | ->] & _)];
    try (exists n; constructor); exists ticker; constructor.
Qed.

(** A fault-free turn of one call keeps the pool's invariant. *)
Lemma pool_turn_invariant ticker (ps : list (Async Z)) w i o :
  o_fail o = None ->
  ticker_unique ticker (store w) ->
  Forall (task_ok ticker (store w)) ps ->
  let '(ps', w') := pool_turn (ps, w) (i, o) in
  ticker_unique ticker (store w') /\
  Forall (task_ok ticker (store w')) ps' /\
  List.length ps' = List.length ps /\
  plain_inserts w' = plain_inserts w.
Proof.
  intros Ho Huniq Hall. unfold pool_turn. cbv beta iota.
  match goal with |- context [@nth_error ?T ps i] =>
    destruct (@nth_error T ps i) as [p |] eqn:Hnth; [| repeat split; auto]
  end.
  assert (Hp : task_ok ticker (store w) p)
    by (eapply Forall_forall; [exact Hall | eapply nth_error_In; exact Hnth]).
  match goal with |- context [@resume ?Pf ?T o p w] =>
    destruct (@resume Pf T o p w) as [p' w'] eqn:Hres
  end.
  assert (Hlog : plain_inserts w' = plain_inserts w).
  { destruct (task_ok_resolver_state Hp) as [n Hrs].
    pose proof (resolver_no_plain_insert o w Hrs) as H. rewrite Hres in H. exact H. }
  assert (Hframe : store w' = store w ->
            task_ok ticker (store w') p' ->
            ticker_unique ticker (store w') /\
            Forall (task_ok ticker (store w')) (replace_nth i p' ps)).
  { intros Hs Hp'. rewrite Hs in *. split; [exact Huniq |].
    apply Forall_replace_nth; assumption. }
  destruct Hp as [(n & [-> | [-> | [-> | ->]]]) | (id & [-> | ->] & Hsel)].
  - rewrite resume_connect, Ho in Hres. split_pair Hres.
    destruct Hframe as [H1 H2].
    + rewrite store_complete. reflexivity.
    + left. exists n. tauto.
    + rewrite replace_nth_length. auto.
  - rewrite resume_begin, Ho in Hres. split_pair Hres.
    destruct Hframe as [H1 H2].
    + rewrite store_complete. cbn [answer]. rewrite Ho. reflexivity.
    + left. exists n. tauto.
    + rewrite replace_nth_length. auto.
  - rewrite resume_select, Ho in Hres. split_pair Hres.
    destruct Hframe as [H1 H2].
    + rewrite store_complete. cbn [answer]. rewrite Ho. reflexivity.
    + rewrite store_complete. cbn [answer]. rewrite Ho. cbn [Sql.exec snd].
      destruct (Sql.select_stock_ids ticker (store w)) as [| id rest] eqn:Hsel.
      * left. exists n. tauto.
      * right. unfold ticker_unique in Huniq. rewrite Hsel in Huniq.
        destruct rest; [| simpl in Huniq; lia].
        exists id. split; [left; reflexivity | exact Hsel].
    + rewrite replace_nth_length. auto.
  - rewrite resume_insert, Ho in Hres. split_pair Hres.
    rewrite replace_nth_length.
    destruct (upsert_select ticker n (store w)) as (Hfst & Hkeep & Hnew).
    rewrite store_complete. cbn [answer]. rewrite Ho. rewrite Hfst.
    set (st' := snd (Sql.exec (UpsertStock ticker n) (store w))) in *.
    assert (Hone : exists id, Sql.select_stock_ids ticker st' = [id] /\
              forall id0, Sql.select_stock_ids ticker (store w) = [id0] -> id0 = id).
    { destruct (Sql.select_stock_ids ticker (store w)) as [| id rest] eqn:Hsel.
      - rewrite (Hnew eq_refl). eexists. split; [reflexivity |]. discriminate.
      - rewrite Hkeep by discriminate.
        unfold ticker_unique in Huniq. rewrite Hsel in Huniq.
        destruct rest; [| simpl in Huniq; lia].
        exists id. split; [reflexivity |]. congruence. }
    destruct Hone as (id & Hsel' & Hsame).
    split; [unfold ticker_unique; rewrite Hsel'; simpl; lia |].
    split; [| auto].
    apply Forall_replace_nth.
    + eapply Forall_impl; [| exact Hall].
      intros q [Hq | (id0 & Hq & Hsel0)]; [left; exact Hq |].
      right. exists id0. split; [exact Hq |].
      rewrite (Hsame id0 Hsel0). exact Hsel'.
    + right. exists id. rewrite Hsel'. split; [left; reflexivity | reflexivity].
  - destruct (resume_commit ticker [id] o w) as (w2 & Hr & Hs).
    rewrite Hr, Ho in Hres. split_pair Hres.
    destruct (Hframe Hs) as [H1 H2].
    + right. exists id. rewrite Hs. tauto.
    + rewrite replace_nth_length. auto.
  - simpl in Hres. split_pair Hres.
    destruct (Hframe eq_refl) as [H1 H2].
    + right. exists id. tauto.
    + rewrite replace_nth_length. auto.
Qed.

Lemma pool_turn_invariant_proj ticker (ps : list (Async Z)) w t :
  o_fail (snd t) = None ->
  ticker_unique ticker (store w) ->
  Forall (task_ok ticker (store w)) ps ->
  ticker_unique ticker (store (snd (pool_turn (ps, w) t))) /\
  Forall (task_ok ticker (store (snd (pool_turn (ps, w) t)))) (fst (pool_turn (ps, w) t)) /\
  List.length (fst (pool_turn (ps, w) t)) = List.length ps /\
  plain_inserts (snd (pool_turn (ps, w) t)) = plain_inserts w.
Proof.
  destruct t as [i o]. intros Ho Huniq Hall.
  pose proof (@pool_turn_invariant ticker ps w i o Ho Huniq Hall) as H.
  destruct (pool_turn (ps, w) (i, o)); exact H.
Qed.

Lemma pool_run_invariant ticker sched :
  schedule_fault_free sched ->
  forall (ps : list (Async Z)) w,
    ticker_unique ticker (store w) ->
    Forall (task_ok ticker (store w)) ps ->
    ticker_unique ticker (store (snd (pool_run ps w sched))) /\
    Forall (task_ok ticker (store (snd (pool_run ps w sched)))) (fst (pool_run ps w sched)) /\
    List.length (fst (pool_run ps w sched)) = List.length ps /\
    plain_inserts (snd (pool_run ps w sched)) = plain_inserts w.
Proof.
  unfold pool_run.
  induction 1 as [| t sched Ho Hsched IH]; intros ps w Huniq Hall.
  - simpl. auto.
  - cbn [fold_left].
    destruct (@pool_turn_invariant_proj ticker ps w t Ho Huniq Hall) as (Hu1 & Ha1 & Hl1 & Hp1).
    match goal with |- context [fold_left _ _ ?x] =>
      change x with (pool_turn (ps, w) t) in *
    end.
    destruct (pool_turn (ps, w) t) as [ps1 w1]. cbn [fst snd] in *.
    destruct (IH ps1 w1 Hu1 Ha1) as (Hu & Ha & Hl & Hp).
    split; [exact Hu | split; [exact Ha | split]].
    + etransitivity; [exact Hl | exact Hl1].
    + etransitivity; [exact Hp | exact Hp1].
Qed.

(** X3.  Any number of concurrent calls of [getOrCreateStockId] for a ticker the
    store has not seen, under any interleaving of their turns in which no
    round trip fails: the ticker never has more than one row, no call sends
    a plain INSERT, and every call that has returned has returned the id of
    the one row of the ticker. *)
Theorem concurrent_resolves_one_row ticker names w sched :
  Sql.select_stock_ids ticker (store w) = [] ->
  schedule_fault_free sched ->
  let '(ps', w') := pool_run (map (getOrCreateStockId ticker) names) w sched in
  ticker_unique ticker (store w') /\
  List.length ps' = List.length names /\
  plain_inserts w' = plain_inserts w /\
  forall p r, In p ps' -> p = Ret r ->
    exists id, r = Ok id /\ Sql.select_stock_ids ticker (store w') = [id].
Proof.
  intros Hnew Hsched.
  assert (Huniq : ticker_unique ticker (store w))
    by (unfold ticker_unique; rewrite Hnew; simpl; lia).
  assert (Hall : Forall (task_ok ticker (store w)) (map (getOrCreateStockId ticker) names)).
  { apply Forall_forall. intros p Hin. apply in_map_iff in Hin.
    destruct Hin as (n & <- & _). left. exists n. tauto. }
  destruct (@pool_run_invariant ticker sched Hsched _ w Huniq Hall) as (Hu & Ha & Hl & Hp).
  destruct (pool_run (map (getOrCreateStockId ticker) names) w sched) as [ps' w'].
  cbn [fst snd] in *.
  rewrite length_map in Hl.
  repeat split; auto.
  intros p r Hin ->.
  pose proof (proj1 (Forall_forall _ _) Ha _ Hin) as Hok.
  destruct Hok as [(n & [H | [H | [H | H]]]) | (id & [H | H] & Hsel)];
    try discriminate H.
  injection H as ->. exists id. split; [reflexivity | exact Hsel].
Qed.

End Race.

(** Two calls for one unseen ticker whose lookups both come before either
    insert: the later program settles the conflict in the INSERT, both calls
    return the id of the one row, and the row carries the name of the call
    that inserted last. *)
Example getOrCreateStockId_race :
  let sched := [(0, quiet); (0, quiet); (0, quiet); (1, quiet); (1, quiet); (1, quiet);
                (0, quiet); (1, quiet); (0, quiet); (1, quiet)]%nat in
  let '(ps, w) :=
    pool_run [getOrCreateStockId "AAPL" "Apple"; getOrCreateStockId "AAPL" "Apple Inc."]
             initial_world sched in
  ps = [Ret (Ok 1); Ret (Ok 1)] /\
  stocks (store w) = [Sql.new_stock 1 "AAPL" "Apple Inc."] /\
  plain_inserts w = 0%nat.
Proof. vm_compute. repeat split; reflexivity. Qed.

(** C1 on [getStockId] of [index.js].  Two calls for one unseen ticker whose
    lookups both come before either insert: both find no row and both send
    the plain INSERT; the second violates the UNIQUE constraint on [ticker]
    and its call rejects with SQLSTATE 23505.  One row exists, but by the
    constraint turning the second call away, not by an insert that settles
    the conflict. *)
Theorem getStockId_check_then_insert_race :
  let sched := [(0, quiet); (1, quiet); (0, quiet); (1, quiet)]%nat in
  let '(ps, w) :=
    pool_run [IndexJs.getStockId "AAPL" "Apple"; IndexJs.getStockId "AAPL" "Apple"]
             initial_world sched in
  ps = [Ret (Ok 1); Ret (Throw (ExnDb unique_violation))] /\
  stocks (store w) = [Sql.new_stock 1 "AAPL" "Apple"] /\
  plain_inserts w = 2%nat.
Proof. vm_compute. repeat split; reflexivity. Qed.

(** One after the other the two calls of [getStockId] agree. *)
Example getStockId_in_sequence :
  let sched := [(0, quiet); (0, quiet); (1, quiet)]%nat in
  let '(ps, w) :=
    pool_run [IndexJs.getStockId "AAPL" "Apple"; IndexJs.getStockId "AAPL" "Apple"]
             initial_world sched in
  ps = [Ret (Ok 1); Ret (Ok 1)] /\
  stocks (store w) = [Sql.new_stock 1 "AAPL" "Apple"].
Proof. vm_compute. repeat split; reflexivity. Qed.

(** ** What a unit of work can do *)

Lemma fulfils_try_catch {A} (p : Async A) h :
  (forall e, fulfils (h e)) -> fulfils (try_catch p h).
Proof.
  intros Hh. unfold try_catch.
  induction p as [[a | e] | R c k IH | R s k IH]; simpl.
  - constructor.
  - apply Hh.
  - constructor. exact IH.
  - constructor. exact IH.
Qed.

Lemma prints_only_bind {A B} Q (p : Prog A) (f : A -> Prog B) :
  prints_only Q p -> (forall a, prints_only Q (f a)) -> prints_only Q (bind p f).
Proof.
  intros Hp Hf.
  induction Hp; simpl; try (constructor; auto).
  apply Hf.
Qed.

Ltac prints_step :=
  first
    [ apply po_ret
    | apply po_await; intro
    | apply po_print; [reflexivity | intro]
    | apply po_tick; intro
    | apply po_now; intro
    | apply po_release; intro
    | match goal with
      | |- prints_only _ (match ?x with _ => _ end) => destruct x
      end
    | progress unfold first_row, ret, throw
    | apply prints_only_bind; [| intro] ].

Section Units.
Context {P : Platform}.

Lemma rowUnit_try_catch row :
  rowUnit row = try_catch (row_try row) (row_catch row).
Proof. reflexivity. Qed.


Lemma fulfils_advance {A} (p : Async A) w :
  fulfils p -> fulfils (fst (advance p w)).
Proof.
  intros H. revert w.
  induction H as [a | R c k Hk IH | R s k Hk IH]; intros w; simpl.
  - constructor.
  - constructor. exact Hk.
  - destruct (effect s w) as [r w']. apply IH.
Qed.

Lemma fulfils_resume {A} (p : Async A) o w :
  fulfils p -> fulfils (fst (resume o p w)).
Proof.
  intros H. destruct H as [a | R c k Hk | R s k Hk]; simpl.
  - constructor.
  - destruct (complete c o w) as [r w']. apply fulfils_advance. apply Hk.
  - constructor. exact Hk.
Qed.



End Units.

(** ** The run *)

Lemma prints_only_advance {A} Q (p : Prog A) w :
  prints_only Q p ->
  prints_only Q (fst (advance p w)) /\
  forall l, ~ Q l ->
    (In (ObsPrint l) (log (snd (advance p w))) <-> In (ObsPrint l) (log w)).
Proof.
  intros H. revert w.
  induction H as [a | R c k Hk IH | l k Hl Hk IH | c k Hk IH | k Hk IH | k Hk IH];
    intros w; simpl.
  - split; [constructor | tauto].
  - split; [constructor; exact Hk | tauto].
  - destruct (IH tt (say l w)) as [H1 H2].
    split; [exact H1 |].
    intros l' Hl'. rewrite (H2 l' Hl'). simpl.
    split; [intros [E | E]; [injection E as <-; contradiction | exact E] | tauto].
  - destruct (IH tt {| counters := incr c (counters w); store := store w;
                       clock := clock w; log := log w |}) as [H1 H2].
    split; [exact H1 | exact H2].
  - apply IH.
  - destruct (IH tt {| counters := counters w; store := store w; clock := clock w;
                       log := ObsRelease :: log w |}) as [H1 H2].
    split; [exact H1 |].
    intros l' Hl'. rewrite (H2 l' Hl'). simpl.
    split; [intros [E | E]; [discriminate E | exact E] | tauto].
Qed.

Section RunOfUnits.
Context {P : Platform}.

Lemma prints_only_resume {A} Q (p : Prog A) o w :
  prints_only Q p ->
  prints_only Q (fst (resume o p w)) /\
  forall l, ~ Q l ->
    (In (ObsPrint l) (log (snd (resume o p w))) <-> In (ObsPrint l) (log w)).
Proof.
  intros H.
  destruct H as [a | R c k Hk | l k Hl Hk | c k Hk | k Hk | k Hk]; simpl;
    try (split; [constructor; auto | tauto]).
  unfold complete. destruct (answer c o (store w)) as [r st].
  match goal with |- context [advance (k r) ?w1] =>
    destruct (prints_only_advance w1 (Hk r)) as [H1 H2]
  end.
  split; [exact H1 |].
  intros l' Hl'. rewrite (H2 l' Hl'). simpl.
  split; [intros [E | E]; [destruct c; discriminate E | exact E] | tauto].
Qed.


Lemma promise_all_never_rejects ps e :
  Forall fulfils ps -> promise_all ps <> Some (Throw e).
Proof.
  induction 1 as [| p ps Hp Hps IH]; simpl; [discriminate |].
  destruct Hp as [a | R c k Hk | R s k Hk].
  - exact IH.
  - destruct (promise_all ps) as [[u | e'] |]; congruence.
  - destruct (promise_all ps) as [[u | e'] |]; congruence.
Qed.

Lemma promise_all_fulfilled ps u :
  promise_all ps = Some (Ok u) -> Forall settled ps.
Proof.
  induction ps as [| p ps IH]; simpl; [constructor |].
  destruct p as [[a | e] | R c k | R s k]; intros H.
  - constructor; [eexists; reflexivity | auto].
  - discriminate H.
  - destruct (promise_all ps) as [[u' | e'] |]; discriminate H.
  - destruct (promise_all ps) as [[u' | e'] |]; discriminate H.
Qed.



(** A program that prints lines of a row only adds no line of the run. *)
Lemma run_lines_advance {A} (p : Prog A) w :
  prints_only row_line p ->
  run_lines (log (snd (advance p w))) = run_lines (log w).
Proof.
  intros H. revert w.
  induction H as [a | R c k Hk IH | l k Hl Hk IH | c k Hk IH | k Hk IH | k Hk IH];
    intros w; cbn [advance snd effect]; try reflexivity; rewrite IH; cbn [log run_lines].
  - unfold row_line in Hl. rewrite Hl. reflexivity.
  - reflexivity.
  - reflexivity.
  - reflexivity.
Qed.

Lemma run_lines_resume {A} (p : Prog A) o w :
  prints_only row_line p ->
  run_lines (log (snd (resume o p w))) = run_lines (log w).
Proof.
  intros H.
  destruct H as [a | R c k Hk | l k Hl Hk | c k Hk | k Hk | k Hk];
    cbn [resume snd]; try reflexivity.
  unfold complete. destruct (answer c o (store w)) as [r st].
  rewrite (run_lines_advance _ (Hk r)). cbn [log run_lines].
  destruct c; reflexivity.
Qed.







Lemma steps_snoc s evs ev : steps s (evs ++ [ev]) = step (steps s evs) ev.
Proof. unfold steps. rewrite fold_left_app. reflexivity. Qed.


Lemma pending_wake_settle s :
  pendingPromises (wake_main (settle s)) = pendingPromises s.
Proof.
  unfold wake_main, settle.
  destruct s as [w m st ps c]. cbn [main stream csv world pendingPromises].
  destruct c as [[u | e] |], st, m; cbn; try reflexivity;
    destruct (promise_all ps) as [[u' | e'] |]; reflexivity.
Qed.


(** An error that escapes the row's pipeline is caught by the unit's [catch]
    and counted; the unit returns either way. *)
Lemma rowUnit_catches row os i w :
  let '(r, w1, i1) := run (row_try row) os i w in
  match r with
  | Ok _ => run (rowUnit row) os i w = (Ok tt, w1, i1)
  | Throw e =>
      exists w2,
        run (rowUnit row) os i w = (Ok tt, w2, i1) /\
        counters w2 = incr NoRankingStocks (incr FailedProcessing (counters w1)) /\
        log w2 = ObsPrint (ErrProcessingTicker (row_ticker row) e) :: log w1
  end.
Proof.
  rewrite rowUnit_try_catch. unfold try_catch. rewrite run_bind.
  destruct (run (row_try row) os i w) as [[[[] | e] w1] i1].
  - reflexivity.
  - eexists. split; [reflexivity |]. split; reflexivity.
Qed.






End RunOfUnits.



(** The file stream raises its error while a row is on its way: the process
    dies with status 1, the promise of [processCSV()] still pending, the row
    counted as processed and nothing printed; what completes later finds no
    process. *)
Example source_error_run :
  let s := steps (boot empty_store)
             [EvMain quiet;
              EvStream (StreamData {| row_ticker := "AAPL"; row_name := "Apple" |});
              EvStream (SourceError (ExnStream 0));
              EvUnit 0 (answers (Ok Null)); EvMain quiet] in
  main s = MainExited 1 /\ csv s = None /\
  totalProcessed (counters (world s)) = 1%nat /\
  log (world s) = [].
Proof. vm_compute. repeat split; reflexivity. Qed.

(** [pool.end()] rejects: the rejection is printed by the handler on
    [main()], the counters are not, and the status is 0. *)
Example pool_end_failure_run :
  let s := steps (boot empty_store)
             [EvMain quiet; EvStream StreamEnd; EvMain (breaks ExnConnect)] in
  main s = MainExited 0 /\ csv s = Some (Ok tt) /\
  log (world s) =
    [ObsPrint LogProgramCompleted; ObsPrint (ErrMain ExnConnect);
     ObsPrint LogCsvCompleted].
Proof. vm_compute. repeat split; reflexivity. Qed.

(** A failed [setup()]: the rejection of [main()] is printed, no counters are,
    and the status is 0. *)
Example setup_failure_run :
  let s := steps (boot empty_store) [EvMain (breaks ExnSetup)] in
  main s = MainExited 0 /\ stream s = Unopened /\
  log (world s) = [ObsPrint LogProgramCompleted; ObsPrint (ErrMain ExnSetup)].
Proof. vm_compute. repeat split; reflexivity. Qed.

(** An error of the row stream while a unit is in flight: [main] prints it,
    closes the pool and prints the counters as they stand; the status is 0. *)
Example stream_error_run :
  let s := steps (boot empty_store)
             [EvMain quiet;
              EvStream (StreamData {| row_ticker := "AAPL"; row_name := "Apple" |});
              EvStream (StreamError (ExnStream 0));
              EvMain quiet] in
  main s = MainExited 0 /\ stream s = Errored /\
  csv s = Some (Throw (ExnStream 0)) /\
  totalProcessed (counters (world s)) = 1%nat /\
  promise_all (pendingPromises s) = None /\
  In (ObsPrint (ErrProcessingCsv (ExnStream 0))) (log (world s)).
Proof. vm_compute. repeat split; try reflexivity. tauto. Qed.

(** Two rows, the store refusing the write of the first: the second is saved
    all the same and the run completes. *)
Example failing_row_spares_its_sibling :
  let s := steps (boot empty_store)
             [EvMain quiet;
              EvStream (StreamData {| row_ticker := "AAPL"; row_name := "Apple" |});
              EvStream (StreamData {| row_ticker := "MSFT"; row_name := "Microsoft" |});
              EvStream StreamEnd;
              EvUnit 0 (answers (Ok sample_payload)); EvUnit 1 (answers (Ok sample_payload));
              EvUnit 0 quiet; EvUnit 0 quiet; EvUnit 0 quiet; EvUnit 0 quiet; EvUnit 0 quiet;
              EvUnit 0 quiet; EvUnit 0 quiet; EvUnit 0 (breaks (ExnDb "57014")); EvUnit 0 quiet;
              EvUnit 1 quiet; EvUnit 1 quiet; EvUnit 1 quiet; EvUnit 1 quiet; EvUnit 1 quiet;
              EvUnit 1 quiet; EvUnit 1 quiet; EvUnit 1 quiet; EvUnit 1 quiet] in
  main s = MainPoolEnd /\ csv s = Some (Ok tt) /\
  pendingPromises s = [Ret (Ok tt); Ret (Ok tt)] /\
  successfulSaves (counters (world s)) = 1%nat /\
  failedProcessing (counters (world s)) = 1%nat /\
  List.length (rankings (store (world s))) = 1%nat.
Proof. vm_compute. repeat split; reflexivity. Qed.

(** C3 on a run in which the store refuses the write of its one row (the
    INSERT of [saveZacksRanking] fails, ROLLBACK succeeds): the [catch] of
    [saveZacksRanking] counts the row in [failedSaves] and in
    [noRankingStocks] and rethrows, and the [catch] of the unit counts it in
    [noRankingStocks] again.  One row processed, three on the other side. *)
Theorem counters_after_store_failure :
  let s := steps (boot empty_store) store_failure_run in
  let k := counters (world s) in
  main s = MainExited 0 /\ csv s = Some (Ok tt) /\
  totalProcessed k = 1%nat /\
  successfulSaves k = 0%nat /\ failedSaves k = 1%nat /\ noRankingStocks k = 2%nat /\
  totalProcessed k <> (successfulSaves k + failedSaves k + noRankingStocks k)%nat.
Proof. vm_compute. repeat split; try reflexivity. discriminate. Qed.

(** ** The counters of a run *)

Lemma measure_incr wt c k : measure wt (incr c k) = measure wt k + wt c.
Proof.
  unfold measure, incr. destruct c; cbn [totalProcessed successfulSaves failedRetrievals
    failedSaves noRankingStocks totalInserts totalUpdates failedProcessing];
    rewrite Nat2Z.inj_succ; lia.
Qed.

Lemma tally_bind {A B} wt (p : Prog A) (f : A -> Prog B) Q acc :
  tally wt p (fun a acc' => tally wt (f a) Q acc') acc ->
  tally wt (bind p f) Q acc.
Proof.
  revert acc.
  induction p as [a | R c k IH | R s k IH]; intros acc H; cbn [bind tally] in *.
  - exact H.
  - intros r. apply IH. apply H.
  - destruct s; try (intros r; apply IH; apply H).
    apply IH. exact H.
Qed.

Lemma tally_weaken {A} wt (p : Prog A) (Q Q' : A -> Z -> Prop) acc :
  (forall a z, Q a z -> Q' a z) -> tally wt p Q acc -> tally wt p Q' acc.
Proof.
  intros HQ. revert acc.
  induction p as [a | R c k IH | R s k IH]; intros acc H; cbn [tally] in *.
  - apply HQ. exact H.
  - intros r. apply IH. apply H.
  - destruct s; try (intros r; apply IH; apply H).
    apply IH. exact H.
Qed.

Section Tally.
Context {P : Platform}.
Variable wt : Counter -> Z.

Lemma tally_advance {A} (p : Prog A) Q acc w :
  tally wt p Q acc ->
  tally wt (fst (advance p w)) Q
    (acc + measure wt (counters (snd (advance p w))) - measure wt (counters w)).
Proof.
  revert acc w.
  induction p as [a | R c k IH | R s k IH]; intros acc w H; cbn [advance fst snd].
  - replace (acc + _ - _) with acc by lia. exact H.
  - replace (acc + _ - _) with acc by lia. exact H.
  - cbn [tally] in H. destruct s; cbn [effect].
    + specialize (IH tt _ {| counters := incr c (counters w); store := store w;
                             clock := clock w; log := log w |} H).
      destruct (advance (k tt) _) as [p' w']. cbn [fst snd counters] in *.
      rewrite measure_incr in IH.
      replace (acc + measure wt (counters w') - measure wt (counters w))
        with (acc + wt c + measure wt (counters w') - (measure wt (counters w) + wt c))
        by lia.
      exact IH.
    + specialize (IH tt _ {| counters := counters w; store := store w;
                             clock := clock w; log := ObsPrint l :: log w |} (H tt)).
      destruct (advance (k tt) _) as [p' w']. exact IH.
    + specialize (IH (clock w) _ w (H (clock w))).
      destruct (advance (k (clock w)) w) as [p' w']. exact IH.
    + specialize (IH tt _ {| counters := counters w; store := store w;
                             clock := clock w; log := ObsRelease :: log w |} (H tt)).
      destruct (advance (k tt) _) as [p' w']. exact IH.
Qed.

Lemma tally_resume {A} (p : Prog A) Q acc o w :
  tally wt p Q acc ->
  tally wt (fst (resume o p w)) Q
    (acc + measure wt (counters (snd (resume o p w))) - measure wt (counters w)).
Proof.
  intros H. destruct p as [a | R c k | R s k]; cbn [resume fst snd].
  - replace (acc + _ - _) with acc by lia. exact H.
  - cbn [tally] in H. unfold complete.
    destruct (answer c o (store w)) as [r st].
    match goal with |- context [advance (k r) ?w1] =>
      pose proof (@tally_advance _ (k r) Q acc w1 (H r)) as Ha
    end.
    exact Ha.
  - replace (acc + _ - _) with acc by lia. exact H.
Qed.

Ltac tally_crush :=
  repeat match goal with
    | |- forall _, _ => intro
    | |- tally _ ?p _ _ =>
        match p with
        | context [match ?x with _ => _ end] => is_var x; destruct x
        | context [first_row ?x] => is_var x; destruct x
        | context [List.length ?x] => is_var x; destruct x
        end
    | |- tally _ _ _ _ => progress cbn
    end.

(** The resolver counts nothing. *)
Lemma getOrCreateStockId_tally ticker name acc :
  tally wt (getOrCreateStockId ticker name) (fun _ z => z = acc) acc.
Proof. unfold getOrCreateStockId. tally_crush; reflexivity. Qed.

(** What the writer counts, by the way it ends. *)
Lemma saveZacksRanking_tally stockId data acc :
  tally wt (saveZacksRanking stockId data)
    (fun r z =>
       match r with
       | Ok _ =>
           z = acc + wt NoRankingStocks \/
           z = acc + wt TotalInserts + wt SuccessfulSaves \/
           z = acc + wt TotalUpdates + wt SuccessfulSaves
       | Throw _ =>
           z = acc \/ z = acc + wt FailedSaves + wt NoRankingStocks
       end) acc.
Proof.
  unfold saveZacksRanking. destruct (invalid_for_save data).
  - tally_crush. tauto.
  - tally_crush; tauto.
Qed.

Lemma truthy_set data key x :
  typeof_object data = true -> strict_null data = false ->
  truthy (set data key x) = true.
Proof. destruct data; simpl; intros; try discriminate; reflexivity. Qed.

Lemma attempt_tally ticker acc :
  tally wt (attempt ticker)
    (fun r z => match r with
                | Ok _ => fetch_post wt acc r z
                | Throw _ => z = acc
                end) acc.
Proof.
  unfold attempt, fetch_post. cbn [bind await tally]. intros [data | e].
  - destruct (strict_null data) eqn:Hn.
    + cbn. eexists. split; [reflexivity |]. left. split; [reflexivity | tauto].
    + destruct (typeof_object data) eqn:Ho; cbn [negb]; [| cbn; reflexivity].
      destruct (loose_null (get data "zacksRank") || loose_null (get data "zacksRankText")).
      * cbn. eexists. split; [reflexivity |]. left. split; [reflexivity | tauto].
      * apply tally_bind. unfold normalizeUpdatedAt.
        destruct (typeof_string (get data "updatedAt") || instanceof_Date (get data "updatedAt"));
          [destruct (new_Date (get data "updatedAt")) |];
          cbn; intros; eexists; (split; [reflexivity |]); right;
          (split; [apply truthy_set; assumption | reflexivity]).
  - cbn. reflexivity.
Qed.

Lemma attempts_tally ticker maxRetries delay fuel n acc :
  tally wt (attempts ticker maxRetries delay fuel n) (fetch_post wt acc) acc.
Proof.
  revert n. induction fuel as [| fuel IH]; intros n.
  - cbn. eexists. split; [reflexivity |]. left. split; [reflexivity | right; lia].
  - cbn [attempts]. destruct (n <=? maxRetries)%nat.
    + apply tally_bind.
      eapply tally_weaken; [| apply attempt_tally].
      intros [data | e] z H.
      * exact H.
      * subst z. cbn [bind print perform tally]. intros _.
        apply tally_bind.
        destruct (n <? maxRetries)%nat; cbn; intros; apply IH.
    + cbn. eexists. split; [reflexivity |]. left. split; [reflexivity | right; lia].
Qed.

Lemma rowUnit_tally row :
  tally wt (rowUnit row) (fun r z => r = Ok tt /\ unit_totals wt z) 0.
Proof.
  unfold rowUnit, try_catch, unit_totals.
  apply tally_bind. cbn [bind tick perform tally].
  unfold bindE. apply tally_bind.
  eapply tally_weaken; [| apply attempts_tally].
  intros r z (v & -> & [[-> Hz] | [Ht ->]]).
  - cbn. split; [reflexivity | lia].
  - rewrite Ht. apply tally_bind.
    eapply tally_weaken; [| apply getOrCreateStockId_tally].
    intros [id | e] z ->.
    + eapply tally_weaken; [| apply saveZacksRanking_tally].
      intros [[] | e] z Hz; cbn; (split; [reflexivity | lia]).
    + cbn. split; [reflexivity | lia].
Qed.

End Tally.

Lemma sum_app l1 l2 :
  fold_right Z.add 0 (l1 ++ l2) = fold_right Z.add 0 l1 + fold_right Z.add 0 l2.
Proof. induction l1 as [| x l1 IH]; simpl; lia. Qed.

Lemma Forall2_replace_nth {A B} (R : A -> B -> Prop) i x y l1 l2 :
  Forall2 R l1 l2 -> R x y -> Forall2 R (replace_nth i x l1) (replace_nth i y l2).
Proof.
  intros H Hxy. revert i.
  induction H as [| a b l1 l2 Hab H IH]; intros [| i]; simpl; constructor; auto.
Qed.

Lemma Forall2_nth_error {A B} (R : A -> B -> Prop) i x l1 l2 :
  Forall2 R l1 l2 -> nth_error l1 i = Some x ->
  exists y, nth_error l2 i = Some y /\ R x y.
Proof.
  intros H. revert i.
  induction H as [| a b l1 l2 Hab H IH]; intros [| i] Hn; simpl in *; try discriminate.
  - injection Hn as <-. eauto.
  - eauto.
Qed.

Lemma sum_replace_nth i y y' l :
  nth_error l i = Some y ->
  fold_right Z.add 0 (replace_nth i y' l) = fold_right Z.add 0 l - y + y'.
Proof.
  revert i. induction l as [| x l IH]; intros [| i] H; simpl in *; try discriminate.
  - injection H as ->. lia.
  - rewrite (IH i H). lia.
Qed.

Section Conservation.
Context {P : Platform}.
Variable wt : Counter -> Z.
Variable T : Z.
Hypothesis unit_total : forall row, tally wt (rowUnit row) (fun _ z => z = T) 0.

Lemma tallied_same s s' :
  pendingPromises s' = pendingPromises s ->
  counters (world s') = counters (world s) ->
  tallied wt T s -> tallied wt T s'.
Proof. unfold tallied. intros -> ->. auto. Qed.

Lemma wake_settle_same s :
  pendingPromises (wake_main (settle s)) = pendingPromises s /\
  counters (world (wake_main (settle s))) = counters (world s).
Proof.
  split; [apply pending_wake_settle |].
  unfold wake_main, settle.
  destruct s as [w m st ps c]. cbn [main stream csv world pendingPromises].
  destruct c as [[u | e] |], st, m; cbn; try reflexivity;
    destruct (promise_all ps) as [[u' | e'] |]; reflexivity.
Qed.

Lemma tallied_main_turn o s : tallied wt T s -> tallied wt T (main_turn o s).
Proof.
  intros H. unfold main_turn.
  destruct (main s); try exact H; try destruct (o_fail o);
    (eapply tallied_same; [| | exact H]; reflexivity).
Qed.

Lemma tallied_stream_turn e s : tallied wt T s -> tallied wt T (stream_turn e s).
Proof.
  intros H. unfold stream_turn.
  destruct (stream s); try exact H.
  destruct e as [row | | e | e];
    [| eapply tallied_same; [| | exact H]; reflexivity
     | eapply tallied_same; [| | exact H]; reflexivity
     | eapply tallied_same; [| | exact H]; reflexivity].
  destruct H as (accs & Hall & Hsum).
  pose proof (@tally_advance _ _ (rowUnit row) _ 0 (world s) (unit_total row)) as Ha.
  destruct (advance (rowUnit row) (world s)) as [p w'].
  cbn [fst snd] in Ha.
  eexists (accs ++ [_])%list. cbn [pendingPromises world]. split.
  - apply Forall2_app; [exact Hall | constructor; [exact Ha | constructor]].
  - rewrite sum_app. simpl. lia.
Qed.

Lemma tallied_unit_turn i o s : tallied wt T s -> tallied wt T (unit_turn i o s).
Proof.
  intros H. unfold unit_turn.
  destruct (nth_error (pendingPromises s) i) as [p |] eqn:Hnth; [| exact H].
  destruct H as (accs & Hall & Hsum).
  destruct (Forall2_nth_error i Hall Hnth) as (acc & Hacc & Hp).
  pose proof (@tally_resume _ _ _ p _ acc o (world s) Hp) as Hr.
  destruct (resume o p (world s)) as [p' w'].
  cbn [fst snd] in Hr.
  eexists (replace_nth i _ accs). cbn [pendingPromises world]. split.
  - apply Forall2_replace_nth; [exact Hall | exact Hr].
  - rewrite (@sum_replace_nth i acc _ accs Hacc). lia.
Qed.

Lemma tallied_step s ev : tallied wt T s -> tallied wt T (step s ev).
Proof.
  intros H. unfold step.
  assert (Hturn : tallied wt T
            match ev with
            | EvMain o => main_turn o s
            | EvStream e => stream_turn e s
            | EvUnit i o => unit_turn i o s
            end).
  { destruct ev; [apply tallied_main_turn | apply tallied_stream_turn
                  | apply tallied_unit_turn]; exact H. }
  destruct (main s); try exact H;
    (eapply tallied_same; [apply wake_settle_same | apply wake_settle_same | exact Hturn]).
Qed.

Lemma tallied_reachable st evs : tallied wt T (steps (boot st) evs).
Proof.
  induction evs as [| ev evs IH] using rev_ind.
  - exists []. split; [apply Forall2_nil |].
    unfold measure. cbn. lia.
  - rewrite steps_snoc. apply tallied_step. exact IH.
Qed.

Lemma tallied_settled s :
  tallied wt T s -> Forall settled (pendingPromises s) ->
  measure wt (counters (world s)) = T * Z.of_nat (List.length (pendingPromises s)).
Proof.
  intros (accs & Hall & ->) Hset.
  induction Hall as [| p acc ps accs Hp Hall IH]; simpl List.length.
  - simpl. lia.
  - inversion Hset as [| ? ? [a ->] Hset']; subst.
    cbn [tally] in Hp. subst acc.
    rewrite Nat2Z.inj_succ. simpl fold_right. rewrite (IH Hset'). lia.
Qed.

End Conservation.

Section CounterLaw.
Context {P : Platform}.

(** X2.  What the counters satisfy at the end of every run, when every
    unit has returned: each row is processed once, and a processed row and a
    failed save on one side weigh as much as a successful save and a row
    without ranking on the other.  The identity [totalProcessed =
    successfulSaves + failedSaves + noRankingStocks] therefore holds in the
    runs without a failed save and in no other. *)
Theorem counter_law st evs :
  let s := steps (boot st) evs in
  let k := counters (world s) in
  Forall settled (pendingPromises s) ->
  totalProcessed k = List.length (pendingPromises s) /\
  (totalProcessed k + failedSaves k = successfulSaves k + noRankingStocks k)%nat /\
  (totalProcessed k = successfulSaves k + failedSaves k + noRankingStocks k
   <-> failedSaves k = 0)%nat.
Proof.
  intros s k Hset.
  assert (Hb : forall row, tally balance (rowUnit row) (fun _ z => z = 0) 0).
  { intros row. eapply tally_weaken; [| apply rowUnit_tally].
    intros r z [_ H]. unfold unit_totals, balance in H. lia. }
  assert (Hp : forall row, tally processed (rowUnit row) (fun _ z => z = 1) 0).
  { intros row. eapply tally_weaken; [| apply rowUnit_tally].
    intros r z [_ H]. unfold unit_totals, processed in H. lia. }
  pose proof (tallied_settled (tallied_reachable Hb st evs) Hset) as H1.
  pose proof (tallied_settled (tallied_reachable Hp st evs) Hset) as H2.
  fold s in H1, H2. fold k in H1, H2.
  unfold measure, balance, processed in H1, H2.
  repeat split; try lia.
Qed.

End CounterLaw.

(** ** The constraints of the schema *)

Section Constraints.
Context {P : Platform}.

Lemma select_ids_app t st rows seq :
  Sql.select_stock_ids t (Sql.with_stocks st (stocks st ++ rows) seq) =
  (Sql.select_stock_ids t st ++ map stock_id (filter (Sql.has_ticker t) rows))%list.
Proof.
  unfold Sql.select_stock_ids. cbn [Sql.with_stocks stocks].
  rewrite filter_app, map_app. reflexivity.
Qed.

Lemma insert_keeps_tickers_unique t t' n st id :
  existsb (Sql.has_ticker t') (stocks st) = false ->
  ticker_unique t st ->
  ticker_unique t (Sql.with_stocks st (stocks st ++ [Sql.new_stock id t' n]) id).
Proof.
  unfold ticker_unique. intros Hex Hu.
  rewrite select_ids_app. rewrite length_app. cbn [filter].
  unfold Sql.has_ticker at 1. cbn [stock_ticker Sql.new_stock].
  destruct (String.eqb t' t) eqn:E; cbn [map List.length]; [| lia].
  apply String.eqb_eq in E. subst t'.
  assert (Hnil : Sql.select_stock_ids t st = []).
  { destruct (Sql.select_stock_ids t st) eqn:Hs; [reflexivity |].
    assert (Hne : Sql.select_stock_ids t st <> []) by (rewrite Hs; discriminate).
    apply select_ids_exists in Hne. congruence. }
  rewrite Hnil. simpl. lia.
Qed.

Lemma has_key_new sid ts sid' ts' id text rank :
  Sql.has_key sid (Some ts) (Sql.new_ranking id sid' text rank ts') = true ->
  sid' = sid /\ ts' = Some ts.
Proof.
  unfold Sql.has_key. cbn. destruct ts' as [t' |]; [| rewrite andb_false_r; discriminate].
  intros H. apply andb_true_iff in H. destruct H as [H1 H2].
  apply Z.eqb_eq in H1, H2. subst. split; reflexivity.
Qed.

Lemma observations_nil_of_no_conflict sid ts rows :
  existsb (Sql.has_key sid (Some ts)) rows = false ->
  filter (Sql.has_key sid (Some ts)) rows = [].
Proof.
  rewrite existsb_filter.
  destruct (filter (Sql.has_key sid (Some ts)) rows); [reflexivity | discriminate].
Qed.

Lemma append_keeps_keys_unique sid ts sid' ts' id text rank st :
  existsb (Sql.has_key sid' ts') (rankings st) = false ->
  (List.length (observations sid ts st) <= 1)%nat ->
  (List.length
     (observations sid ts
        (Sql.with_rankings st (rankings st ++ [Sql.new_ranking id sid' text rank ts']) id))
   <= 1)%nat.
Proof.
  unfold observations. cbn [Sql.with_rankings rankings]. intros Hex Hu.
  rewrite filter_app, length_app. cbn [filter].
  destruct (Sql.has_key sid (Some ts) (Sql.new_ranking id sid' text rank ts')) eqn:E;
    cbn; [| lia].
  apply has_key_new in E. destruct E as [-> ->].
  rewrite (observations_nil_of_no_conflict _ _ _ Hex). simpl. lia.
Qed.

(** Every statement keeps the two constraints. *)
Lemma exec_keeps_constraints {T} (q : Query T) st :
  constraints_hold st -> constraints_hold (snd (Sql.exec q st)).
Proof.
  intros [Ht Hk].
  destruct q as [| | | t | t n | t n | sid text rank upd | sid text rank upd];
    cbn [Sql.exec snd]; try (split; assumption).
  - destruct (existsb (Sql.has_ticker t) (stocks st)) eqn:Hex; cbn [snd];
      (split; [| exact Hk]); intros t'.
    + exact (Ht t').
    + apply insert_keeps_tickers_unique; [exact Hex | exact (Ht t')].
  - destruct (existsb (Sql.has_ticker t) (stocks st)) eqn:Hex; cbn [snd];
      (split; [| exact Hk]); intros t'.
    + rewrite select_ids_rename. exact (Ht t').
    + apply insert_keeps_tickers_unique; [exact Hex | exact (Ht t')].
  - destruct (Sql.timestamp upd) as [ts |]; [| split; assumption].
    destruct (existsb (Sql.has_key sid ts) (rankings st)) eqn:Hex; cbn [snd];
      [split; assumption |].
    destruct (Sql.references_stock sid st); cbn [snd]; [| split; assumption].
    split; [exact Ht |]. intros sid' ts'.
    apply append_keeps_keys_unique; [exact Hex | exact (Hk sid' ts')].
  - destruct (Sql.timestamp upd) as [ts |]; [| split; assumption].
    destruct (existsb (Sql.has_key sid ts) (rankings st)) eqn:Hex; cbn [snd].
    + split; [exact Ht |]. intros sid' ts'. unfold observations.
      cbn [Sql.with_rankings rankings].
      assert (Hf : forall rows,
                filter (Sql.has_key sid' (Some ts')) (map (Sql.overwrite sid ts text rank) rows) =
                map (Sql.overwrite sid ts text rank) (filter (Sql.has_key sid' (Some ts')) rows)).
      { induction rows as [| r rows IH]; simpl; [reflexivity |].
        rewrite has_key_overwrite.
        destruct (Sql.has_key sid' (Some ts') r); simpl; rewrite IH; reflexivity. }
      rewrite Hf, length_map. exact (Hk sid' ts').
    + destruct (Sql.references_stock sid st); cbn [snd]; [| split; assumption].
      split; [exact Ht |]. intros sid' ts'.
      apply append_keeps_keys_unique; [exact Hex | exact (Hk sid' ts')].
Qed.

Lemma store_advance {A} (p : Prog A) w : store (snd (advance p w)) = store w.
Proof.
  revert w. induction p as [a | R c k IH | R s k IH]; intros w; simpl; try reflexivity.
  destruct s; simpl; rewrite IH; reflexivity.
Qed.

Lemma answer_keeps_constraints {R} (c : Call R) o st :
  constraints_hold st -> constraints_hold (snd (answer c o st)).
Proof.
  intros H. destruct c; cbn [answer snd]; try exact H.
  destruct (o_fail o); [exact H | apply exec_keeps_constraints; exact H].
Qed.

(** A turn of any program keeps the constraints. *)
Lemma resume_keeps_constraints {A} (p : Prog A) o w :
  constraints_hold (store w) -> constraints_hold (store (snd (resume o p w))).
Proof.
  intros H. destruct p as [a | R c k | R s k]; simpl; try exact H.
  pose proof (store_complete c o w) as Hc.
  pose proof (answer_keeps_constraints c o H) as Ha.
  destruct (complete c o w) as [r w1]. cbn [snd] in Hc.
  rewrite store_advance, Hc. exact Ha.
Qed.

Lemma constraints_empty : constraints_hold empty_store.
Proof. split; intros; simpl; lia. Qed.

Lemma turn_keeps_constraints s ev :
  constraints_hold (store (world s)) ->
  constraints_hold
    (store (world match ev with
                  | EvMain o => main_turn o s
                  | EvStream e => stream_turn e s
                  | EvUnit i o => unit_turn i o s
                  end)).
Proof.
  intros H. destruct ev as [o | e | i o].
  - unfold main_turn. destruct (main s); try destruct (o_fail o); exact H.
  - unfold stream_turn. destruct (stream s); try exact H.
    destruct e as [row | | e | e]; [| exact H | exact H | exact H].
    pose proof (store_advance (rowUnit row) (world s)) as Hs.
    destruct (advance (rowUnit row) (world s)) as [p w'].
    cbn [world snd] in *. rewrite Hs. exact H.
  - unfold unit_turn.
    destruct (nth_error (pendingPromises s) i) as [p |]; [| exact H].
    pose proof (@resume_keeps_constraints _ p o (world s) H) as Hr.
    destruct (resume o p (world s)) as [p' w']. exact Hr.
Qed.

(** X14.  Every store a run reaches satisfies the two UNIQUE constraints
    of the schema, when the store it started on did: no two rows of [stocks]
    with one ticker, no two rows of [zacks_rankings] with one stock and one
    timestamp. *)
Lemma constraints_reachable st evs :
  constraints_hold st -> constraints_hold (store (world (steps (boot st) evs))).
Proof.
  intros Hst. induction evs as [| ev evs IH] using rev_ind; [exact Hst |].
  rewrite steps_snoc. set (s := steps (boot st) evs) in *. clearbody s.
  assert (Hws : forall s', store (world (wake_main (settle s'))) = store (world s')).
  { intros [w m sm ps c]. unfold wake_main, settle.
    cbn [main stream csv world pendingPromises].
    destruct c as [[u | e] |], sm, m; cbn; try reflexivity;
      destruct (promise_all ps) as [[u' | e'] |]; reflexivity. }
  unfold step. destruct (main s); try exact IH; rewrite Hws;
    apply turn_keeps_constraints; exact IH.
Qed.

End Constraints.

(** ** The earlier program *)

Section Earlier.
Context {P : Platform}.

(** The loop of [index.js] makes the same calls: [maxRetries] attempts and
    [maxRetries - 1] waits when every call rejects, and then [null]. *)
Lemma IndexJs_attempts_always_error ticker maxRetries delay os :
  always_errors os ->
  forall fuel n i w,
    (n + fuel = maxRetries + 1)%nat ->
    exists w' i',
      run (IndexJs.attempts ticker maxRetries delay fuel n) os i w = (Ok Null, w', i') /\
      api_calls w' = (api_calls w + fuel)%nat /\
      delays w' = (delays w + (fuel - 1))%nat /\
      delays_of delay w' = (delays_of delay w + (fuel - 1))%nat /\
      counters w' = counters w.
Proof.
  intros Herr fuel.
  induction fuel as [| fuel IH]; intros n i w Hn.
  - eexists _, _. simpl. split; [reflexivity |].
    repeat split; lia.
  - cbn [IndexJs.attempts].
    assert (Hle : (n <=? maxRetries)%nat = true) by (apply Nat.leb_le; lia).
    rewrite Hle. destruct (Herr i) as [e He].
    simpl. unfold complete. simpl. rewrite He. simpl.
    destruct (n <? maxRetries)%nat eqn:Hlt.
    + apply Nat.ltb_lt in Hlt. simpl. unfold complete; simpl.
      match goal with |- context [run _ os ?j ?w1] =>
        destruct (IH (S n) j w1 ltac:(lia)) as (w' & i' & Hrun & Ha & Hd & Hf & Hc)
      end.
      exists w', i'. split; [exact Hrun |]. clear IH Hrun.
      count_log. rewrite Z.eqb_refl in Hf. cbn [counters] in *.
      repeat split; try lia; assumption.
    + apply Nat.ltb_ge in Hlt. simpl.
      match goal with |- context [run _ os ?j ?w1] =>
        destruct (IH (S n) j w1 ltac:(lia)) as (w' & i' & Hrun & Ha & Hd & Hf & Hc)
      end.
      exists w', i'. split; [exact Hrun |]. clear IH Hrun.
      count_log. cbn [counters] in *.
      assert (fuel = 0)%nat by lia. subst fuel.
      repeat split; try lia; assumption.
Qed.

(** X29.  When the provider rejects every call, [getDataWithRetry] of
    [index.js] calls it exactly [maxRetries] times, waits [delay] after each
    failed attempt but the last, and returns [null]. *)
Lemma IndexJs_fetch_retry_bound ticker maxRetries delay os i w :
  always_errors os ->
  exists w' i',
    run (IndexJs.getDataWithRetry ticker maxRetries delay) os i w = (Ok Null, w', i') /\
    api_calls w' = (api_calls w + maxRetries)%nat /\
    delays w' = (delays w + (maxRetries - 1))%nat /\
    delays_of delay w' = (delays_of delay w + (maxRetries - 1))%nat.
Proof.
  intros Herr.
  destruct (@IndexJs_attempts_always_error ticker maxRetries delay os Herr
              maxRetries 1%nat i w ltac:(lia))
    as (w' & i' & Hrun & Ha & Hd & Hf & _).
  exists w', i'. unfold IndexJs.getDataWithRetry. repeat split; assumption.
Qed.

(** The unit of [index.js] never rejects either. *)
Lemma IndexJs_rowUnit_fulfils row : fulfils (IndexJs.rowUnit row).
Proof.
  unfold IndexJs.rowUnit. apply fulfils_try_catch.
  intros e. cbn. repeat constructor.
Qed.

End Earlier.


(** A numeric [updatedAt] reaches the store of [index.js] as it comes: the
    driver sends its digits and the server casts them. *)
Example IndexJs_numeric_updatedAt_is_stored :
  let st := {| stocks := [Sql.new_stock 1 "AAPL" "Apple"]; stocks_seq := 1;
               rankings := []; rankings_seq := 0 |} in
  let w := {| counters := zero_counters; store := st; clock := 0; log := [] |} in
  let d := Obj [("zacksRankText", Str "Buy"); ("zacksRank", Number (Num 1));
                ("updatedAt", Number (Num 20240102))] in
  let '(r, w', _) := run (IndexJs.saveZacksRanking 1 d) (fun _ => quiet) 0 w in
  r = Ok tt /\
  map rk_updatedAt (rankings (store w')) = [Some 1704153600000].
Proof. vm_compute. repeat split; reflexivity. Qed.

(** What is not [null] is not terminal at first sight unless it is a record:
    an empty record is counted as a row without ranking at once, [undefined]
    is retried like an error. *)
Example empty_record_and_undefined :
  (let '(r, w, i) := run (getDataWithRetry "ZZZ" 3 1000)
                         (fun _ => answers (Ok (Obj []))) 0 initial_world in
   r = Ok Null /\ i = 1%nat /\ noRankingStocks (counters w) = 1%nat /\
   failedRetrievals (counters w) = 0%nat) /\
  (let '(r, w, i) := run (getDataWithRetry "ZZZ" 3 1000)
                         (fun _ => answers (Ok Undefined)) 0 initial_world in
   r = Ok Null /\ api_calls w = 3%nat /\ delays w = 2%nat /\
   failedRetrievals (counters w) = 1%nat).
Proof. vm_compute. repeat split; reflexivity. Qed.

(** A numeric [updatedAt] is neither a string nor a Date: the clock's time is
    taken, as for a missing field. *)
Example numeric_updatedAt_is_replaced :
  let '(r, w, i) :=
    run (getDataWithRetry "AAPL" 3 1000)
        (fun _ => answers (Ok (Obj [("zacksRankText", Str "Buy");
                                      ("zacksRank", Number (Num 1));
                                      ("updatedAt", Number (Num 1704153600000))])))
        0 initial_world in
  r = Ok (Obj [("zacksRankText", Str "Buy"); ("zacksRank", Number (Num 1));
               ("updatedAt", DateObj (Some 42))]) /\
  In (ObsPrint (WarnMissingUpdatedAt "AAPL")) (log w).
Proof. vm_compute. split; [reflexivity | tauto]. Qed.

(** ** Reasoning on every path *)

Section Paths.
Context {P : Platform}.

(** What holds on every path holds of every run. *)
Lemma wp_run {A} (p : Prog A) Q w os i :
  wp p Q w -> Q (fst (fst (run p os i w))) (snd (fst (run p os i w))).
Proof.
  revert w i.
  induction p as [a | R c k IH | R s k IH]; intros w i H; cbn [run wp] in *.
  - exact H.
  - specialize (H (os i)). destruct (complete c (os i) w) as [r w']. apply IH. exact H.
  - destruct (effect s w) as [r w']. apply IH. exact H.
Qed.

Lemma wp_bind {A B} (p : Prog A) (f : A -> Prog B) Q w :
  wp p (fun a w' => wp (f a) Q w') w -> wp (bind p f) Q w.
Proof.
  revert w.
  induction p as [a | R c k IH | R s k IH]; intros w H; cbn [bind wp] in *.
  - exact H.
  - intros o. apply IH. apply H.
  - apply IH. exact H.
Qed.

Lemma wp_weaken {A} (p : Prog A) (Q Q' : A -> World -> Prop) w :
  (forall a w', Q a w' -> Q' a w') -> wp p Q w -> wp p Q' w.
Proof.
  intros HQ. revert w.
  induction p as [a | R c k IH | R s k IH]; intros w H; cbn [wp] in *.
  - apply HQ. exact H.
  - intros o. apply IH. apply H.
  - apply IH. exact H.
Qed.

End Paths.



Ltac count_obs :=
  unfold api_calls, delays, delays_of, connects, releases, queries in *; cbn [log] in *;
  rewrite ?count_cons in *;
  cbn [is_get_data is_timeout is_timeout_of is_plain_stock_insert
       is_connect is_release is_query] in *.

(** ** What the fetch returns *)

Section FetchResult.
Context {P : Platform}.

Lemma db_untouched_refl w : db_untouched w w.
Proof. unfold db_untouched. auto. Qed.

Lemma db_untouched_trans w1 w2 w3 :
  db_untouched w1 w2 -> db_untouched w2 w3 -> db_untouched w1 w3.
Proof. unfold db_untouched. intros (? & ? & ?) (? & ? & ?). repeat split; congruence. Qed.

Lemma fetched_record_set fields ts :
  passes_checks (Obj fields) = true ->
  fetched_record (set (Obj fields) "updatedAt" (DateObj (Some ts))).
Proof.
  intros Hp. unfold fetched_record, passes_checks in *. cbn [set get] in *.
  rewrite lookup_assign_same.
  rewrite !(@lookup_assign_other "updatedAt") by discriminate.
  split; [exact Hp | eexists; reflexivity].
Qed.

Lemma normalizeUpdatedAt_wp ticker fields w :
  passes_checks (Obj fields) = true ->
  wp (normalizeUpdatedAt ticker (Obj fields))
     (fun v w' => fetched_record v /\ db_untouched w w') w.
Proof.
  intros Hp. unfold normalizeUpdatedAt.
  destruct (typeof_string (get (Obj fields) "updatedAt")
            || instanceof_Date (get (Obj fields) "updatedAt"));
    [destruct (new_Date (get (Obj fields) "updatedAt")) |];
    cbn; (split; [apply fetched_record_set; exact Hp |]);
    unfold db_untouched; count_obs; auto.
Qed.

Lemma attempt_wp ticker w :
  wp (attempt ticker)
     (fun r w' =>
        match r with
        | Ok v => v = Null \/ fetched_record v
        | Throw _ => True
        end /\ db_untouched w w') w.
Proof.
  unfold attempt. cbn [bind await wp]. intros o.
  unfold complete. cbn [answer fst snd].
  assert (Hw : db_untouched w
            {| counters := counters w; store := store w; clock := o_now o;
               log := ObsGetData ticker :: log w |})
    by (unfold db_untouched; count_obs; auto).
  destruct (o_api o) as [data | e].
  - destruct (strict_null data) eqn:Hn.
    + cbn. split; [left; reflexivity |]. unfold db_untouched; count_obs; auto.
    + destruct (typeof_object data) eqn:Ho; cbn [negb].
      2:{ cbn. split; [exact I | exact Hw]. }
      destruct (loose_null (get data "zacksRank") || loose_null (get data "zacksRankText"))
        eqn:Hl.
      * cbn. split; [left; reflexivity |]. unfold db_untouched; count_obs; auto.
      * apply orb_false_iff in Hl. destruct Hl as [Hl1 Hl2].
        assert (Hp : passes_checks data = true)
          by (unfold passes_checks; rewrite Hn, Ho, Hl1, Hl2; reflexivity).
        destruct (passes_checks_record data Hp) as [fields ->].
        apply wp_bind.
        eapply wp_weaken; [| apply normalizeUpdatedAt_wp; exact Hp].
        intros v w' [Hv Hu]. cbn. split; [right; exact Hv |].
        eapply db_untouched_trans; [exact Hw | exact Hu].
  - cbn. split; [exact I |]. unfold db_untouched; count_obs; auto.
Qed.

Lemma attempts_wp ticker maxRetries delay fuel n w :
  wp (attempts ticker maxRetries delay fuel n)
     (fun r w' => (exists v, r = Ok v /\ (v = Null \/ fetched_record v)) /\
                  db_untouched w w') w.
Proof.
  revert n w. induction fuel as [| fuel IH]; intros n w.
  - cbn. split; [eexists; split; [reflexivity | left; reflexivity] |].
    unfold db_untouched; count_obs; auto.
  - cbn [attempts]. destruct (n <=? maxRetries)%nat.
    + apply wp_bind. eapply wp_weaken; [| apply attempt_wp].
      intros [v | e] w1 [Hr Hu].
      * cbn. split; [eexists; split; [reflexivity | exact Hr] | exact Hu].
      * cbn [bind print perform wp effect fst snd].
        apply wp_bind.
        destruct (n <? maxRetries)%nat; cbn [await wp]; [intros o |];
          (eapply wp_weaken; [| apply IH]);
          intros r w2 [Hv Hu2]; (split; [exact Hv |]);
          (eapply db_untouched_trans; [exact Hu |]);
          (eapply db_untouched_trans; [| exact Hu2]);
          unfold db_untouched, complete; cbn; count_obs; auto.
    + cbn. split; [eexists; split; [reflexivity | left; reflexivity] |].
      unfold db_untouched; count_obs; auto.
Qed.

(** X6.  [getDataWithRetry] never throws, whatever the provider answers and
    however often: it returns [null], or a record whose rank and label are
    present and whose [updatedAt] is a valid Date, which the store takes as a
    timestamp.  It asks for no connection and sends no statement, and leaves
    the store as it was. *)
Theorem fetch_returns_null_or_record ticker maxRetries delay os i w :
  let '(r, w', _) := run (getDataWithRetry ticker maxRetries delay) os i w in
  (exists v, r = Ok v /\
     (v = Null \/
      (passes_checks v = true /\ truthy v = true /\
       exists ts, get v "updatedAt" = DateObj (Some ts) /\
                  Sql.timestamp (get v "updatedAt") = Some (Some ts)))) /\
  store w' = store w /\ connects w' = connects w /\ queries w' = queries w.
Proof.
  pose proof (@wp_run _ _ _ _ w os i
                (attempts_wp ticker maxRetries delay maxRetries 1 w)) as H.
  unfold getDataWithRetry.
  destruct (run (attempts ticker maxRetries delay maxRetries 1) os i w) as [[r w'] i'].
  cbn [fst snd] in H. destruct H as [(v & -> & Hv) Hu].
  split; [| exact Hu].
  exists v. split; [reflexivity |].
  destruct Hv as [-> | [Hp (ts & Hts)]]; [left; reflexivity | right].
  split; [exact Hp |]. split.
  - destruct (passes_checks_record v Hp) as [fields ->]. reflexivity.
  - exists ts. split; [exact Hts |]. rewrite Hts. reflexivity.
Qed.

End FetchResult.


Ltac wp_step :=
  match goal with
  | |- forall _, _ => intro
  | |- wp ?p _ ?w =>
      first
        [ match p with
          | context [match o_fail ?o with _ => _ end] => destruct (o_fail o)
          | context [Sql.exec ?q ?st] =>
              let r := fresh "r" in let st' := fresh "st" in
              destruct (Sql.exec q st) as [r st']
          | context [first_row ?x] => is_var x; destruct x
          | context [match ?x with Ok _ => _ | Throw _ => _ end] => is_var x; destruct x
          | context [(0 <? List.length ?x)%nat] => is_var x; destruct x
          | context [if ?b then _ else _] => is_var b; destruct b
          end
        | match w with
          | context [match o_fail ?o with _ => _ end] => destruct (o_fail o)
          | context [Sql.exec ?q ?st] =>
              let r := fresh "r" in let st' := fresh "st" in
              destruct (Sql.exec q st) as [r st']
          end
        | progress (unfold complete;
                    cbn [wp bind bindE try_catch try_finally await perform query print tick
                         ret throw first_row answer effect fst snd
                         counters store clock log obs_of_call
                         List.length Nat.ltb Nat.leb]) ]
  end.

(** ** Connections *)

Section Connections.
Context {P : Platform}.

Lemma at_begin_releases ticker name w :
  wp (at_begin ticker name)
     (fun _ w' => connects w' = connects w /\ releases w' = S (releases w) /\
                  exists rest, log w' = ObsRelease :: rest) w.
Proof.
  unfold at_begin, resolver_guard.
  repeat wp_step.
  all: repeat split; try (eexists; reflexivity); count_obs; try reflexivity.
Qed.

Lemma resolver_connection ticker name os i w :
  let '(_, w', _) := run (getOrCreateStockId ticker name) os i w in
  connects w' = S (connects w) /\
  match o_fail (os i) with
  | Some _ => releases w' = releases w /\ queries w' = queries w
  | None => releases w' = S (releases w) /\ exists rest, log w' = ObsRelease :: rest
  end.
Proof.
  rewrite getOrCreateStockId_unfold.
  cbn [run bindE bind await]. unfold complete at 1. cbn [answer].
  destruct (o_fail (os i)) as [e |].
  - cbn. count_obs. auto.
  - cbn [bind].
    match goal with |- context [run ?p os ?j ?w1] =>
      pose proof (@wp_run _ _ p _ w1 os j (at_begin_releases ticker name w1)) as H;
      destruct (run p os j w1) as [[r w'] i']
    end.
    cbn [fst snd] in H. destruct H as (Hc & Hr & Hl).
    count_obs. auto.
Qed.

Lemma writer_connection stockId data os i w :
  let '(_, w', _) := run (saveZacksRanking stockId data) os i w in
  if invalid_for_save data
  then connects w' = connects w /\ releases w' = releases w /\ queries w' = queries w
  else
    connects w' = S (connects w) /\
    match o_fail (os i) with
    | Some _ => releases w' = releases w /\ queries w' = queries w
    | None => releases w' = S (releases w) /\ exists rest, log w' = ObsRelease :: rest
    end.
Proof.
  unfold saveZacksRanking. destruct (invalid_for_save data).
  - cbn. count_obs. auto.
  - cbn [run bindE bind await]. unfold complete at 1. cbn [answer].
    destruct (o_fail (os i)) as [e |].
    + cbn. count_obs. auto.
    + cbn [bind].
      match goal with |- context [run ?p os ?j ?w1] =>
        assert (H : wp p (fun _ w' => connects w' = connects w1 /\
                            releases w' = S (releases w1) /\
                            exists rest, log w' = ObsRelease :: rest) w1);
        [| apply (@wp_run _ _ p _ w1 os j) in H;
           destruct (run p os j w1) as [[r w'] i'] ]
      end.
      * repeat wp_step.
        all: repeat split; try (eexists; reflexivity); count_obs; try reflexivity.
      * cbn [fst snd] in H. destruct H as (Hc & Hr & Hl).
        count_obs. auto.
Qed.

(** X4.  A call of [getOrCreateStockId] or of [saveZacksRanking] asks the
    pool for one client (none when the guard of [saveZacksRanking] skips the
    payload) and, when it gets it, releases it exactly once, as the last
    thing it does: whatever statement fails, the ROLLBACK included.  When the
    pool refuses the client nothing is sent and nothing is released. *)
Theorem clients_released_once ticker name stockId data os i w :
  (let '(_, w', _) := run (getOrCreateStockId ticker name) os i w in
   connects w' = S (connects w) /\
   match o_fail (os i) with
   | Some _ => releases w' = releases w /\ queries w' = queries w
   | None => releases w' = S (releases w) /\ exists rest, log w' = ObsRelease :: rest
   end) /\
  (let '(_, w', _) := run (saveZacksRanking stockId data) os i w in
   if invalid_for_save data
   then connects w' = connects w /\ releases w' = releases w /\ queries w' = queries w
   else
     connects w' = S (connects w) /\
     match o_fail (os i) with
     | Some _ => releases w' = releases w /\ queries w' = queries w
     | None => releases w' = S (releases w) /\ exists rest, log w' = ObsRelease :: rest
     end).
Proof.
  split.
  - apply resolver_connection.
  - apply writer_connection.
Qed.

End Connections.

(** ** A fetch that succeeds after failures *)

Section Recovery.
Context {P : Platform}.

Lemma normalizeUpdatedAt_delays_of ticker data os i w ms :
  delays_of ms (snd (fst (run (normalizeUpdatedAt ticker data) os i w))) = delays_of ms w.
Proof.
  unfold normalizeUpdatedAt.
  destruct (get data "updatedAt") as [| | b | x | s | [t |] | fs]; simpl;
    try (count_log; reflexivity).
  destruct (Date_parse s); simpl; count_log; reflexivity.
Qed.

(** An attempt whose reply passes the checks returns it with its date set. *)
Lemma attempt_passes ticker os i w data :
  o_api (os i) = Ok data ->
  passes_checks data = true ->
  exists w',
    run (attempt ticker) os i w =
      (Ok (set data "updatedAt"
             (DateObj (Some (normalized_time (get data "updatedAt") (o_now (os i)))))),
       w', S i) /\
    counters w' = counters w /\ store w' = store w /\
    api_calls w' = S (api_calls w) /\ delays w' = delays w /\
    (forall ms, delays_of ms w' = delays_of ms w).
Proof.
  intros Hapi Hpass.
  destruct (passes_checks_record data Hpass) as [fields ->].
  unfold passes_checks in Hpass. simpl in Hpass.
  apply andb_true_iff in Hpass. destruct Hpass as [Hrank Htext].
  apply negb_true_iff in Hrank, Htext.
  unfold attempt. cbn [bind await run]. unfold complete at 1.
  cbn [answer]. rewrite Hapi. cbn [strict_null typeof_object negb].
  cbn [get]. rewrite Hrank, Htext. cbn [orb].
  rewrite run_bind.
  match goal with |- context [run (normalizeUpdatedAt ?tk ?d) ?os ?j ?w1] =>
    destruct (normalizeUpdatedAt_run tk d os j w1)
      as (w' & Hrun & Hc & Hs & Hk & Ha & Hd)
  end.
  rewrite Hrun. cbn [run ret clock].
  exists w'. split; [reflexivity |].
  split; [exact Hc |]. split; [exact Hs |].
  split; [rewrite Ha; count_log; reflexivity |].
  split; [rewrite Hd; count_log; reflexivity |].
  intros ms.
  match type of Hrun with run _ _ _ ?w1 = _ =>
    pose proof (normalizeUpdatedAt_delays_of ticker (Obj fields) os (S i) w1 ms) as Hw
  end.
  rewrite Hrun in Hw. cbn [fst snd] in Hw. rewrite Hw.
  count_log. reflexivity.
Qed.

Lemma attempts_recover ticker maxRetries delay os data k :
  forall fuel n i w,
    (n + k <= maxRetries)%nat -> (k < fuel)%nat ->
    (forall j, (j < k)%nat -> fails_attempt (o_api (os (i + 2 * j)%nat)) = true) ->
    o_api (os (i + 2 * k)%nat) = Ok data ->
    passes_checks data = true ->
    exists w',
      run (attempts ticker maxRetries delay fuel n) os i w =
        (Ok (set data "updatedAt"
               (DateObj (Some (normalized_time (get data "updatedAt")
                                 (o_now (os (i + 2 * k)%nat)))))),
         w', S (i + 2 * k)) /\
      api_calls w' = (api_calls w + k + 1)%nat /\
      delays w' = (delays w + k)%nat /\
      delays_of delay w' = (delays_of delay w + k)%nat /\
      counters w' = counters w /\ store w' = store w.
Proof.
  induction k as [| k IH]; intros fuel n i w Hn Hfuel Hfail Hok Hpass.
  - destruct fuel as [| fuel]; [lia |].
    cbn [attempts].
    assert (Hle : (n <=? maxRetries)%nat = true) by (apply Nat.leb_le; lia).
    rewrite Hle, run_bind.
    replace (i + 2 * 0)%nat with i in * by lia.
    destruct (@attempt_passes ticker os i w data Hok Hpass)
      as (w' & Hrun & Hc & Hs & Ha & Hd & Hf).
    rewrite Hrun. cbn [run ret].
    exists w'. split; [reflexivity |].
    rewrite Ha, Hd, (Hf delay). repeat split; try lia; assumption.
  - destruct fuel as [| fuel]; [lia |].
    cbn [attempts].
    assert (Hle : (n <=? maxRetries)%nat = true) by (apply Nat.leb_le; lia).
    assert (Hlt : (n <? maxRetries)%nat = true) by (apply Nat.ltb_lt; lia).
    rewrite Hle, run_bind.
    assert (Hf0 : fails_attempt (o_api (os i)) = true).
    { specialize (Hfail 0%nat ltac:(lia)).
      replace (i + 2 * 0)%nat with i in Hfail by lia. exact Hfail. }
    destruct (@attempt_fails _ ticker os i w Hf0)
      as (e & w1 & Hrun1 & Ha1 & Hd1 & Hf1 & Hc1 & Hs1).
    rewrite Hrun1. rewrite Hlt. simpl. unfold complete; simpl.
    match goal with |- context [run _ os ?j ?w2] =>
      destruct (IH fuel (S n) j w2 ltac:(lia) ltac:(lia)) as (w' & Hrun & Ha & Hd & Hf & Hc & Hs)
    end.
    + intros j Hj. replace (S (S i) + 2 * j)%nat with (i + 2 * S j)%nat by lia.
      apply Hfail. lia.
    + replace (S (S i) + 2 * k)%nat with (i + 2 * S k)%nat by lia. exact Hok.
    + exact Hpass.
    + exists w'.
      replace (S (S i) + 2 * k)%nat with (i + 2 * S k)%nat in Hrun by lia.
      split; [exact Hrun |]. clear IH Hrun Hrun1.
      specialize (Hf1 delay).
      count_log. rewrite Z.eqb_refl in Hf. cbn [counters store] in *.
      repeat split; try lia; congruence.
Qed.

(** X7.  When the first [k] attempts fail (the call rejects, or the reply is
    no record) and attempt [k + 1], still within [maxRetries], gets a payload
    that passes the checks, [getDataWithRetry] returns that payload with its
    date set: after [k + 1] calls to the provider and [k] waits of [delay],
    and with no counter touched. *)
Theorem fetch_recovers ticker maxRetries delay os i w data k :
  (k < maxRetries)%nat ->
  (forall j, (j < k)%nat -> fails_attempt (o_api (os (i + 2 * j)%nat)) = true) ->
  o_api (os (i + 2 * k)%nat) = Ok data ->
  passes_checks data = true ->
  exists w',
    run (getDataWithRetry ticker maxRetries delay) os i w =
      (Ok (set data "updatedAt"
             (DateObj (Some (normalized_time (get data "updatedAt")
                               (o_now (os (i + 2 * k)%nat)))))),
       w', S (i + 2 * k)) /\
    api_calls w' = (api_calls w + k + 1)%nat /\
    delays w' = (delays w + k)%nat /\
    delays_of delay w' = (delays_of delay w + k)%nat /\
    counters w' = counters w /\ store w' = store w.
Proof.
  intros Hk Hfail Hok Hpass. unfold getDataWithRetry.
  apply attempts_recover; try assumption; lia.
Qed.

End Recovery.

Lemma fetch_recovers_witness :
  exists w',
    run (getDataWithRetry "AAPL" 3 1000)
        (fun j => if (j <? 4)%nat then answers (Throw (ExnApi j)) else answers (Ok sample_payload))
        0 initial_world =
      (Ok (Obj [("zacksRankText", Str "Buy"); ("zacksRank", Number (Num 1));
                ("updatedAt", DateObj (Some 1704153600000))]), w', 5%nat) /\
    api_calls w' = 3%nat /\ delays w' = 2%nat /\ counters w' = zero_counters.
Proof.
  destruct (@fetch_recovers sample_platform "AAPL" 3 1000
              (fun j => if (j <? 4)%nat then answers (Throw (ExnApi j))
                        else answers (Ok sample_payload))
              0%nat initial_world sample_payload 2%nat)
    as (w' & Hrun & Ha & Hd & _ & Hc & _).
  - lia.
  - intros j Hj. destruct j as [| [| j]]; [reflexivity | reflexivity | lia].
  - reflexivity.
  - reflexivity.
  - exists w'. split; [exact Hrun |]. repeat split; assumption.
Defined.

(** ** A row from end to end *)

Section EndToEnd.
Context {P : Platform}.

Lemma select_ids_nil_no_ticker t st :
  Sql.select_stock_ids t st = [] -> existsb (Sql.has_ticker t) (stocks st) = false.
Proof.
  intros Hnil. destruct (existsb (Sql.has_ticker t) (stocks st)) eqn:E; [| reflexivity].
  apply select_ids_exists in E. contradiction.
Qed.

(** The resolver on a ticker the store does not have, with no failure *)
Lemma getOrCreateStockId_created ticker name os i w :
  all_fault_free os ->
  Sql.select_stock_ids ticker (store w) = [] ->
  exists w',
    run (getOrCreateStockId ticker name) os i w =
      (Ok (stocks_seq (store w) + 1), w', (i + 5)%nat) /\
    store w' =
      Sql.with_stocks (store w)
        (stocks (store w) ++ [Sql.new_stock (stocks_seq (store w) + 1) ticker name])
        (stocks_seq (store w) + 1) /\
    counters w' = counters w.
Proof.
  intros Hff Hsel.
  pose proof (select_ids_nil_no_ticker _ _ Hsel) as Hex.
  unfold getOrCreateStockId.
  repeat (progress (unfold complete; simpl; rewrite ?Hff, ?Hsel, ?Hex)).
  eexists. split; [f_equal; lia |]. split; reflexivity.
Qed.

Lemma getOrCreateStockId_found_counters ticker name os i w id rest :
  all_fault_free os ->
  Sql.select_stock_ids ticker (store w) = id :: rest ->
  exists w',
    run (getOrCreateStockId ticker name) os i w = (Ok id, w', (i + 4)%nat) /\
    store w' = store w /\ counters w' = counters w.
Proof.
  intros Hff Hsel.
  unfold getOrCreateStockId.
  repeat (progress (unfold complete; simpl; rewrite ?Hff, ?Hsel)).
  eexists. split; [f_equal; lia |]. split; reflexivity.
Qed.

Lemma select_ids_in t st id :
  In id (Sql.select_stock_ids t st) -> Sql.references_stock id st = true.
Proof.
  unfold Sql.select_stock_ids, Sql.references_stock. intros Hin.
  apply in_map_iff in Hin. destruct Hin as (r & <- & Hr).
  apply filter_In in Hr. apply existsb_exists. exists r.
  split; [tauto | apply Z.eqb_refl].
Qed.

(** What a resolution without failure leaves: the id it returns is the first
    one the store has for the ticker, and a row of [stocks] carries it. *)
Lemma getOrCreateStockId_resolves ticker name os i w :
  all_fault_free os ->
  exists id w' i' rest,
    run (getOrCreateStockId ticker name) os i w = (Ok id, w', i') /\
    Sql.select_stock_ids ticker (store w') = id :: rest /\
    Sql.references_stock id (store w') = true /\
    rankings (store w') = rankings (store w) /\
    counters w' = counters w /\
    (Sql.select_stock_ids ticker (store w) <> [] -> store w' = store w) /\
    (Sql.select_stock_ids ticker (store w) = [] ->
     stocks (store w') =
       (stocks (store w) ++ [Sql.new_stock id ticker name])%list).
Proof.
  intros Hff.
  destruct (Sql.select_stock_ids ticker (store w)) as [| id rest] eqn:Hsel.
  - destruct (@getOrCreateStockId_created ticker name os i w Hff Hsel)
      as (w' & Hrun & Hst & Hc).
    exists (stocks_seq (store w) + 1), w', (i + 5)%nat, [].
    split; [exact Hrun |].
    assert (Hsel' : Sql.select_stock_ids ticker (store w') = [stocks_seq (store w) + 1]).
    { rewrite Hst. unfold Sql.select_stock_ids in *. cbn [Sql.with_stocks stocks].
      rewrite filter_app, map_app, Hsel. cbn.
      unfold Sql.has_ticker. cbn. rewrite String.eqb_refl. reflexivity. }
    split; [exact Hsel' |].
    split; [apply (@select_ids_in ticker); rewrite Hsel'; left; reflexivity |].
    split; [rewrite Hst; reflexivity |]. split; [exact Hc |].
    split; [intros H; contradiction | intros _; rewrite Hst; reflexivity].
  - destruct (@getOrCreateStockId_found_counters ticker name os i w id rest Hff Hsel)
      as (w' & Hrun & Hst & Hc).
    exists id, w', (i + 4)%nat, rest.
    split; [exact Hrun |]. rewrite Hst.
    split; [exact Hsel |].
    split; [apply (@select_ids_in ticker); rewrite Hsel; left; reflexivity |].
    split; [reflexivity |]. split; [exact Hc |].
    split; [reflexivity | discriminate].
Qed.

(** X13.  Two calls of [getOrCreateStockId] for one ticker, one after the
    other and with no failure, return the same id, the first one the store
    has for the ticker; the second call changes nothing in the store,
    whatever name it is given.  A ticker the store did not have gets one row,
    with the name of the first call. *)
Theorem resolve_twice_same_id ticker name1 name2 os i w :
  all_fault_free os ->
  let '(r1, w1, i1) := run (getOrCreateStockId ticker name1) os i w in
  let '(r2, w2, _) := run (getOrCreateStockId ticker name2) os i1 w1 in
  exists id rest,
    r1 = Ok id /\ r2 = Ok id /\
    Sql.select_stock_ids ticker (store w1) = id :: rest /\
    store w2 = store w1 /\
    (Sql.select_stock_ids ticker (store w) = [] ->
     stocks (store w2) = (stocks (store w) ++ [Sql.new_stock id ticker name1])%list /\
     rest = []).
Proof.
  intros Hff.
  destruct (@getOrCreateStockId_resolves ticker name1 os i w Hff)
    as (id & w1 & i1 & rest & Hrun1 & Hsel1 & _ & _ & _ & _ & Hnew).
  rewrite Hrun1.
  destruct (@getOrCreateStockId_found_counters ticker name2 os i1 w1 id rest Hff Hsel1)
    as (w2 & Hrun2 & Hst2 & _).
  rewrite Hrun2.
  exists id, rest. repeat split; try assumption.
  - rewrite Hst2. apply Hnew. assumption.
  - specialize (Hnew H). unfold Sql.select_stock_ids in Hsel1, H.
    rewrite Hnew, filter_app, map_app, H in Hsel1. cbn in Hsel1.
    unfold Sql.has_ticker in Hsel1. cbn in Hsel1. rewrite String.eqb_refl in Hsel1.
    cbn in Hsel1. injection Hsel1 as <-. reflexivity.
Qed.

Lemma invalid_after_fetch fields ts :
  passes_checks (Obj fields) = true ->
  invalid_for_save (set (Obj fields) "updatedAt" (DateObj (Some ts))) =
    (negb (truthy (get (Obj fields) "zacksRankText")) || isNaN (get (Obj fields) "zacksRank")).
Proof.
  unfold passes_checks, invalid_for_save. cbn [set get strict_null typeof_object negb andb].
  intros Hp. apply andb_true_iff in Hp. destruct Hp as [Hrank _].
  apply negb_true_iff in Hrank.
  rewrite lookup_assign_same.
  rewrite !(@lookup_assign_other "updatedAt") by discriminate.
  rewrite Hrank. cbn [loose_null orb]. rewrite !orb_false_r. reflexivity.
Qed.

(** A row whose first reply passes the checks, with no failure of the store:
    the unit fetches once, resolves the stock and goes on to the writer. *)
Lemma row_try_record row data os i w :
  all_fault_free os ->
  o_api (os i) = Ok data ->
  passes_checks data = true ->
  let data' := set data "updatedAt"
                 (DateObj (Some (normalized_time (get data "updatedAt") (o_now (os i))))) in
  exists sid rest w1 i1,
    run (row_try row) os i w = run (saveZacksRanking sid data') os i1 w1 /\
    counters w1 = incr TotalProcessed (counters w) /\
    Sql.select_stock_ids (row_ticker row) (store w1) = sid :: rest /\
    Sql.references_stock sid (store w1) = true /\
    rankings (store w1) = rankings (store w) /\
    (Sql.select_stock_ids (row_ticker row) (store w) <> [] -> store w1 = store w) /\
    (Sql.select_stock_ids (row_ticker row) (store w) = [] ->
     stocks (store w1) =
       (stocks (store w) ++ [Sql.new_stock sid (row_ticker row) (row_name row)])%list).
Proof.
  intros Hff Hapi Hpass data'.
  unfold row_try. cbn [bind tick perform run effect].
  unfold bindE at 1. rewrite run_bind. unfold getDataWithRetry.
  match goal with |- context [run (attempts ?t ?m ?d ?f ?n) os i ?w0] =>
    destruct (@attempts_recover _ t m d os data 0%nat f n i w0) as (w1 & Hrun & _ & _ & _ & Hc & Hs)
  end; try (unfold default_maxRetries; lia).
  { replace (i + 2 * 0)%nat with i by lia. exact Hapi. }
  { exact Hpass. }
  replace (i + 2 * 0)%nat with i in Hrun by lia.
  rewrite Hrun. fold data'.
  assert (Ht : truthy data' = true).
  { destruct (passes_checks_record data Hpass) as [fields ->]. reflexivity. }
  rewrite Ht. unfold bindE. rewrite run_bind.
  destruct (@getOrCreateStockId_resolves (row_ticker row) (row_name row) os (S i) w1 Hff)
    as (sid & w2 & i2 & rest & Hrun2 & Hsel & Href & Hrk & Hc2 & Hold & Hnew).
  rewrite Hrun2.
  exists sid, rest, w2, i2. split; [reflexivity |].
  cbn [counters store] in Hc, Hs. rewrite Hs in *.
  split; [congruence |]. split; [exact Hsel |]. split; [exact Href |].
  split; [exact Hrk |]. split; [exact Hold | exact Hnew].
Qed.

(** A row whose payload the guard of the writer lets through, with no
    failure: the stock is resolved and the ranking upserted. *)
Lemma row_saved row data os i w :
  all_fault_free os ->
  o_api (os i) = Ok data ->
  passes_checks data = true ->
  truthy (get data "zacksRankText") = true ->
  isNaN (get data "zacksRank") = false ->
  let ts := normalized_time (get data "updatedAt") (o_now (os i)) in
  let text := get data "zacksRankText" in
  let rank := get data "zacksRank" in
  exists w' i' sid rest,
    run (rowUnit row) os i w = (Ok tt, w', i') /\
    Sql.select_stock_ids (row_ticker row) (store w') = sid :: rest /\
    (Sql.select_stock_ids (row_ticker row) (store w) <> [] ->
     stocks (store w') = stocks (store w) /\
     Sql.select_stock_ids (row_ticker row) (store w) = sid :: rest) /\
    (Sql.select_stock_ids (row_ticker row) (store w) = [] ->
     stocks (store w') =
       (stocks (store w) ++ [Sql.new_stock sid (row_ticker row) (row_name row)])%list) /\
    if existsb (Sql.has_key sid (Some ts)) (rankings (store w))
    then
      rankings (store w') = map (Sql.overwrite sid (Some ts) text rank) (rankings (store w)) /\
      counters w' = incr SuccessfulSaves (incr TotalUpdates (incr TotalProcessed (counters w)))
    else
      (exists id,
         rankings (store w') =
           (rankings (store w) ++ [Sql.new_ranking id sid text rank (Some ts)])%list) /\
      counters w' = incr SuccessfulSaves (incr TotalInserts (incr TotalProcessed (counters w))).
Proof.
  intros Hff Hapi Hpass Htext Hrank ts text rank.
  destruct (@row_try_record row data os i w Hff Hapi Hpass)
    as (sid & rest & w1 & i1 & Hrun & Hc & Hsel & Href & Hrk & Hold & Hnew).
  fold ts in Hrun.
  set (data' := set data "updatedAt" (DateObj (Some ts))) in *.
  destruct (passes_checks_record data Hpass) as [fields Hdata].
  assert (Hvalid : validated data' ts).
  { unfold validated, data'. rewrite Hdata. split.
    - rewrite invalid_after_fetch by (rewrite <- Hdata; exact Hpass).
      rewrite <- Hdata, Htext, Hrank. reflexivity.
    - apply lookup_assign_same. }
  assert (Hgt : get data' "zacksRankText" = text)
    by (unfold data', text; rewrite Hdata; apply lookup_assign_other; discriminate).
  assert (Hgr : get data' "zacksRank" = rank)
    by (unfold data', rank; rewrite Hdata; apply lookup_assign_other; discriminate).
  destruct (@saveZacksRanking_run _ sid data' ts os i1 w1 Hvalid Href Hff)
    as (w2 & Hrun2 & Hst2 & Hcase).
  pose proof (rowUnit_catches row os i w) as Hunit.
  rewrite Hrun, Hrun2 in Hunit.
  exists w2, (i1 + 4)%nat, sid, rest.
  split; [exact Hunit |].
  split; [unfold Sql.select_stock_ids in *; rewrite Hst2; exact Hsel |].
  split.
  { intros Hne. specialize (Hold Hne). rewrite Hst2, Hold. split; [reflexivity |].
    rewrite <- Hold. exact Hsel. }
  split; [intros Hnil; rewrite Hst2; apply Hnew; exact Hnil |].
  rewrite Hrk, Hgt, Hgr in Hcase.
  destruct (existsb (Sql.has_key sid (Some ts)) (rankings (store w))).
  - destruct Hcase as (Hr & Hc2 & _). rewrite Hc in Hc2. split; assumption.
  - destruct Hcase as (Hr & Hc2 & _). rewrite Hc in Hc2. split; [| assumption].
    eexists. exact Hr.
Qed.

Lemma normalized_time_parsed updatedAt ts now :
  new_Date updatedAt = Some ts -> normalized_time updatedAt now = ts.
Proof.
  unfold new_Date, normalized_time.
  destruct updatedAt as [| | b | x | s | t | fs]; try discriminate.
  - intros ->. reflexivity.
  - intros ->. reflexivity.
Qed.

(** X10.  A row whose payload passes the checks, has a label that is not
    empty and a rank that is a number, when nothing fails: the unit returns,
    the ticker has its row in [stocks] (created with the row's name if it was
    not there), a row of [zacks_rankings] for that stock and the payload's
    date carries the payload's label and rank, and the row is counted once
    as processed and once as a successful save, an insert or an update. *)
Theorem row_is_saved row data os i w :
  all_fault_free os ->
  o_api (os i) = Ok data ->
  passes_checks data = true ->
  truthy (get data "zacksRankText") = true ->
  isNaN (get data "zacksRank") = false ->
  let ts := normalized_time (get data "updatedAt") (o_now (os i)) in
  exists w' i' sid rest r,
    run (rowUnit row) os i w = (Ok tt, w', i') /\
    Sql.select_stock_ids (row_ticker row) (store w') = sid :: rest /\
    (Sql.select_stock_ids (row_ticker row) (store w) = [] ->
     stocks (store w') =
       (stocks (store w) ++ [Sql.new_stock sid (row_ticker row) (row_name row)])%list) /\
    In r (observations sid ts (store w')) /\
    rk_text r = get data "zacksRankText" /\ rk_rank r = get data "zacksRank" /\
    (counters w' = incr SuccessfulSaves (incr TotalInserts (incr TotalProcessed (counters w))) \/
     counters w' = incr SuccessfulSaves (incr TotalUpdates (incr TotalProcessed (counters w)))).
Proof.
  intros Hff Hapi Hpass Htext Hrank ts.
  destruct (@row_saved row data os i w Hff Hapi Hpass Htext Hrank)
    as (w' & i' & sid & rest & Hrun & Hsel & _ & Hnew & Hcase).
  fold ts in Hcase.
  destruct (existsb (Sql.has_key sid (Some ts)) (rankings (store w))) eqn:Hex.
  - destruct Hcase as [Hr Hc].
    apply existsb_exists in Hex. destruct Hex as (r0 & Hin0 & Hk0).
    exists w', i', sid, rest,
      (Sql.overwrite sid (Some ts) (get data "zacksRankText") (get data "zacksRank") r0).
    split; [exact Hrun |]. split; [exact Hsel |]. split; [exact Hnew |].
    split.
    { unfold observations. rewrite Hr. apply filter_In. split.
      - apply in_map. exact Hin0.
      - rewrite has_key_overwrite. exact Hk0. }
    destruct (@overwrite_sets sid (Some ts) (get data "zacksRankText")
                (get data "zacksRank") r0 Hk0) as [H1 H2].
    split; [exact H1 |]. split; [exact H2 |]. right. exact Hc.
  - destruct Hcase as [[id Hr] Hc].
    exists w', i', sid, rest,
      (Sql.new_ranking id sid (get data "zacksRankText") (get data "zacksRank") (Some ts)).
    split; [exact Hrun |]. split; [exact Hsel |]. split; [exact Hnew |].
    split.
    { unfold observations. rewrite Hr. apply filter_In. split.
      - apply in_or_app. right. left. reflexivity.
      - unfold Sql.has_key. cbn. rewrite !Z.eqb_refl. reflexivity. }
    split; [reflexivity |]. split; [reflexivity |]. left. exact Hc.
Qed.

(** X11.  Processing a row a second time, with the same payload and a date
    that parses, when nothing fails: the second pass adds no row to [stocks]
    and none to [zacks_rankings]; it is counted as processed, as a
    successful save and as an update. *)
Theorem row_again_is_an_update row data ts os i w :
  all_fault_free os ->
  (forall j, o_api (os j) = Ok data) ->
  passes_checks data = true ->
  truthy (get data "zacksRankText") = true ->
  isNaN (get data "zacksRank") = false ->
  new_Date (get data "updatedAt") = Some ts ->
  let '(_, w1, i1) := run (rowUnit row) os i w in
  let '(r2, w2, _) := run (rowUnit row) os i1 w1 in
  r2 = Ok tt /\
  stocks (store w2) = stocks (store w1) /\
  List.length (rankings (store w2)) = List.length (rankings (store w1)) /\
  counters w2 =
    incr SuccessfulSaves (incr TotalUpdates (incr TotalProcessed (counters w1))).
Proof.
  intros Hff Hapi Hpass Htext Hrank Hdate.
  destruct (@row_saved row data os i w Hff (Hapi i) Hpass Htext Hrank)
    as (w1 & i1 & sid & rest & Hrun1 & Hsel1 & _ & _ & Hcase1).
  rewrite (normalized_time_parsed _ _ Hdate) in Hcase1.
  rewrite Hrun1.
  destruct (@row_saved row data os i1 w1 Hff (Hapi i1) Hpass Htext Hrank)
    as (w2 & i2 & sid' & rest' & Hrun2 & Hsel2 & Hold2 & _ & Hcase2).
  rewrite (normalized_time_parsed _ _ Hdate) in Hcase2.
  rewrite Hrun2.
  destruct Hold2 as [Hst2 Hsame]; [rewrite Hsel1; discriminate |].
  rewrite Hsel1 in Hsame. injection Hsame as <- <-.
  assert (Hex : existsb (Sql.has_key sid (Some ts)) (rankings (store w1)) = true).
  { destruct (existsb (Sql.has_key sid (Some ts)) (rankings (store w))) eqn:Hex0.
    - destruct Hcase1 as [Hr _]. rewrite Hr.
      apply existsb_exists in Hex0. destruct Hex0 as (r0 & Hin0 & Hk0).
      apply existsb_exists. eexists. split; [apply in_map; exact Hin0 |].
      rewrite has_key_overwrite. exact Hk0.
    - destruct Hcase1 as [[id Hr] _]. rewrite Hr.
      apply existsb_exists. eexists. split; [apply in_or_app; right; left; reflexivity |].
      unfold Sql.has_key. cbn. rewrite !Z.eqb_refl. reflexivity. }
  rewrite Hex in Hcase2. destruct Hcase2 as [Hr2 Hc2].
  split; [reflexivity |]. split; [exact Hst2 |].
  split; [rewrite Hr2; apply length_map | exact Hc2].
Qed.


(** X12.  A payload that passes the checks of the fetch but has an empty label
    or a rank that is no number is turned away by the guard of
    [saveZacksRanking], after the stock has been resolved: the ticker has its
    row in [stocks] (created if it was not there), nothing is written to
    [zacks_rankings], and the row is counted once as processed and once in
    [noRankingStocks], not as a failure. *)
Theorem row_is_skipped_at_save row data os i w :
  all_fault_free os ->
  o_api (os i) = Ok data ->
  passes_checks data = true ->
  negb (truthy (get data "zacksRankText")) || isNaN (get data "zacksRank") = true ->
  exists w' i' sid rest,
    run (rowUnit row) os i w = (Ok tt, w', i') /\
    Sql.select_stock_ids (row_ticker row) (store w') = sid :: rest /\
    (Sql.select_stock_ids (row_ticker row) (store w) = [] ->
     stocks (store w') =
       (stocks (store w) ++ [Sql.new_stock sid (row_ticker row) (row_name row)])%list) /\
    rankings (store w') = rankings (store w) /\
    counters w' = incr NoRankingStocks (incr TotalProcessed (counters w)) /\
    In (ObsPrint (WarnInvalidDataSkippingSave sid)) (log w').
Proof.
  intros Hff Hapi Hpass Hbad.
  destruct (@row_try_record row data os i w Hff Hapi Hpass)
    as (sid & rest & w1 & i1 & Hrun & Hc & Hsel & Href & Hrk & _ & Hnew).
  destruct (passes_checks_record data Hpass) as [fields Hdata].
  set (data' := set data "updatedAt" _) in Hrun.
  assert (Hinv : invalid_for_save data' = true).
  { unfold data'. rewrite Hdata.
    rewrite invalid_after_fetch by (rewrite <- Hdata; exact Hpass).
    rewrite <- Hdata. exact Hbad. }
  pose proof (rowUnit_catches row os i w) as Hunit.
  rewrite Hrun in Hunit. unfold saveZacksRanking in Hunit.
  rewrite Hinv in Hunit. cbn in Hunit.
  eexists _, _, sid, rest. split; [exact Hunit |].
  cbn [store counters log].
  split; [exact Hsel |]. split; [exact Hnew |]. split; [exact Hrk |].
  split; [rewrite Hc; reflexivity | left; reflexivity].
Qed.

End EndToEnd.

Lemma resolve_twice_same_id_witness :
  exists w1 w2 i1 i2,
    run (getOrCreateStockId "AAPL" "Apple") (fun _ => quiet) 0 initial_world =
      (Ok 1, w1, i1) /\
    run (getOrCreateStockId "AAPL" "Apple Inc.") (fun _ => quiet) i1 w1 = (Ok 1, w2, i2) /\
    stocks (store w2) = [Sql.new_stock 1 "AAPL" "Apple"].
Proof.
  pose proof (@resolve_twice_same_id sample_platform "AAPL" "Apple" "Apple Inc."
                (fun _ => quiet) 0%nat initial_world (fun _ => eq_refl)) as H.
  destruct (run (getOrCreateStockId "AAPL" "Apple") (fun _ => quiet) 0 initial_world)
    as [[r1 w1] i1] eqn:E1.
  destruct (run (getOrCreateStockId "AAPL" "Apple Inc.") (fun _ => quiet) i1 w1)
    as [[r2 w2] i2] eqn:E2.
  destruct H as (id & rest & -> & -> & _ & _ & Hnew).
  destruct (Hnew eq_refl) as [Hst _].
  exists w1, w2, i1, i2.
  vm_compute in E1. injection E1 as Hid <- <-.
  vm_compute in E2. injection E2 as _ <- <-.
  subst id. repeat split; reflexivity.
Defined.

Lemma row_is_saved_witness :
  exists w' i' sid rest r,
    run (rowUnit {| row_ticker := "AAPL"; row_name := "Apple" |})
        (fun _ => answers (Ok sample_payload)) 0 initial_world = (Ok tt, w', i') /\
    Sql.select_stock_ids "AAPL" (store w') = sid :: rest /\
    stocks (store w') = [Sql.new_stock sid "AAPL" "Apple"] /\
    In r (observations sid 1704153600000 (store w')) /\
    rk_text r = Str "Buy" /\ rk_rank r = Number (Num 1).
Proof.
  destruct (@row_is_saved sample_platform {| row_ticker := "AAPL"; row_name := "Apple" |}
              sample_payload (fun _ => answers (Ok sample_payload)) 0%nat initial_world
              (fun _ => eq_refl) eq_refl eq_refl eq_refl eq_refl)
    as (w' & i' & sid & rest & r & Hrun & Hsel & Hnew & Hin & Ht & Hr & _).
  exists w', i', sid, rest, r.
  split; [exact Hrun |]. split; [exact Hsel |].
  split; [exact (Hnew eq_refl) |]. split; [exact Hin |]. split; [exact Ht | exact Hr].
Defined.

Lemma row_again_is_an_update_witness :
  let row := {| row_ticker := "AAPL"; row_name := "Apple" |} in
  let os := fun _ : nat => answers (Ok sample_payload) in
  let '(_, w1, i1) := run (rowUnit row) os 0 initial_world in
  let '(r2, w2, _) := run (rowUnit row) os i1 w1 in
  r2 = Ok tt /\
  stocks (store w2) = stocks (store w1) /\
  List.length (rankings (store w2)) = List.length (rankings (store w1)) /\
  counters w2 =
    incr SuccessfulSaves (incr TotalUpdates (incr TotalProcessed (counters w1))).
Proof.
  exact (@row_again_is_an_update sample_platform
           {| row_ticker := "AAPL"; row_name := "Apple" |} sample_payload 1704153600000
           (fun _ => answers (Ok sample_payload)) 0%nat initial_world
           (fun _ => eq_refl) (fun _ => eq_refl) eq_refl eq_refl eq_refl eq_refl).
Defined.

Lemma row_is_skipped_at_save_witness :
  exists w' i' sid rest,
    run (rowUnit {| row_ticker := "AAPL"; row_name := "Apple" |})
        (fun _ => answers (Ok (Obj [("zacksRankText", Str ""); ("zacksRank", Number (Num 3));
                                      ("updatedAt", Str "2024-01-02")])))
        0 initial_world = (Ok tt, w', i') /\
    Sql.select_stock_ids "AAPL" (store w') = sid :: rest /\
    stocks (store w') = [Sql.new_stock sid "AAPL" "Apple"] /\
    rankings (store w') = [] /\
    noRankingStocks (counters w') = 1%nat.
Proof.
  destruct (@row_is_skipped_at_save sample_platform
              {| row_ticker := "AAPL"; row_name := "Apple" |}
              (Obj [("zacksRankText", Str ""); ("zacksRank", Number (Num 3));
                    ("updatedAt", Str "2024-01-02")])
              (fun _ => answers (Ok (Obj [("zacksRankText", Str ""); ("zacksRank", Number (Num 3));
                                            ("updatedAt", Str "2024-01-02")])))
              0%nat initial_world (fun _ => eq_refl) eq_refl eq_refl eq_refl)
    as (w' & i' & sid & rest & Hrun & Hsel & Hnew & Hrk & Hc & _).
  exists w', i', sid, rest.
  split; [exact Hrun |]. split; [exact Hsel |].
  split; [exact (Hnew eq_refl) |]. split; [exact Hrk |].
  rewrite Hc. reflexivity.
Defined.

(** ** Witnesses of the laws of a run *)

Lemma counter_law_witness :
  let k := counters (world (steps (boot empty_store) store_failure_run)) in
  totalProcessed k = 1%nat /\
  (totalProcessed k + failedSaves k = successfulSaves k + noRankingStocks k)%nat.
Proof.
  assert (Hset : Forall settled
            (pendingPromises (steps (boot empty_store) store_failure_run))).
  { vm_compute. repeat constructor. eexists. reflexivity. }
  destruct (@counter_law sample_platform empty_store store_failure_run Hset)
    as (Hp & Hb & _).
  split; [exact Hp | exact Hb].
Defined.

Lemma concurrent_resolves_one_row_witness :
  let sched := [(0, quiet); (0, quiet); (0, quiet); (1, quiet); (1, quiet); (1, quiet);
                (0, quiet); (1, quiet); (0, quiet); (1, quiet)]%nat in
  let '(ps', w') :=
    pool_run (map (getOrCreateStockId "AAPL") ["Apple"; "Apple Inc."]) initial_world sched in
  ticker_unique "AAPL" (store w') /\
  List.length ps' = 2%nat /\
  plain_inserts w' = 0%nat /\
  forall p r, In p ps' -> p = Ret r ->
    exists id, r = Ok id /\ Sql.select_stock_ids "AAPL" (store w') = [id].
Proof.
  exact (@concurrent_resolves_one_row sample_platform "AAPL" ["Apple"; "Apple Inc."]
           initial_world
           [(0, quiet); (0, quiet); (0, quiet); (1, quiet); (1, quiet); (1, quiet);
            (0, quiet); (1, quiet); (0, quiet); (1, quiet)]%nat
           eq_refl
           ltac:(repeat constructor)).
Defined.

Lemma constraints_reachable_witness :
  constraints_hold (store (world (steps (boot empty_store) store_failure_run))).
Proof.
  apply (@constraints_reachable sample_platform empty_store store_failure_run).
  split; intros; simpl; lia.
Defined.

(** ** The counters at every turn *)

Lemma steady_bind {A B} wt I (p : Prog A) (f : A -> Prog B) Q acc :
  steady wt I p (fun a acc' => steady wt I (f a) Q acc') acc ->
  steady wt I (bind p f) Q acc.
Proof.
  revert acc.
  induction p as [a | R c k IH | R s k IH]; intros acc H; cbn [bind steady] in *.
  - exact H.
  - destruct H as [Hi H]. split; [exact Hi |]. intros r. apply IH. apply H.
  - destruct s; try (intros r; apply IH; apply H).
    apply IH. exact H.
Qed.

Lemma steady_weaken {A} wt I (p : Prog A) (Q Q' : A -> Z -> Prop) acc :
  (forall a z, Q a z -> Q' a z) -> steady wt I p Q acc -> steady wt I p Q' acc.
Proof.
  intros HQ. revert acc.
  induction p as [a | R c k IH | R s k IH]; intros acc H; cbn [steady] in *.
  - apply HQ. exact H.
  - destruct H as [Hi H]. split; [exact Hi |]. intros r. apply IH. apply H.
  - destruct s; try (intros r; apply IH; apply H).
    apply IH. exact H.
Qed.

Section Steady.
Context {P : Platform}.
Variable wt : Counter -> Z.
Variable I : Z -> Prop.

Lemma steady_advance {A} (p : Prog A) acc w :
  steady wt I p (fun _ z => I z) acc ->
  let acc' := acc + measure wt (counters (snd (advance p w))) - measure wt (counters w) in
  steady wt I (fst (advance p w)) (fun _ z => I z) acc' /\ I acc'.
Proof.
  revert acc w.
  induction p as [a | R c k IH | R s k IH]; intros acc w H; cbn [advance fst snd].
  - replace (acc + _ - _) with acc by lia. split; exact H.
  - replace (acc + _ - _) with acc by lia. split; [exact H | apply H].
  - cbn [steady] in H. destruct s; cbn [effect].
    + specialize (IH tt _ {| counters := incr c (counters w); store := store w;
                             clock := clock w; log := log w |} H).
      destruct (advance (k tt) _) as [p' w']. cbn [fst snd counters] in *.
      rewrite measure_incr in IH.
      replace (acc + measure wt (counters w') - measure wt (counters w))
        with (acc + wt c + measure wt (counters w') - (measure wt (counters w) + wt c))
        by lia.
      exact IH.
    + specialize (IH tt _ {| counters := counters w; store := store w;
                             clock := clock w; log := ObsPrint l :: log w |} (H tt)).
      destruct (advance (k tt) _) as [p' w']. exact IH.
    + specialize (IH (clock w) _ w (H (clock w))).
      destruct (advance (k (clock w)) w) as [p' w']. exact IH.
    + specialize (IH tt _ {| counters := counters w; store := store w;
                             clock := clock w; log := ObsRelease :: log w |} (H tt)).
      destruct (advance (k tt) _) as [p' w']. exact IH.
Qed.

Lemma steady_resume {A} (p : Prog A) acc o w :
  steady wt I p (fun _ z => I z) acc -> I acc ->
  let acc' := acc + measure wt (counters (snd (resume o p w))) - measure wt (counters w) in
  steady wt I (fst (resume o p w)) (fun _ z => I z) acc' /\ I acc'.
Proof.
  intros H Hi. destruct p as [a | R c k | R s k]; cbn [resume fst snd].
  - replace (acc + _ - _) with acc by lia. split; assumption.
  - cbn [steady] in H. destruct H as [_ H]. unfold complete.
    destruct (answer c o (store w)) as [r st].
    match goal with |- context [advance (k r) ?w1] =>
      pose proof (@steady_advance _ (k r) acc w1 (H r)) as Ha
    end.
    exact Ha.
  - replace (acc + _ - _) with acc by lia. split; assumption.
Qed.

Ltac steady_crush :=
  repeat match goal with
    | |- forall _, _ => intro
    | |- _ /\ _ => split
    | |- steady _ _ ?p _ _ =>
        match p with
        | context [match ?x with _ => _ end] => is_var x; destruct x
        | context [first_row ?x] => is_var x; destruct x
        | context [List.length ?x] => is_var x; destruct x
        end
    | |- steady _ _ _ _ _ => progress cbn
    end.

Lemma getOrCreateStockId_steady ticker name acc :
  I acc -> steady wt I (getOrCreateStockId ticker name) (fun _ z => z = acc) acc.
Proof. intros Hi. unfold getOrCreateStockId. steady_crush; try reflexivity; exact Hi. Qed.

Lemma saveZacksRanking_steady stockId data acc :
  I acc ->
  steady wt I (saveZacksRanking stockId data)
    (fun r z =>
       match r with
       | Ok _ =>
           z = acc + wt NoRankingStocks \/
           z = acc + wt TotalInserts + wt SuccessfulSaves \/
           z = acc + wt TotalUpdates + wt SuccessfulSaves
       | Throw _ =>
           z = acc \/ z = acc + wt FailedSaves + wt NoRankingStocks
       end) acc.
Proof.
  intros Hi. unfold saveZacksRanking. destruct (invalid_for_save data).
  - steady_crush. tauto.
  - steady_crush; try exact Hi; tauto.
Qed.

Lemma attempt_steady ticker acc :
  I acc ->
  steady wt I (attempt ticker)
    (fun r z => match r with
                | Ok _ => fetch_post wt acc r z
                | Throw _ => z = acc
                end) acc.
Proof.
  intros Hi.
  unfold attempt, fetch_post. cbn [bind await steady]. split; [exact Hi |].
  intros [data | e].
  - destruct (strict_null data) eqn:Hn.
    + cbn. eexists. split; [reflexivity |]. left. split; [reflexivity | tauto].
    + destruct (typeof_object data) eqn:Ho; cbn [negb]; [| cbn; reflexivity].
      destruct (loose_null (get data "zacksRank") || loose_null (get data "zacksRankText")).
      * cbn. eexists. split; [reflexivity |]. left. split; [reflexivity | tauto].
      * apply steady_bind. unfold normalizeUpdatedAt.
        destruct (typeof_string (get data "updatedAt") || instanceof_Date (get data "updatedAt"));
          [destruct (new_Date (get data "updatedAt")) |];
          cbn; intros; eexists; (split; [reflexivity |]); right;
          (split; [apply truthy_set; assumption | reflexivity]).
  - cbn. reflexivity.
Qed.

Lemma attempts_steady ticker maxRetries delay fuel n acc :
  I acc ->
  steady wt I (attempts ticker maxRetries delay fuel n) (fetch_post wt acc) acc.
Proof.
  intros Hi.
  revert n. induction fuel as [| fuel IH]; intros n.
  - cbn. eexists. split; [reflexivity |]. left. split; [reflexivity | right; lia].
  - cbn [attempts]. destruct (n <=? maxRetries)%nat.
    + apply steady_bind.
      eapply steady_weaken; [| apply attempt_steady; exact Hi].
      intros [data | e] z H.
      * exact H.
      * subst z. cbn [bind print perform steady]. intros _.
        apply steady_bind.
        destruct (n <? maxRetries)%nat; cbn; [split; [exact Hi |] |]; intros; apply IH.
    + cbn. eexists. split; [reflexivity |]. left. split; [reflexivity | right; lia].
Qed.

Lemma rowUnit_steady row :
  I (wt TotalProcessed) ->
  steady wt I (rowUnit row) (fun r z => r = Ok tt /\ unit_totals wt z) 0.
Proof.
  intros Hi.
  unfold rowUnit, try_catch, unit_totals.
  apply steady_bind. cbn [bind tick perform steady].
  unfold bindE. apply steady_bind.
  eapply steady_weaken; [| apply attempts_steady; exact Hi].
  intros r z (v & -> & [[-> Hz] | [Ht ->]]).
  - cbn. split; [reflexivity | lia].
  - rewrite Ht. apply steady_bind.
    eapply steady_weaken; [| apply getOrCreateStockId_steady; exact Hi].
    intros [id | e] z ->.
    + eapply steady_weaken; [| apply saveZacksRanking_steady; exact Hi].
      intros [[] | e] z Hz; cbn; (split; [reflexivity | lia]).
    + cbn. split; [reflexivity | lia].
Qed.

Hypothesis I_processed : I (wt TotalProcessed).
Hypothesis I_totals : forall z, unit_totals wt z -> I z.

Lemma steadily_same s s' :
  pendingPromises s' = pendingPromises s ->
  counters (world s') = counters (world s) ->
  steadily wt I s -> steadily wt I s'.
Proof. unfold steadily. intros -> ->. auto. Qed.

Lemma steadily_main_turn o s : steadily wt I s -> steadily wt I (main_turn o s).
Proof.
  intros H. unfold main_turn.
  destruct (main s); try exact H; try destruct (o_fail o);
    (eapply steadily_same; [| | exact H]; reflexivity).
Qed.

Lemma steadily_stream_turn e s : steadily wt I s -> steadily wt I (stream_turn e s).
Proof.
  intros H. unfold stream_turn.
  destruct (stream s); try exact H.
  destruct e as [row | | e | e];
    [| eapply steadily_same; [| | exact H]; reflexivity
     | eapply steadily_same; [| | exact H]; reflexivity
     | eapply steadily_same; [| | exact H]; reflexivity].
  destruct H as (accs & Hall & Hin & Hsum).
  assert (Hunit : steady wt I (rowUnit row) (fun _ z => I z) 0).
  { eapply steady_weaken; [| apply rowUnit_steady; exact I_processed].
    intros r z [_ Hz]. apply I_totals. exact Hz. }
  pose proof (@steady_advance _ (rowUnit row) 0 (world s) Hunit) as [Ha Hi].
  destruct (advance (rowUnit row) (world s)) as [p w'].
  cbn [fst snd] in Ha, Hi.
  eexists (accs ++ [_])%list. cbn [pendingPromises world]. split; [| split].
  - apply Forall2_app; [exact Hall | constructor; [exact Ha | constructor]].
  - apply Forall_app. split; [exact Hin | constructor; [exact Hi | constructor]].
  - rewrite sum_app. simpl. lia.
Qed.

Lemma steadily_unit_turn i o s : steadily wt I s -> steadily wt I (unit_turn i o s).
Proof.
  intros H. unfold unit_turn.
  destruct (nth_error (pendingPromises s) i) as [p |] eqn:Hnth; [| exact H].
  destruct H as (accs & Hall & Hin & Hsum).
  destruct (Forall2_nth_error i Hall Hnth) as (acc & Hacc & Hp).
  assert (Hiacc : I acc)
    by (eapply Forall_forall; [exact Hin | eapply nth_error_In; exact Hacc]).
  pose proof (@steady_resume _ p acc o (world s) Hp Hiacc) as [Hr Hi].
  destruct (resume o p (world s)) as [p' w'].
  cbn [fst snd] in Hr, Hi.
  eexists (replace_nth i _ accs). cbn [pendingPromises world]. split; [| split].
  - apply Forall2_replace_nth; [exact Hall | exact Hr].
  - apply Forall_replace_nth; [exact Hin | exact Hi].
  - rewrite (@sum_replace_nth i acc _ accs Hacc). lia.
Qed.

Lemma steadily_step s ev : steadily wt I s -> steadily wt I (step s ev).
Proof.
  intros H. unfold step.
  assert (Hturn : steadily wt I
            match ev with
            | EvMain o => main_turn o s
            | EvStream e => stream_turn e s
            | EvUnit i o => unit_turn i o s
            end).
  { destruct ev; [apply steadily_main_turn | apply steadily_stream_turn
                  | apply steadily_unit_turn]; exact H. }
  destruct (main s); try exact H;
    (eapply steadily_same; [apply wake_settle_same | apply wake_settle_same | exact Hturn]).
Qed.

Lemma steadily_reachable st evs : steadily wt I (steps (boot st) evs).
Proof.
  induction evs as [| ev evs IH] using rev_ind.
  - exists []. split; [apply Forall2_nil |]. split; [constructor |].
    unfold measure. cbn. lia.
  - rewrite steps_snoc. apply steadily_step. exact IH.
Qed.

End Steady.

Lemma sum_of_constants T accs :
  Forall (fun z => z = T) accs ->
  fold_right Z.add 0 accs = T * Z.of_nat (List.length accs).
Proof.
  induction 1 as [| z accs -> _ IH]; simpl List.length.
  - simpl. lia.
  - rewrite Nat2Z.inj_succ. simpl fold_right. rewrite IH. lia.
Qed.

Lemma sum_of_nonnegatives accs :
  Forall (fun z => 0 <= z) accs -> 0 <= fold_right Z.add 0 accs.
Proof. induction 1 as [| z accs Hz _ IH]; simpl; lia. Qed.

Section CountersEveryTurn.
Context {P : Platform}.

(** X1.  At every turn of every run, and so in every summary [main] prints,
    also one printed after an error of the row stream with units still on
    their way: [totalProcessed] is the number of rows read so far;
    [successfulSaves] is [totalInserts + totalUpdates]; a failed save is
    always counted as a failed processing as well; and [noRankingStocks]
    includes every failed retrieval and every failed processing. *)
Theorem counters_at_every_turn st evs :
  let s := steps (boot st) evs in
  let k := counters (world s) in
  totalProcessed k = List.length (pendingPromises s) /\
  successfulSaves k = (totalInserts k + totalUpdates k)%nat /\
  (failedSaves k <= failedProcessing k)%nat /\
  (failedRetrievals k + failedProcessing k <= noRankingStocks k)%nat.
Proof.
  intros s k.
  assert (H1 : steadily processed (fun z => z = 1) s).
  { apply steadily_reachable; [reflexivity |].
    intros z Hz. unfold unit_totals, processed in Hz. lia. }
  assert (H2 : steadily saves_split (fun z => z = 0) s).
  { apply steadily_reachable; [reflexivity |].
    intros z Hz. unfold unit_totals, saves_split in Hz. lia. }
  assert (H3 : steadily caught_over_failed_saves (fun z => 0 <= z) s).
  { apply steadily_reachable; [cbn; lia |].
    intros z Hz. unfold unit_totals, caught_over_failed_saves in Hz. lia. }
  assert (H4 : steadily no_ranking_over_failures (fun z => 0 <= z) s).
  { apply steadily_reachable; [cbn; lia |].
    intros z Hz. unfold unit_totals, no_ranking_over_failures in Hz. lia. }
  destruct H1 as (a1 & Hall1 & Hin1 & Hsum1).
  destruct H2 as (a2 & Hall2 & Hin2 & Hsum2).
  destruct H3 as (a3 & Hall3 & Hin3 & Hsum3).
  destruct H4 as (a4 & Hall4 & Hin4 & Hsum4).
  pose proof (Forall2_length Hall1) as Hlen1.
  pose proof (Forall2_length Hall2) as Hlen2.
  rewrite (sum_of_constants Hin1) in Hsum1.
  rewrite (sum_of_constants Hin2) in Hsum2.
  pose proof (sum_of_nonnegatives Hin3) as Hpos3.
  pose proof (sum_of_nonnegatives Hin4) as Hpos4.
  subst k. unfold measure, processed, saves_split, caught_over_failed_saves,
    no_ranking_over_failures in *.
  destruct (counters (world s)) as [tp ss fr fs nr ti tu fp].
  cbn [totalProcessed successfulSaves failedRetrievals failedSaves noRankingStocks
       totalInserts totalUpdates failedProcessing] in *.
  unfold Async in *. repeat split; lia.
Qed.

End CountersEveryTurn.

(** ** The earlier program, function by function *)

Section EarlierFunctions.
Context {P : Platform}.

(** The loop of [index.js] when the first [k] calls reject and the next one
    resolves: the value is returned as it came. *)
Lemma IndexJs_attempts_first_reply ticker maxRetries delay os v k :
  forall fuel n i w,
    (n + k <= maxRetries)%nat -> (k < fuel)%nat ->
    (forall j, (j < k)%nat -> exists e, o_api (os (i + 2 * j)%nat) = Throw e) ->
    o_api (os (i + 2 * k)%nat) = Ok v ->
    exists w',
      run (IndexJs.attempts ticker maxRetries delay fuel n) os i w =
        (Ok v, w', S (i + 2 * k)) /\
      api_calls w' = (api_calls w + k + 1)%nat /\
      delays w' = (delays w + k)%nat /\
      delays_of delay w' = (delays_of delay w + k)%nat /\
      store w' = store w /\ queries w' = queries w.
Proof.
  induction k as [| k IH]; intros fuel n i w Hn Hfuel Hfail Hok.
  - destruct fuel as [| fuel]; [lia |].
    cbn [IndexJs.attempts].
    assert (Hle : (n <=? maxRetries)%nat = true) by (apply Nat.leb_le; lia).
    rewrite Hle. replace (i + 2 * 0)%nat with i in * by lia.
    simpl. unfold complete. simpl. rewrite Hok. simpl.
    eexists. split; [reflexivity |]. count_obs. repeat split; lia.
  - destruct fuel as [| fuel]; [lia |].
    cbn [IndexJs.attempts].
    assert (Hle : (n <=? maxRetries)%nat = true) by (apply Nat.leb_le; lia).
    assert (Hlt : (n <? maxRetries)%nat = true) by (apply Nat.ltb_lt; lia).
    rewrite Hle.
    destruct (Hfail 0%nat ltac:(lia)) as [e He].
    replace (i + 2 * 0)%nat with i in He by lia.
    simpl. unfold complete. simpl. rewrite He. simpl. rewrite Hlt.
    simpl. unfold complete. simpl.
    match goal with |- context [run _ os ?j ?w2] =>
      destruct (IH fuel (S n) j w2 ltac:(lia) ltac:(lia))
        as (w' & Hrun & Ha & Hd & Hf & Hs & Hq)
    end.
    + intros j Hj. replace (S (S i) + 2 * j)%nat with (i + 2 * S j)%nat by lia.
      apply Hfail. lia.
    + replace (S (S i) + 2 * k)%nat with (i + 2 * S k)%nat by lia. exact Hok.
    + exists w'.
      replace (S (S i) + 2 * k)%nat with (i + 2 * S k)%nat in Hrun by lia.
      split; [exact Hrun |]. clear IH Hrun.
      count_obs. rewrite Z.eqb_refl in Hf. cbn [store] in *.
      repeat split; try lia; congruence.
Qed.

(** X18.  [getDataWithRetry] of [index.js] when the first [k] calls
    reject and call [k + 1], still within [maxRetries], resolves: it returns
    the value as it came, whatever it is (nothing is checked), after [k + 1]
    calls and [k] waits of [delay], and touches neither store nor
    connection. *)
Theorem IndexJs_fetch_returns_first_reply ticker maxRetries delay os i w v k :
  (k < maxRetries)%nat ->
  (forall j, (j < k)%nat -> exists e, o_api (os (i + 2 * j)%nat) = Throw e) ->
  o_api (os (i + 2 * k)%nat) = Ok v ->
  exists w',
    run (IndexJs.getDataWithRetry ticker maxRetries delay) os i w =
      (Ok v, w', S (i + 2 * k)) /\
    api_calls w' = (api_calls w + k + 1)%nat /\
    delays w' = (delays w + k)%nat /\
    delays_of delay w' = (delays_of delay w + k)%nat /\
    store w' = store w /\ queries w' = queries w.
Proof.
  intros Hk Hfail Hok. unfold IndexJs.getDataWithRetry.
  apply IndexJs_attempts_first_reply; try assumption; lia.
Qed.

(** The resolver of [index.js] with no failure *)
Lemma IndexJs_getStockId_resolves ticker name os i w :
  all_fault_free os ->
  exists id w' i' rest,
    run (IndexJs.getStockId ticker name) os i w = (Ok id, w', i') /\
    Sql.select_stock_ids ticker (store w') = id :: rest /\
    Sql.references_stock id (store w') = true /\
    rankings (store w') = rankings (store w) /\
    (Sql.select_stock_ids ticker (store w) <> [] ->
     store w' = store w /\ Sql.select_stock_ids ticker (store w) = id :: rest) /\
    (Sql.select_stock_ids ticker (store w) = [] ->
     stocks (store w') = (stocks (store w) ++ [Sql.new_stock id ticker name])%list /\
     rest = []).
Proof.
  intros Hff. unfold IndexJs.getStockId.
  destruct (Sql.select_stock_ids ticker (store w)) as [| id rest] eqn:Hsel.
  - pose proof (select_ids_nil_no_ticker _ _ Hsel) as Hex.
    repeat (progress (unfold complete; simpl; rewrite ?Hff, ?Hsel, ?Hex)).
    eexists _, _, _, []. split; [reflexivity |]. cbn [store].
    assert (Hsel' : Sql.select_stock_ids ticker
              (Sql.with_stocks (store w)
                 (stocks (store w) ++ [Sql.new_stock (stocks_seq (store w) + 1) ticker name])
                 (stocks_seq (store w) + 1)) = [stocks_seq (store w) + 1]).
    { unfold Sql.select_stock_ids in *. cbn [Sql.with_stocks stocks].
      rewrite filter_app, map_app, Hsel. cbn.
      unfold Sql.has_ticker. cbn. rewrite String.eqb_refl. reflexivity. }
    split; [exact Hsel' |].
    split; [apply (@select_ids_in ticker); rewrite Hsel'; left; reflexivity |].
    split; [reflexivity |].
    split; [intros H; contradiction | intros _; split; reflexivity].
  - repeat (progress (unfold complete; simpl; rewrite ?Hff, ?Hsel)).
    eexists _, _, _, rest. split; [reflexivity |]. cbn [store].
    split; [exact Hsel |].
    split; [apply (@select_ids_in ticker); rewrite Hsel; left; reflexivity |].
    split; [reflexivity |].
    split; [intros _; split; reflexivity | discriminate].
Qed.

(** X16.  Two calls of [getStockId] of [index.js] for one ticker, one
    after the other and with no failure, return the same id; the first
    inserts the ticker with its name if the store did not have it, the second
    finds the row and changes nothing, whatever name it is given. *)
Theorem IndexJs_getStockId_twice_same_id ticker name1 name2 os i w :
  all_fault_free os ->
  let '(r1, w1, i1) := run (IndexJs.getStockId ticker name1) os i w in
  let '(r2, w2, _) := run (IndexJs.getStockId ticker name2) os i1 w1 in
  exists id rest,
    r1 = Ok id /\ r2 = Ok id /\
    Sql.select_stock_ids ticker (store w1) = id :: rest /\
    store w2 = store w1 /\
    (Sql.select_stock_ids ticker (store w) = [] ->
     stocks (store w2) = (stocks (store w) ++ [Sql.new_stock id ticker name1])%list /\
     rest = []).
Proof.
  intros Hff.
  destruct (@IndexJs_getStockId_resolves ticker name1 os i w Hff)
    as (id & w1 & i1 & rest & Hrun1 & Hsel1 & _ & _ & _ & Hnew).
  rewrite Hrun1.
  destruct (@IndexJs_getStockId_resolves ticker name2 os i1 w1 Hff)
    as (id' & w2 & i2 & rest' & Hrun2 & _ & _ & _ & Hold & _).
  rewrite Hrun2.
  destruct Hold as [Hst2 Hsame]; [rewrite Hsel1; discriminate |].
  rewrite Hsel1 in Hsame. injection Hsame as <- <-.
  exists id, rest. repeat split; try assumption.
  - rewrite Hst2. apply Hnew. assumption.
  - apply Hnew. assumption.
Qed.

(** One write of [index.js], with no failure *)
Lemma IndexJs_saveZacksRanking_run sid data ts os i w :
  all_fault_free os ->
  Sql.timestamp (get data "updatedAt") = Some ts ->
  Sql.references_stock sid (store w) = true ->
  exists w',
    run (IndexJs.saveZacksRanking sid data) os i w = (Ok tt, w', S i) /\
    stocks (store w') = stocks (store w) /\
    if existsb (Sql.has_key sid ts) (rankings (store w))
    then
      rankings (store w') = rankings (store w) /\
      In (ObsPrint (LogDuplicateEntry sid (get data "updatedAt"))) (log w')
    else
      rankings (store w') =
        (rankings (store w) ++
         [Sql.new_ranking (rankings_seq (store w) + 1) sid (get data "zacksRankText")
            (get data "zacksRank") ts])%list.
Proof.
  intros Hff Hts Href. unfold IndexJs.saveZacksRanking.
  repeat (progress (unfold complete; simpl; rewrite ?Hff, ?Hts, ?Href)).
  destruct (existsb (Sql.has_key sid ts) (rankings (store w))) eqn:Hex.
  - repeat (progress (unfold complete; simpl; rewrite ?Hff, ?Hts, ?Href)).
    eexists. split; [reflexivity |]. simpl. repeat split; try reflexivity. tauto.
  - repeat (progress (unfold complete; simpl; rewrite ?Hff, ?Hts, ?Href)).
    eexists. split; [reflexivity |]. simpl. repeat split; reflexivity.
Qed.

(** X17.  Two writes of [saveZacksRanking] of [index.js] for one stock
    and one timestamp the store had no row for, with no failure: the first
    inserts its row; the second violates the UNIQUE constraint, which the
    [catch] turns into a line of the log, and returns normally; the store is
    as the first write left it, the one row holding the label and rank of
    the first payload. *)
Theorem IndexJs_writer_keeps_first sid d1 d2 ts os i w :
  all_fault_free os ->
  Sql.timestamp (get d1 "updatedAt") = Some (Some ts) ->
  Sql.timestamp (get d2 "updatedAt") = Some (Some ts) ->
  Sql.references_stock sid (store w) = true ->
  observations sid ts (store w) = [] ->
  let '(r1, w1, i1) := run (IndexJs.saveZacksRanking sid d1) os i w in
  let '(r2, w2, _) := run (IndexJs.saveZacksRanking sid d2) os i1 w1 in
  r1 = Ok tt /\ r2 = Ok tt /\
  rankings (store w2) = rankings (store w1) /\
  (exists r,
     observations sid ts (store w2) = [r] /\
     rk_text r = get d1 "zacksRankText" /\ rk_rank r = get d1 "zacksRank") /\
  In (ObsPrint (LogDuplicateEntry sid (get d2 "updatedAt"))) (log w2).
Proof.
  intros Hff Ht1 Ht2 Href Hnone.
  destruct (@IndexJs_saveZacksRanking_run sid d1 (Some ts) os i w Hff Ht1 Href)
    as (w1 & Hrun1 & Hst1 & Hcase1).
  rewrite Hrun1.
  assert (Hex : existsb (Sql.has_key sid (Some ts)) (rankings (store w)) = false).
  { rewrite existsb_filter. unfold observations in Hnone. rewrite Hnone. reflexivity. }
  rewrite Hex in Hcase1.
  assert (Href1 : Sql.references_stock sid (store w1) = true)
    by (unfold Sql.references_stock in *; rewrite Hst1; exact Href).
  destruct (@IndexJs_saveZacksRanking_run sid d2 (Some ts) os (S i) w1 Hff Ht2 Href1)
    as (w2 & Hrun2 & Hst2 & Hcase2).
  rewrite Hrun2.
  assert (Hobs1 : observations sid ts (store w1) =
            [Sql.new_ranking (rankings_seq (store w) + 1) sid (get d1 "zacksRankText")
               (get d1 "zacksRank") (Some ts)]).
  { unfold observations in *. rewrite Hcase1, filter_app, Hnone. cbn.
    unfold Sql.has_key. cbn. rewrite !Z.eqb_refl. reflexivity. }
  assert (Hex1 : existsb (Sql.has_key sid (Some ts)) (rankings (store w1)) = true).
  { rewrite existsb_filter. unfold observations in Hobs1. rewrite Hobs1. reflexivity. }
  rewrite Hex1 in Hcase2. destruct Hcase2 as [Hr2 Hlog].
  split; [reflexivity |]. split; [reflexivity |]. split; [exact Hr2 |].
  split; [| exact Hlog].
  eexists. unfold observations in *. rewrite Hr2, Hobs1.
  split; [reflexivity |]. split; reflexivity.
Qed.

(** A program that fulfils returns, whatever the environment. *)
Lemma fulfils_run {A} (p : Async A) os i w :
  fulfils p -> exists a w' i', run p os i w = (Ok a, w', i').
Proof.
  intros H. revert i w.
  induction H as [a | R c k _ IH | R s k _ IH]; intros i w; cbn [run].
  - eexists _, _, _. reflexivity.
  - destruct (complete c (os i) w) as [r w1]. apply IH.
  - destruct (effect s w) as [r w1]. apply IH.
Qed.

(** X21.  The unit of work of [index.js] never rejects: whatever the
    provider and the store do, it returns. *)
Theorem IndexJs_row_never_rejects row os i w :
  exists w' i', run (IndexJs.rowUnit row) os i w = (Ok tt, w', i').
Proof.
  destruct (@fulfils_run _ (IndexJs.rowUnit row) os i w (IndexJs_rowUnit_fulfils row))
    as ([] & w' & i' & Hrun).
  exists w', i'. exact Hrun.
Qed.

(** X19.  In [index.js] a first reply that is falsy ([null],
    undefined, 0, an empty string) is reported as a failure to retrieve,
    after one call and no retry; the unit returns and the store is as it
    was. *)
Theorem IndexJs_falsy_reply_is_a_failure row v os i w :
  o_api (os i) = Ok v ->
  truthy v = false ->
  exists w',
    run (IndexJs.rowUnit row) os i w = (Ok tt, w', S i) /\
    store w' = store w /\
    log w' = ObsPrint (ErrFailedToRetrieve (row_ticker row))
               :: ObsGetData (row_ticker row) :: log w.
Proof.
  intros Hok Hfalsy.
  unfold IndexJs.rowUnit, try_catch, bindE. rewrite !run_bind.
  unfold IndexJs.getDataWithRetry, default_maxRetries.
  cbn [IndexJs.attempts Nat.leb]. cbn [bind await run]. unfold complete.
  cbn [answer]. rewrite Hok. cbn [bind ret run]. rewrite Hfalsy.
  cbn. eexists. split; [reflexivity |]. split; reflexivity.
Qed.

(** X20.  In [index.js] a truthy first reply is stored as it comes,
    when nothing fails and no row has its timestamp: the stock is resolved
    and a row of [zacks_rankings] is added with the reply's [zacksRankText],
    [zacksRank] and [updatedAt], a field the reply lacks being stored as
    NULL.  So a reply that is no record at all, a string for instance, adds
    a row of NULLs. *)
Theorem IndexJs_row_is_stored_as_it_comes row v ts os i w :
  all_fault_free os ->
  o_api (os i) = Ok v ->
  truthy v = true ->
  Sql.timestamp (get v "updatedAt") = Some ts ->
  (forall sid, existsb (Sql.has_key sid ts) (rankings (store w)) = false) ->
  exists w' i' sid rest id,
    run (IndexJs.rowUnit row) os i w = (Ok tt, w', i') /\
    Sql.select_stock_ids (row_ticker row) (store w') = sid :: rest /\
    rankings (store w') =
      (rankings (store w) ++
       [Sql.new_ranking id sid (get v "zacksRankText") (get v "zacksRank") ts])%list.
Proof.
  intros Hff Hok Htruthy Hts Hfresh.
  unfold IndexJs.rowUnit, try_catch, bindE. rewrite !run_bind.
  destruct (@IndexJs_attempts_first_reply (row_ticker row) default_maxRetries default_delay
              os v 0%nat default_maxRetries 1%nat i w)
    as (w1 & Hrun1 & _ & _ & _ & Hs1 & _);
    try (unfold default_maxRetries; lia).
  { replace (i + 2 * 0)%nat with i by lia. exact Hok. }
  replace (i + 2 * 0)%nat with i in Hrun1 by lia.
  unfold IndexJs.getDataWithRetry. rewrite Hrun1, Htruthy. rewrite run_bind.
  destruct (@IndexJs_getStockId_resolves (row_ticker row) (row_name row) os (S i) w1 Hff)
    as (sid & w2 & i2 & rest & Hrun2 & Hsel & Href & Hrk & _ & _).
  rewrite Hrun2.
  destruct (@IndexJs_saveZacksRanking_run sid v ts os i2 w2 Hff Hts Href)
    as (w3 & Hrun3 & Hst3 & Hcase).
  rewrite Hrun3. cbn [run].
  rewrite Hrk, Hs1, Hfresh in Hcase.
  exists w3, (S i2), sid, rest, (rankings_seq (store w2) + 1). split; [reflexivity |].
  split; [unfold Sql.select_stock_ids in *; rewrite Hst3; exact Hsel |].
  exact Hcase.
Qed.

End EarlierFunctions.

Lemma IndexJs_fetch_retry_bound_witness :
  exists w' i',
    run (IndexJs.getDataWithRetry "AAPL" 3 1000)
        (fun _ => answers (Throw (ExnApi 0))) 0 initial_world = (Ok Null, w', i') /\
    api_calls w' = 3%nat /\ delays w' = 2%nat /\ delays_of 1000 w' = 2%nat.
Proof.
  destruct (@IndexJs_fetch_retry_bound sample_platform "AAPL" 3 1000
              (fun _ => answers (Throw (ExnApi 0))) 0%nat initial_world
              (fun j => ex_intro _ (ExnApi 0) eq_refl))
    as (w' & i' & Hrun & Ha & Hd & Hf).
  exists w', i'. repeat split; assumption.
Defined.

Lemma IndexJs_fetch_returns_first_reply_witness :
  exists w',
    run (IndexJs.getDataWithRetry "AAPL" 3 1000)
        (fun j => if (j <? 2)%nat then answers (Throw (ExnApi j))
                  else answers (Ok (Str "Service Unavailable")))
        0 initial_world = (Ok (Str "Service Unavailable"), w', 3%nat) /\
    api_calls w' = 2%nat /\ delays w' = 1%nat.
Proof.
  destruct (@IndexJs_fetch_returns_first_reply sample_platform "AAPL" 3 1000
              (fun j => if (j <? 2)%nat then answers (Throw (ExnApi j))
                        else answers (Ok (Str "Service Unavailable")))
              0%nat initial_world (Str "Service Unavailable") 1%nat)
    as (w' & Hrun & Ha & Hd & _).
  - lia.
  - intros j Hj. destruct j as [| j]; [eexists; reflexivity | lia].
  - reflexivity.
  - exists w'. repeat split; assumption.
Defined.

Lemma IndexJs_getStockId_twice_same_id_witness :
  exists w1 w2 i1 i2,
    run (IndexJs.getStockId "AAPL" "Apple") (fun _ => quiet) 0 initial_world =
      (Ok 1, w1, i1) /\
    run (IndexJs.getStockId "AAPL" "Apple Inc.") (fun _ => quiet) i1 w1 = (Ok 1, w2, i2) /\
    stocks (store w2) = [Sql.new_stock 1 "AAPL" "Apple"].
Proof.
  pose proof (@IndexJs_getStockId_twice_same_id sample_platform "AAPL" "Apple" "Apple Inc."
                (fun _ => quiet) 0%nat initial_world (fun _ => eq_refl)) as H.
  destruct (run (IndexJs.getStockId "AAPL" "Apple") (fun _ => quiet) 0 initial_world)
    as [[r1 w1] i1] eqn:E1.
  destruct (run (IndexJs.getStockId "AAPL" "Apple Inc.") (fun _ => quiet) i1 w1)
    as [[r2 w2] i2] eqn:E2.
  destruct H as (id & rest & -> & -> & _ & _ & Hnew).
  destruct (Hnew eq_refl) as [Hst _].
  exists w1, w2, i1, i2.
  vm_compute in E1. injection E1 as Hid <- <-.
  vm_compute in E2. injection E2 as _ <- <-.
  subst id. repeat split; reflexivity.
Defined.

Lemma IndexJs_writer_keeps_first_witness :
  let w := {| counters := zero_counters;
              store := {| stocks := [Sql.new_stock 1 "AAPL" "Apple"]; stocks_seq := 1;
                          rankings := []; rankings_seq := 0 |};
              clock := 0; log := [] |} in
  let d1 := Obj [("zacksRankText", Str "Buy"); ("zacksRank", Number (Num 1));
                 ("updatedAt", Str "2024-01-02")] in
  let d2 := Obj [("zacksRankText", Str "Hold"); ("zacksRank", Number (Num 3));
                 ("updatedAt", Str "2024-01-02")] in
  let '(r1, w1, i1) := run (IndexJs.saveZacksRanking 1 d1) (fun _ => quiet) 0 w in
  let '(r2, w2, _) := run (IndexJs.saveZacksRanking 1 d2) (fun _ => quiet) i1 w1 in
  r1 = Ok tt /\ r2 = Ok tt /\
  rankings (store w2) = rankings (store w1) /\
  (exists r,
     observations 1 1704153600000 (store w2) = [r] /\
     rk_text r = Str "Buy" /\ rk_rank r = Number (Num 1)) /\
  In (ObsPrint (LogDuplicateEntry 1 (Str "2024-01-02"))) (log w2).
Proof.
  exact (@IndexJs_writer_keeps_first sample_platform 1
           (Obj [("zacksRankText", Str "Buy"); ("zacksRank", Number (Num 1));
                 ("updatedAt", Str "2024-01-02")])
           (Obj [("zacksRankText", Str "Hold"); ("zacksRank", Number (Num 3));
                 ("updatedAt", Str "2024-01-02")])
           1704153600000 (fun _ => quiet) 0%nat
           {| counters := zero_counters;
              store := {| stocks := [Sql.new_stock 1 "AAPL" "Apple"]; stocks_seq := 1;
                          rankings := []; rankings_seq := 0 |};
              clock := 0; log := [] |}
           (fun _ => eq_refl) eq_refl eq_refl eq_refl eq_refl).
Defined.

Lemma IndexJs_falsy_reply_is_a_failure_witness :
  exists w',
    run (IndexJs.rowUnit {| row_ticker := "ZZZ"; row_name := "None" |})
        (fun _ => answers (Ok Null)) 0 initial_world = (Ok tt, w', 1%nat) /\
    store w' = empty_store /\
    log w' = [ObsPrint (ErrFailedToRetrieve "ZZZ"); ObsGetData "ZZZ"].
Proof.
  exact (@IndexJs_falsy_reply_is_a_failure sample_platform
           {| row_ticker := "ZZZ"; row_name := "None" |} Null
           (fun _ => answers (Ok Null)) 0%nat initial_world eq_refl eq_refl).
Defined.

Lemma IndexJs_row_is_stored_as_it_comes_witness :
  exists w' i' sid rest id,
    run (IndexJs.rowUnit {| row_ticker := "AAPL"; row_name := "Apple" |})
        (fun _ => answers (Ok (Str "Service Unavailable"))) 0 initial_world =
      (Ok tt, w', i') /\
    Sql.select_stock_ids "AAPL" (store w') = sid :: rest /\
    rankings (store w') = [Sql.new_ranking id sid Undefined Undefined None].
Proof.
  exact (@IndexJs_row_is_stored_as_it_comes sample_platform
           {| row_ticker := "AAPL"; row_name := "Apple" |} (Str "Service Unavailable") None
           (fun _ => answers (Ok (Str "Service Unavailable"))) 0%nat initial_world
           (fun _ => eq_refl) eq_refl eq_refl eq_refl (fun _ => eq_refl)).
Defined.

(** ** Setting the database up *)

Section SetupFacts.
Import DbSetup.

Lemma find_db_put_same n db c : find_db n (put_db n db c) = Some db.
Proof.
  induction c as [| [m d] c IH]; simpl.
  - rewrite String.eqb_refl. reflexivity.
  - destruct (String.eqb m n) eqn:E; simpl; rewrite E; auto.
Qed.

Lemma find_db_put_other n n' db c :
  n' <> n -> find_db n' (put_db n db c) = find_db n' c.
Proof.
  intros Hne. induction c as [| [m d] c IH]; simpl.
  - destruct (String.eqb n n') eqn:E; [| reflexivity].
    apply String.eqb_eq in E. congruence.
  - destruct (String.eqb m n) eqn:E; simpl.
    + apply String.eqb_eq in E. subst m.
      destruct (String.eqb n n') eqn:E'; [| reflexivity].
      apply String.eqb_eq in E'. congruence.
    + destruct (String.eqb m n'); auto.
Qed.

Lemma find_db_app n c c' :
  find_db n (c ++ c')%list =
  match find_db n c with Some d => Some d | None => find_db n c' end.
Proof.
  induction c as [| [m d] c IH]; simpl; [reflexivity |].
  destruct (String.eqb m n); auto.
Qed.

Lemma put_db_same n db c : find_db n c = Some db -> put_db n db c = c.
Proof.
  induction c as [| [m d] c IH]; simpl; [discriminate |].
  destruct (String.eqb m n) eqn:E.
  - intros H. injection H as ->. reflexivity.
  - intros H. rewrite (IH H). reflexivity.
Qed.

Lemma create_tables_twice db : create_tables (create_tables db) = create_tables db.
Proof. destruct db as [[t |] [r |]]; reflexivity. Qed.

Variable pg_identifier : string -> option string.

(** What a run of [setupDatabase] without fault does, by whether the
    database is there. *)
Lemma setupDatabase_run name c tr :
  pg_identifier name = Some name ->
  exists_db postgres c = true ->
  run pg_identifier (setupDatabase name) no_fault 0 {| cluster := c; trace := tr |} =
  match find_db name c with
  | Some db =>
      (Ok tt,
       {| cluster := put_db name (create_tables db) c;
          trace := [ObsEnd name; ObsLog LogTablesCreated; ObsQuery name CreateTables;
                    ObsEnd postgres; ObsQuery postgres (SelectDatabase name)] ++ tr |})
  | None =>
      (Ok tt,
       {| cluster := (c ++ [(name, create_tables no_tables)])%list;
          trace := [ObsEnd name; ObsLog LogTablesCreated; ObsQuery name CreateTables;
                    ObsEnd postgres; ObsLog (LogDatabaseCreated name);
                    ObsQuery postgres (CreateDatabase name);
                    ObsQuery postgres (SelectDatabase name)] ++ tr |})
  end.
Proof.
  intros Hid Hpg. unfold exists_db in Hpg.
  destruct (find_db postgres c) as [pg |] eqn:Hfind; [| discriminate].
  unfold setupDatabase, and_then, finally, wait, no_fault.
  cbn [then_ run answer cluster trace obs_of]. unfold exec at 1. rewrite Hfind.
  unfold exists_db.
  destruct (find_db name c) as [db |] eqn:Hname.
  - cbn [Nat.eqb then_ run answer cluster trace obs_of].
    unfold exec. rewrite Hname. reflexivity.
  - cbn [Nat.eqb then_ run answer cluster trace obs_of].
    unfold exec at 1. rewrite Hfind, Hid. unfold exists_db. rewrite Hname.
    cbn [then_ run answer cluster trace obs_of].
    unfold exec. rewrite find_db_app, Hname. cbn [find_db]. rewrite String.eqb_refl.
    cbn [then_ run answer cluster trace obs_of].
    f_equal. f_equal.
    assert (Hput : forall d, put_db name d (c ++ [(name, no_tables)])%list =
                             (c ++ [(name, d)])%list).
    { intros d. clear Hfind Hpg. induction c as [| [m x] c IH]; simpl.
      - rewrite String.eqb_refl. reflexivity.
      - simpl in Hname. destruct (String.eqb m name); [discriminate |].
        rewrite (IH Hname). reflexivity. }
    apply Hput.
Qed.

Ltac setup_paths faults :=
  unfold setupDatabase, and_then, finally, wait;
  cbn [then_ run answer cluster trace obs_of];
  repeat (first
    [ match goal with
      | |- context [match faults ?i with _ => _ end] => destruct (faults i)
      | |- context [exec _ _ _ _] => unfold exec
      | |- context [match find_db ?n ?c with _ => _ end] =>
          let db := fresh "db" in let E := fresh "Hfind" in
          destruct (find_db n c) as [db |] eqn:E
      | |- context [match pg_identifier ?t with _ => _ end] =>
          let n := fresh "n" in let E := fresh "Hident" in
          destruct (pg_identifier t) as [n |] eqn:E
      | |- context [if exists_db ?n ?c then _ else _] =>
          let E := fresh "Hex" in destruct (exists_db n c) eqn:E
      end
    | progress cbn [Nat.eqb then_ run answer cluster trace obs_of] ]).

(** Whatever fails, [setupDatabase] leaves the rows of every table that was
    there as they were, and when it resolves the application's database has
    both tables. *)
Lemma setupDatabase_keeps name faults s n db :
  find_db n (cluster s) = Some db ->
  exists db',
    find_db n (cluster (snd (run pg_identifier (setupDatabase name) faults 0 s))) = Some db' /\
    (forall t, tbl_stocks db = Some t -> tbl_stocks db' = Some t) /\
    (forall t, tbl_rankings db = Some t -> tbl_rankings db' = Some t).
Proof.
  intros Hn.
  assert (Hsame : exists db', find_db n (cluster s) = Some db' /\
            (forall t, tbl_stocks db = Some t -> tbl_stocks db' = Some t) /\
            (forall t, tbl_rankings db = Some t -> tbl_rankings db' = Some t))
    by (exists db; auto).
  assert (Hput : forall c d, find_db n c = Some db -> find_db name c = Some d ->
            exists db', find_db n (put_db name (create_tables d) c) = Some db' /\
              (forall t, tbl_stocks db = Some t -> tbl_stocks db' = Some t) /\
              (forall t, tbl_rankings db = Some t -> tbl_rankings db' = Some t)).
  { intros c d Hc Hd. destruct (String.eqb n name) eqn:E.
    - apply String.eqb_eq in E. subst n. rewrite find_db_put_same.
      eexists. split; [reflexivity |]. rewrite Hc in Hd. injection Hd as <-.
      split; intros t Ht; cbn; rewrite Ht; reflexivity.
    - apply String.eqb_neq in E. rewrite find_db_put_other by exact E.
      exists db. auto. }
  destruct s as [c tr]. cbn [cluster] in *.
  setup_paths faults; cbn [snd cluster]; try exact Hsame;
    try (apply Hput; assumption).
  all: try (apply Hput; [rewrite find_db_app, Hn; reflexivity | assumption]).
  all: rewrite find_db_app, Hn; exists db; auto.
Qed.

Lemma setupDatabase_completes name faults s :
  fst (run pg_identifier (setupDatabase name) faults 0 s) = Ok tt ->
  exists db t r,
    find_db name (cluster (snd (run pg_identifier (setupDatabase name) faults 0 s))) = Some db /\
    tbl_stocks db = Some t /\ tbl_rankings db = Some r.
Proof.
  assert (Hdone : forall c d,
            exists db t r, find_db name (put_db name (create_tables d) c) = Some db /\
              tbl_stocks db = Some t /\ tbl_rankings db = Some r).
  { intros c d. rewrite find_db_put_same.
    destruct d as [[t |] [r |]]; cbn; eexists _, _, _; repeat split; reflexivity. }
  destruct s as [c tr].
  setup_paths faults; cbn [fst snd cluster]; intros Hok; try discriminate Hok;
    apply Hdone.
Qed.

(** X22.  Whatever fails during [setupDatabase], and whatever name the server
    reads in the CREATE DATABASE text: every database that was there is
    still there, and every table that was there has the rows it had (nothing
    is dropped or emptied); and when [setupDatabase] resolves, the
    application's database exists and has both tables. *)
Theorem setup_is_safe name faults s :
  let '(r, s') := run pg_identifier (setupDatabase name) faults 0 s in
  (forall n db,
     find_db n (cluster s) = Some db ->
     exists db',
       find_db n (cluster s') = Some db' /\
       (forall t, tbl_stocks db = Some t -> tbl_stocks db' = Some t) /\
       (forall t, tbl_rankings db = Some t -> tbl_rankings db' = Some t)) /\
  (r = Ok tt ->
   exists db t rk,
     find_db name (cluster s') = Some db /\
     tbl_stocks db = Some t /\ tbl_rankings db = Some rk).
Proof.
  pose proof (setupDatabase_keeps name faults s) as Hkeep.
  pose proof (setupDatabase_completes name faults s) as Hdone.
  destruct (run pg_identifier (setupDatabase name) faults 0 s) as [r s'].
  cbn [fst snd] in *. split.
  - intros n db Hn. apply (Hkeep n db Hn).
  - intros ->. apply Hdone. reflexivity.
Qed.

(** X23.  [setupDatabase] when nothing fails and the server reads the name as
    it is written: the database is created if it was not there (and only
    then), each of the two tables is created empty if it was not there and
    kept with its rows otherwise, and no other database is touched.  A second
    run changes nothing: it creates no database and leaves the server as the
    first run left it. *)
Theorem setup_creates_what_is_missing name c :
  pg_identifier name = Some name ->
  exists_db postgres c = true ->
  let before := match find_db name c with Some db => db | None => no_tables end in
  let '(r1, s1) :=
    run pg_identifier (setupDatabase name) no_fault 0 {| cluster := c; trace := [] |} in
  let '(r2, s2) :=
    run pg_identifier (setupDatabase name) no_fault 0
        {| cluster := cluster s1; trace := [] |} in
  r1 = Ok tt /\
  find_db name (cluster s1) =
    Some {| tbl_stocks := Some (table_or_new (tbl_stocks before));
            tbl_rankings := Some (table_or_new (tbl_rankings before)) |} /\
  (forall n, n <> name -> find_db n (cluster s1) = find_db n c) /\
  tally is_create_database s1 = (if exists_db name c then 0 else 1)%nat /\
  r2 = Ok tt /\ cluster s2 = cluster s1 /\ tally is_create_database s2 = 0%nat.
Proof.
  intros Hid Hpg before.
  rewrite (@setupDatabase_run name c [] Hid Hpg).
  assert (Hshape : forall db,
            create_tables db =
            {| tbl_stocks := Some (table_or_new (tbl_stocks db));
               tbl_rankings := Some (table_or_new (tbl_rankings db)) |}).
  { intros [[t |] [r |]]; reflexivity. }
  unfold exists_db in *.
  destruct (find_db name c) as [db |] eqn:Hname; subst before.
  - assert (Hpg1 : match find_db postgres (put_db name (create_tables db) c) with
                   | Some _ => true | None => false end = true).
    { destruct (String.eqb postgres name) eqn:E.
      - apply String.eqb_eq in E. rewrite E, find_db_put_same. reflexivity.
      - apply String.eqb_neq in E. rewrite find_db_put_other by exact E. exact Hpg. }
    cbv beta iota. cbn [cluster].
    rewrite (@setupDatabase_run name _ [] Hid Hpg1).
    rewrite find_db_put_same, create_tables_twice.
    rewrite (@put_db_same name (create_tables db) (put_db name (create_tables db) c))
      by apply find_db_put_same.
    split; [reflexivity |]. split; [rewrite Hshape; reflexivity |].
    split; [intros n Hn; apply find_db_put_other; exact Hn |].
    repeat split; reflexivity.
  - assert (Hfind1 : find_db name (c ++ [(name, create_tables no_tables)])%list =
                     Some (create_tables no_tables)).
    { rewrite find_db_app, Hname. cbn. rewrite String.eqb_refl. reflexivity. }
    assert (Hpg1 : match find_db postgres (c ++ [(name, create_tables no_tables)])%list with
                   | Some _ => true | None => false end = true).
    { rewrite find_db_app. destruct (find_db postgres c); [reflexivity | discriminate]. }
    cbv beta iota. cbn [cluster].
    rewrite (@setupDatabase_run name _ [] Hid Hpg1).
    rewrite Hfind1, create_tables_twice.
    rewrite (@put_db_same name (create_tables no_tables)
               (c ++ [(name, create_tables no_tables)])%list) by exact Hfind1.
    split; [reflexivity |]. split; [reflexivity |].
    split.
    { intros n Hn. rewrite find_db_app.
      destruct (find_db n c); [reflexivity |]. cbn.
      destruct (String.eqb name n) eqn:E; [| reflexivity].
      apply String.eqb_eq in E. congruence. }
    repeat split; reflexivity.
Qed.

(** X24.  [setupDatabase] ends every pool it has used, whatever fails: the
    pool on the maintenance database once, after its last statement, and the
    pool on the application's database once when the table statement was
    sent on it and not at all otherwise; the last thing it does is to end a
    pool. *)
Theorem setup_ends_its_pools name faults s :
  String.eqb name postgres = false ->
  let '(_, s') := run pg_identifier (setupDatabase name) faults 0 s in
  tally (is_end_of postgres) s' = S (tally (is_end_of postgres) s) /\
  (tally is_create_tables s' = tally is_create_tables s /\
   tally (is_end_of name) s' = tally (is_end_of name) s \/
   tally is_create_tables s' = S (tally is_create_tables s) /\
   tally (is_end_of name) s' = S (tally (is_end_of name) s)) /\
  exists d rest, trace s' = ObsEnd d :: rest.
Proof.
  intros Hne.
  assert (Hne' : String.eqb postgres name = false)
    by (rewrite String.eqb_sym; exact Hne).
  destruct s as [c tr].
  setup_paths faults; unfold tally; cbn [trace filter is_end_of is_create_tables];
    rewrite ?String.eqb_refl, ?Hne, ?Hne'; cbn [List.length];
    (split; [reflexivity |]); (split; [| eexists _, _; reflexivity]);
    first [left; split; reflexivity | right; split; reflexivity].
Qed.

(** X25.  When the server reads in the CREATE DATABASE text another name than
    the one written (an unquoted name with a capital letter is folded), and
    neither database is there: [setupDatabase] creates the database of the
    other name, fails to connect to the one written, so that no table is
    created, and rejects; and so it does again on every later run, the
    CREATE DATABASE then failing on the database the first run left. *)
Theorem setup_with_a_folded_name name name' c :
  pg_identifier name = Some name' ->
  name' <> name ->
  exists_db postgres c = true ->
  exists_db name c = false -> exists_db name' c = false ->
  let '(r1, s1) :=
    run pg_identifier (setupDatabase name) no_fault 0 {| cluster := c; trace := [] |} in
  let '(r2, s2) :=
    run pg_identifier (setupDatabase name) no_fault 0
        {| cluster := cluster s1; trace := [] |} in
  r1 = Throw (ExnDb invalid_catalog_name) /\
  cluster s1 = (c ++ [(name', no_tables)])%list /\
  r2 = Throw (ExnDb duplicate_database) /\
  cluster s2 = cluster s1 /\
  tally is_create_tables s2 = 0%nat.
Proof.
  intros Hid Hne Hpg Hname Hname'. unfold exists_db in *.
  destruct (find_db postgres c) as [pg |] eqn:Hfpg; [| discriminate].
  destruct (find_db name c) eqn:Hfn; [discriminate |].
  destruct (find_db name' c) eqn:Hfn'; [discriminate |].
  assert (Hne2 : String.eqb name' name = false) by (apply String.eqb_neq; exact Hne).
  unfold setupDatabase, and_then, finally, wait, no_fault.
  cbn [then_ run answer cluster trace obs_of].
  unfold exec at 1. rewrite Hfpg. unfold exists_db. rewrite Hfn.
  cbn [Nat.eqb then_ run answer cluster trace obs_of].
  unfold exec at 1. rewrite Hfpg, Hid. unfold exists_db. rewrite Hfn'.
  cbn [then_ run answer cluster trace obs_of].
  unfold exec at 1. rewrite find_db_app, Hfn. cbn [find_db]. rewrite Hne2.
  cbn [then_ run answer cluster trace obs_of].
  unfold exec at 1. rewrite find_db_app, Hfpg. unfold exists_db.
  rewrite find_db_app, Hfn. cbn [find_db]. rewrite Hne2.
  cbn [Nat.eqb then_ run answer cluster trace obs_of].
  unfold exec at 1. rewrite find_db_app, Hfpg, Hid. unfold exists_db.
  rewrite find_db_app, Hfn'. cbn [find_db]. rewrite String.eqb_refl.
  cbn [then_ run answer cluster trace obs_of].
  repeat split; reflexivity.
Qed.

End SetupFacts.

Lemma setup_creates_what_is_missing_witness :
  let c := [("postgres", DbSetup.no_tables)] in
  let '(r1, s1) :=
    DbSetup.run (fun s => Some s) (DbSetup.setupDatabase "zacks") DbSetup.no_fault 0
      {| DbSetup.cluster := c; DbSetup.trace := [] |} in
  let '(r2, s2) :=
    DbSetup.run (fun s => Some s) (DbSetup.setupDatabase "zacks") DbSetup.no_fault 0
      {| DbSetup.cluster := DbSetup.cluster s1; DbSetup.trace := [] |} in
  r1 = Ok tt /\
  DbSetup.find_db "zacks" (DbSetup.cluster s1) =
    Some {| DbSetup.tbl_stocks := Some ([], 0); DbSetup.tbl_rankings := Some ([], 0) |} /\
  (forall n, n <> "zacks" -> DbSetup.find_db n (DbSetup.cluster s1) = DbSetup.find_db n c) /\
  DbSetup.tally DbSetup.is_create_database s1 = 1%nat /\
  r2 = Ok tt /\ DbSetup.cluster s2 = DbSetup.cluster s1 /\
  DbSetup.tally DbSetup.is_create_database s2 = 0%nat.
Proof.
  exact (@setup_creates_what_is_missing (fun s => Some s) "zacks"
           [("postgres", DbSetup.no_tables)] eq_refl eq_refl).
Defined.

Lemma setup_ends_its_pools_witness :
  let '(r, s') :=
    DbSetup.run (fun s => Some s) (DbSetup.setupDatabase "zacks")
      (fun i => if (i =? 0)%nat then Some (ExnDb "57P03") else None) 0
      {| DbSetup.cluster := [("postgres", DbSetup.no_tables)]; DbSetup.trace := [] |} in
  r = Throw (ExnDb "57P03") /\
  DbSetup.tally (DbSetup.is_end_of "postgres") s' = 1%nat /\
  DbSetup.tally (DbSetup.is_end_of "zacks") s' = 0%nat.
Proof.
  pose proof (@setup_ends_its_pools (fun s => Some s) "zacks"
                (fun i => if (i =? 0)%nat then Some (ExnDb "57P03") else None)
                {| DbSetup.cluster := [("postgres", DbSetup.no_tables)];
                   DbSetup.trace := [] |} eq_refl) as H.
  destruct (DbSetup.run _ _ _ _ _) as [r s'] eqn:E.
  destruct H as (H1 & _ & _).
  vm_compute in E. injection E as <- <-.
  split; [reflexivity |]. split; [exact H1 | reflexivity].
Defined.

Lemma setup_with_a_folded_name_witness :
  let fold := fun s => if String.eqb s "Zacks" then Some "zacks" else Some s in
  let '(r1, s1) :=
    DbSetup.run fold (DbSetup.setupDatabase "Zacks") DbSetup.no_fault 0
      {| DbSetup.cluster := [("postgres", DbSetup.no_tables)]; DbSetup.trace := [] |} in
  let '(r2, s2) :=
    DbSetup.run fold (DbSetup.setupDatabase "Zacks") DbSetup.no_fault 0
      {| DbSetup.cluster := DbSetup.cluster s1; DbSetup.trace := [] |} in
  r1 = Throw (ExnDb DbSetup.invalid_catalog_name) /\
  DbSetup.cluster s1 = [("postgres", DbSetup.no_tables); ("zacks", DbSetup.no_tables)] /\
  r2 = Throw (ExnDb DbSetup.duplicate_database) /\
  DbSetup.cluster s2 = DbSetup.cluster s1 /\
  DbSetup.tally DbSetup.is_create_tables s2 = 0%nat.
Proof.
  exact (@setup_with_a_folded_name
           (fun s => if String.eqb s "Zacks" then Some "zacks" else Some s)
           "Zacks" "zacks" [("postgres", DbSetup.no_tables)]
           eq_refl ltac:(discriminate) eq_refl eq_refl eq_refl).
Defined.

(** ** The run of the earlier program *)

Lemma pool_free_bind {A B} (p : Prog A) (f : A -> Prog B) :
  pool_free p -> (forall a, pool_free (f a)) -> pool_free (bind p f).
Proof.
  intros Hp Hf. induction Hp as [a | R c k Hc _ IH | R s k Hs _ IH]; cbn [bind].
  - apply Hf.
  - constructor; assumption.
  - constructor; assumption.
Qed.

Ltac pool_free_step :=
  match goal with
  | |- forall _, _ => intro
  | |- pool_free (bind _ _) => apply pool_free_bind
  | |- pool_free (Ret _) => constructor
  | |- pool_free (Await _ _) => constructor; [reflexivity |]
  | |- pool_free (Do _ _) => constructor; [reflexivity |]
  | |- pool_free (match ?x with _ => _ end) => destruct x
  | |- pool_free (if ?b then _ else _) => destruct b
  | |- pool_free _ =>
      progress (unfold bindE, try_catch, try_finally, await, perform, query, print, tick,
                ret, throw, first_row)
  end.

Lemma tick_free_bind {A B} (p : Prog A) (f : A -> Prog B) :
  tick_free p -> (forall a, tick_free (f a)) -> tick_free (bind p f).
Proof.
  intros Hp Hf. induction Hp as [a | R c k _ IH | R s k Hs _ IH]; cbn [bind].
  - apply Hf.
  - constructor; assumption.
  - constructor; assumption.
Qed.

Ltac tick_free_step :=
  match goal with
  | |- forall _, _ => intro
  | |- tick_free (bind _ _) => apply tick_free_bind
  | |- tick_free (Ret _) => constructor
  | |- tick_free (Await _ _) => constructor
  | |- tick_free (Do _ _) => constructor; [reflexivity |]
  | |- tick_free (match ?x with _ => _ end) => destruct x
  | |- tick_free (if ?b then _ else _) => destruct b
  | |- tick_free _ =>
      progress (unfold bindE, try_catch, try_finally, await, perform, query, print, tick,
                ret, throw, first_row)
  end.

Section OneClient.
Context {P : Platform}.

Lemma pool_free_attempts ticker maxRetries delay fuel n :
  pool_free (IndexJs.attempts ticker maxRetries delay fuel n).
Proof.
  revert n. induction fuel as [| fuel IH]; intros n; cbn [IndexJs.attempts].
  - repeat pool_free_step.
  - destruct (n <=? maxRetries)%nat; [| repeat pool_free_step].
    unfold await. cbn [bind]. constructor; [reflexivity |].
    intros [data | e]; [repeat pool_free_step |].
    cbn [bind print perform]. constructor; [reflexivity |]. intros _.
    apply pool_free_bind; [| intros _; apply IH].
    destruct (n <? maxRetries)%nat; repeat pool_free_step.
Qed.

Lemma pool_free_rowUnit row : pool_free (IndexJs.rowUnit row).
Proof.
  unfold IndexJs.rowUnit, try_catch, bindE.
  apply pool_free_bind; [| repeat pool_free_step].
  apply pool_free_bind; [apply pool_free_attempts |].
  intros [data | e]; [| repeat pool_free_step].
  destruct (truthy data); [| repeat pool_free_step].
  unfold IndexJs.getStockId, IndexJs.saveZacksRanking.
  repeat pool_free_step.
Qed.

Lemma pool_free_advance {A} (p : Prog A) w :
  pool_free p ->
  pool_free (fst (advance p w)) /\
  connects (snd (advance p w)) = connects w /\
  releases (snd (advance p w)) = releases w.
Proof.
  intros Hp. revert w.
  induction Hp as [a | R c k Hc Hk IH | R s k Hs Hk IH]; intros w; cbn [advance fst snd].
  - split; [constructor | split; reflexivity].
  - split; [constructor; assumption | split; reflexivity].
  - destruct s; try discriminate Hs; cbn [effect];
      match goal with |- context [advance (k ?r) ?w1] =>
        destruct (IH r w1) as (H1 & H2 & H3);
        destruct (advance (k r) w1) as [p' w']; cbn [fst snd] in *
      end;
      (split; [exact H1 |]); rewrite H2, H3; count_obs; split; reflexivity.
Qed.

Lemma pool_free_resume {A} (p : Prog A) o w :
  pool_free p ->
  pool_free (fst (resume o p w)) /\
  connects (snd (resume o p w)) = connects w /\
  releases (snd (resume o p w)) = releases w.
Proof.
  intros Hp. destruct Hp as [a | R c k Hc Hk | R s k Hs Hk]; cbn [resume fst snd].
  - split; [constructor | split; reflexivity].
  - unfold complete. destruct (answer c o (store w)) as [r st].
    match goal with |- context [advance (k r) ?w1] =>
      destruct (@pool_free_advance _ (k r) w1 (Hk r)) as (H1 & H2 & H3)
    end.
    split; [exact H1 |]. rewrite H2, H3.
    destruct c; try discriminate Hc; count_obs; split; reflexivity.
  - split; [constructor; assumption | split; reflexivity].
Qed.

Lemma tick_free_attempts ticker maxRetries delay fuel n :
  tick_free (IndexJs.attempts ticker maxRetries delay fuel n).
Proof.
  revert n. induction fuel as [| fuel IH]; intros n; cbn [IndexJs.attempts].
  - repeat tick_free_step.
  - destruct (n <=? maxRetries)%nat; [| repeat tick_free_step].
    unfold await. cbn [bind]. constructor.
    intros [data | e]; [repeat tick_free_step |].
    cbn [bind print perform]. constructor; [reflexivity |]. intros _.
    apply tick_free_bind; [| intros _; apply IH].
    destruct (n <? maxRetries)%nat; repeat tick_free_step.
Qed.

(** The unit of [index.js] moves no counter: it has none. *)
Lemma tick_free_rowUnit row : tick_free (IndexJs.rowUnit row).
Proof.
  unfold IndexJs.rowUnit, try_catch, bindE.
  apply tick_free_bind; [| repeat tick_free_step].
  apply tick_free_bind; [apply tick_free_attempts |].
  intros [data | e]; [| repeat tick_free_step].
  destruct (truthy data); [| repeat tick_free_step].
  unfold IndexJs.getStockId, IndexJs.saveZacksRanking.
  repeat tick_free_step.
Qed.

Lemma tick_free_advance {A} (p : Prog A) w :
  tick_free p ->
  tick_free (fst (advance p w)) /\ counters (snd (advance p w)) = counters w.
Proof.
  intros Hp. revert w.
  induction Hp as [a | R c k Hk IH | R s k Hs Hk IH]; intros w; cbn [advance fst snd].
  - split; [constructor | reflexivity].
  - split; [constructor; assumption | reflexivity].
  - destruct s; try discriminate Hs; cbn [effect];
      match goal with |- context [advance (k ?r) ?w1] =>
        destruct (IH r w1) as (H1 & H2)
      end; (split; [exact H1 | rewrite H2; reflexivity]).
Qed.

Lemma tick_free_resume {A} (p : Prog A) o w :
  tick_free p ->
  tick_free (fst (resume o p w)) /\ counters (snd (resume o p w)) = counters w.
Proof.
  intros Hp. destruct Hp as [a | R c k Hk | R s k Hs Hk]; cbn [resume fst snd].
  - split; [constructor | reflexivity].
  - unfold complete. destruct (answer c o (store w)) as [r st].
    match goal with |- context [advance (k r) ?w1] =>
      destruct (@tick_free_advance _ (k r) w1 (Hk r)) as (H1 & H2)
    end.
    split; [exact H1 | rewrite H2; reflexivity].
  - split; [constructor; assumption | reflexivity].
Qed.

Lemma IndexJs_attempts_prints ticker maxRetries delay fuel n :
  prints_only row_line (IndexJs.attempts ticker maxRetries delay fuel n).
Proof.
  revert n. induction fuel as [| fuel IH]; intros n; cbn [IndexJs.attempts].
  - repeat prints_step.
  - destruct (n <=? maxRetries)%nat; [| repeat prints_step].
    unfold await. cbn [bind]. apply po_await.
    intros [data | e]; [repeat prints_step |].
    cbn [bind print perform]. apply po_print; [reflexivity | intros _].
    apply prints_only_bind; [destruct (n <? maxRetries)%nat; cbn; repeat prints_step |].
    intros _. apply IH.
Qed.

(** The unit of [index.js] prints lines of its row only. *)
Lemma IndexJs_rowUnit_prints row : prints_only row_line (IndexJs.rowUnit row).
Proof.
  unfold IndexJs.rowUnit, try_catch, bindE.
  apply prints_only_bind; [| intros [a | e]; cbn; repeat prints_step].
  apply prints_only_bind; [apply IndexJs_attempts_prints |].
  intros [data | e]; [| repeat prints_step].
  destruct (truthy data); [| cbn; repeat prints_step].
  unfold IndexJs.getStockId, IndexJs.saveZacksRanking, try_catch, bindE.
  cbn. repeat prints_step.
Qed.

Import IndexJsRun.

Lemma index_units_ok_nil : index_units_ok [].
Proof. repeat split; constructor. Qed.

(** A row read by [index.js]: its unit joins the others, and what it does
    before its first [await] prints no line of the run, counts nothing and
    leaves the client alone. *)
Lemma index_unit_spawn row w ps :
  index_units_ok ps ->
  index_units_ok (ps ++ [fst (advance (IndexJs.rowUnit row) w)]) /\
  run_lines (log (snd (advance (IndexJs.rowUnit row) w))) = run_lines (log w) /\
  counters (snd (advance (IndexJs.rowUnit row) w)) = counters w /\
  connects (snd (advance (IndexJs.rowUnit row) w)) = connects w /\
  releases (snd (advance (IndexJs.rowUnit row) w)) = releases w.
Proof.
  intros (Hf & Hp & Hc & Ht).
  destruct (@pool_free_advance _ (IndexJs.rowUnit row) w (pool_free_rowUnit row))
    as (Hc1 & Hc2 & Hc3).
  destruct (@tick_free_advance _ (IndexJs.rowUnit row) w (tick_free_rowUnit row))
    as (Ht1 & Ht2).
  split; [| split; [| split; [| split]]]; auto;
    try (apply run_lines_advance; apply IndexJs_rowUnit_prints).
  - repeat split; apply Forall_app; split; auto; constructor; auto.
    + apply fulfils_advance. apply IndexJs_rowUnit_fulfils.
    + apply (prints_only_advance w (IndexJs_rowUnit_prints row)).
Qed.

(** A turn of a unit of [index.js] *)
Lemma index_unit_turn i o w ps p :
  index_units_ok ps -> nth_error ps i = Some p ->
  index_units_ok (replace_nth i (fst (resume o p w)) ps) /\
  run_lines (log (snd (resume o p w))) = run_lines (log w) /\
  counters (snd (resume o p w)) = counters w /\
  connects (snd (resume o p w)) = connects w /\
  releases (snd (resume o p w)) = releases w.
Proof.
  intros (Hf & Hp & Hc & Ht) Hnth.
  assert (Hin : In p ps) by (eapply nth_error_In; exact Hnth).
  pose proof (proj1 (Forall_forall _ _) Hf _ Hin) as Hfp.
  pose proof (proj1 (Forall_forall _ _) Hp _ Hin) as Hpp.
  pose proof (proj1 (Forall_forall _ _) Hc _ Hin) as Hcp.
  pose proof (proj1 (Forall_forall _ _) Ht _ Hin) as Htp.
  destruct (@pool_free_resume _ p o w Hcp) as (Hc1 & Hc2 & Hc3).
  destruct (@tick_free_resume _ p o w Htp) as (Ht1 & Ht2).
  split; [| split; [| split; [| split]]]; auto;
    try (apply run_lines_resume; exact Hpp).
  - repeat split; apply Forall_replace_nth; auto.
    + apply fulfils_resume. exact Hfp.
    + apply (prints_only_resume o w Hpp).
Qed.

Lemma settled_replace_nth i o w (ps : list (Async unit)) p :
  Forall settled ps -> nth_error ps i = Some p ->
  Forall settled (replace_nth i (fst (resume o p w)) ps).
Proof.
  intros Hset Hnth.
  assert (Hp : settled p).
  { eapply Forall_forall; [exact Hset | eapply nth_error_In; exact Hnth]. }
  destruct Hp as [a ->]. cbn [resume fst].
  apply Forall_replace_nth; [exact Hset | eexists; reflexivity].
Qed.

Ltac index_facts :=
  cbn [effect snd say log run_lines run_line csv_line counters obs_of_call];
  count_obs;
  repeat match goal with
         | H : _ = _ |- _ => rewrite H
         end;
  solve [auto].

Ltac index_simpl :=
  unfold step, settle, wake_main, main_turn, stream_turn, unit_turn, reject_main;
  cbn [main stream csv world pendingPromises].

(** The end of the stream, or the last unit settling after it *)
Lemma index_after_end st w ps :
  index_units_ok ps -> counters w = zero_counters ->
  connects w = 1%nat -> releases w = 0%nat -> run_lines (log w) = [] ->
  index_phase st (wake_main (settle (Build_System w MainCsv Ended ps None))).
Proof.
  intros Hok Hk Hc Hr Hw. index_simpl.
  destruct (promise_all ps) as [[u | e] |] eqn:Hall; cbn [main stream csv world pendingPromises].
  - apply (@iph_closing st _ ps (Ok tt)); try index_facts.
    intros _. eapply promise_all_fulfilled; exact Hall.
  - exfalso. eapply promise_all_never_rejects; [apply Hok | exact Hall].
  - apply iph_draining; assumption.
Qed.

Lemma index_phase_step st s ev : index_phase st s -> index_phase st (step s ev).
Proof.
  intros H.
  destruct H as [w m Hm Hlog Hst Hk | w e rest Hrest Hlog Hst Hk
                 | w ps Hok Hk Hc Hr Hw | w ps Hok Hk Hc Hr Hw Hall
                 | w ps Hok Hk Hc Hr Hw
                 | w ps r Hok Hk Hc Hr Hw Hset
                 | w ps r rest Hok Hk Hc Hr Hset Hlog Hw
                 | w ps r e rest Hok Hk Hc Hr Hset Hlog Hw].
  - (* awaiting setup() or pool.connect() *)
    destruct Hm as [-> | ->]; destruct ev as [o | e | i o]; index_simpl.
    + destruct (o_fail o) as [e |]; cbn [main stream csv world pendingPromises].
      * apply (@iph_refused st _ e []); auto. cbn [say log]. rewrite Hlog. reflexivity.
      * apply iph_start; auto.
    + apply iph_start; auto.
    + destruct i; cbn; apply iph_start; auto.
    + unfold complete. cbn [answer].
      destruct (o_fail o) as [e |]; cbn [main stream csv world pendingPromises].
      * apply (@iph_refused st _ e [ObsConnect]); auto.
        cbn [say log obs_of_call]. rewrite Hlog. reflexivity.
      * apply iph_flowing; auto using index_units_ok_nil;
          cbn [log obs_of_call counters]; rewrite ?Hlog; auto.
    + apply iph_start; auto.
    + destruct i; cbn; apply iph_start; auto.
  - (* setup() or pool.connect() rejected *)
    cbn. eapply iph_refused; eassumption.
  - (* rows flowing *)
    destruct ev as [o | [row | | e | e] | i o].
    + index_simpl. apply iph_flowing; assumption.
    + unfold step, stream_turn. cbn [main stream csv world pendingPromises].
      destruct (index_unit_spawn row w Hok) as (Hok' & Hw' & Hk' & Hc' & Hr').
      destruct (advance (IndexJs.rowUnit row) w) as [p w']. cbn [fst snd] in *.
      index_simpl. apply iph_flowing; congruence.
    + unfold step, stream_turn. cbn [main stream csv world pendingPromises].
      apply index_after_end; assumption.
    + index_simpl.
      apply (@iph_closing st _ ps (Throw e)); try index_facts.
      intros H. discriminate H.
    + index_simpl. apply iph_crashed; assumption.
    + unfold step, unit_turn. cbn [main stream csv world pendingPromises].
      destruct (nth_error ps i) as [p |] eqn:Hnth.
      * destruct (index_unit_turn i o w Hok Hnth) as (Hok' & Hw' & Hk' & Hc' & Hr').
        destruct (resume o p w) as [p' w']. cbn [fst snd] in *.
        index_simpl. apply iph_flowing; congruence.
      * index_simpl. apply iph_flowing; assumption.
  - (* the stream has ended, units are running *)
    destruct ev as [o | e | i o].
    + index_simpl. rewrite Hall. apply iph_draining; assumption.
    + index_simpl. rewrite Hall. apply iph_draining; assumption.
    + unfold step, unit_turn. cbn [main stream csv world pendingPromises].
      destruct (nth_error ps i) as [p |] eqn:Hnth.
      * destruct (index_unit_turn i o w Hok Hnth) as (Hok' & Hw' & Hk' & Hc' & Hr').
        destruct (resume o p w) as [p' w']. cbn [fst snd] in *.
        apply index_after_end; congruence.
      * index_simpl. rewrite Hall. apply iph_draining; assumption.
  - (* the process died *)
    cbn. apply iph_crashed; assumption.
  - (* closing the pool *)
    destruct ev as [o | e | i o].
    + index_simpl. destruct (o_fail o) as [e |].
      * eapply iph_pool_failed; try eassumption; try reflexivity; index_facts.
      * eapply iph_exited; try eassumption; try reflexivity; index_facts.
    + index_simpl. destruct r as [a | e']; cbn [stream_of]; index_simpl;
        [exact (@iph_closing st w ps (Ok a) Hok Hk Hc Hr Hw Hset)
        | exact (@iph_closing st w ps (Throw e') Hok Hk Hc Hr Hw Hset)].
    + unfold step, unit_turn. cbn [main stream csv world pendingPromises].
      destruct (nth_error ps i) as [p |] eqn:Hnth.
      * destruct (index_unit_turn i o w Hok Hnth) as (Hok' & Hw' & Hk' & Hc' & Hr').
        pose proof (fun H => @settled_replace_nth i o w ps p (Hset H) Hnth) as Hset'.
        destruct (resume o p w) as [p' w']. cbn [fst snd] in *.
        index_simpl. apply iph_closing; try congruence. exact Hset'.
      * index_simpl. apply iph_closing; assumption.
  - cbn. eapply iph_exited; eassumption.
  - cbn. eapply iph_pool_failed; eassumption.
Qed.

Lemma steps_snoc' s evs ev : steps s (evs ++ [ev]) = step (steps s evs) ev.
Proof. unfold steps. rewrite fold_left_app. reflexivity. Qed.

(** Every state of a run of [index.js] is in one of the phases. *)
Lemma index_phase_reachable st evs : index_phase st (steps (boot st) evs).
Proof.
  induction evs as [| ev evs IH] using rev_ind.
  - apply iph_start; auto.
  - rewrite steps_snoc'. apply index_phase_step. exact IH.
Qed.

(** X15.  A run of [index.js], at every turn: the pool is asked for a client
    once at most and a client is released once at most, by [main] and never
    by a row's unit; while [main] awaits [processCSV()] the client is held;
    it has been released when [main] awaits [pool.end()].  A process that
    ends through the handlers on [main()] has status 0 and has printed its
    last line: when [setup()] or [pool.connect()] rejected, the rejection is
    printed, no row has been read and the store is as it was; otherwise the
    client was asked for and released exactly once.  A process that dies of
    an error of the file stream, for which nothing listens, has status 1,
    has printed no line of [main], and still holds the client. *)
Theorem index_main_holds_one_client st evs :
  let s := steps (boot st) evs in
  let w := world s in
  Forall pool_free (pendingPromises s) /\
  (releases w <= connects w)%nat /\ (connects w <= 1)%nat /\
  (main s = MainCsv -> connects w = 1%nat /\ releases w = 0%nat) /\
  (main s = MainPoolEnd -> connects w = 1%nat /\ releases w = 1%nat) /\
  (forall code,
     main s = MainExited code ->
     (code = 0 /\
      (exists rest, log w = ObsPrint LogProgramCompleted :: rest) /\
      (stream s = Unopened ->
       releases w = 0%nat /\ pendingPromises s = [] /\ store w = st /\
       exists e, In (ObsPrint (ErrMain e)) (log w)) /\
      (stream s <> Unopened -> connects w = 1%nat /\ releases w = 1%nat)) \/
     (code = 1 /\ stream s = Errored /\ csv s = None /\
      connects w = 1%nat /\ releases w = 0%nat /\ run_lines (log w) = [])).
Proof.
  intros s w. subst w s.
  pose proof (index_phase_reachable st evs) as Hph.
  destruct Hph as [w m Hm Hlog Hst Hk | w e rest Hrest Hlog Hst Hk
                  | w ps Hok Hk Hc Hr Hw | w ps Hok Hk Hc Hr Hw Hall
                  | w ps Hok Hk Hc Hr Hw
                  | w ps r Hok Hk Hc Hr Hw Hset
                  | w ps r rest Hok Hk Hc Hr Hset Hlog Hw
                  | w ps r e rest Hok Hk Hc Hr Hset Hlog Hw];
    cbn [main stream csv world pendingPromises].
  - split; [constructor |].
    unfold connects, releases, count. rewrite Hlog. cbn.
    destruct Hm as [-> | ->]; repeat split; try lia; intros; discriminate.
  - split; [constructor |].
    assert (Hc : (connects w <= 1)%nat /\ releases w = 0%nat).
    { unfold connects, releases, count. rewrite Hlog.
      destruct Hrest as [-> | ->]; cbn; split; lia. }
    destruct Hc as [Hc Hr]. rewrite Hr.
    split; [lia |]. split; [exact Hc |].
    split; [intros H; discriminate H |]. split; [intros H; discriminate H |].
    intros code Hcode. injection Hcode as <-. left.
    split; [reflexivity |]. split; [eexists; exact Hlog |].
    split; [| intros H; contradiction].
    intros _. repeat split; auto. exists e. rewrite Hlog. right. left. reflexivity.
  - split; [apply Hok |]. rewrite Hc, Hr.
    repeat split; try lia; intros; discriminate.
  - split; [apply Hok |]. rewrite Hc, Hr.
    repeat split; try lia; intros; discriminate.
  - split; [apply Hok |]. rewrite Hc, Hr.
    split; [lia |]. split; [lia |].
    split; [intros H; discriminate H |]. split; [intros H; discriminate H |].
    intros code Hcode. injection Hcode as <-. right. repeat split; auto.
  - split; [apply Hok |]. rewrite Hc, Hr.
    repeat split; try lia; intros; discriminate.
  - split; [apply Hok |]. rewrite Hc, Hr.
    split; [lia |]. split; [lia |].
    split; [intros H; discriminate H |]. split; [intros H; discriminate H |].
    intros code Hcode. injection Hcode as <-. left.
    split; [reflexivity |]. split; [eexists; exact Hlog |].
    split; [intros H; destruct r; discriminate H | intros _; split; reflexivity].
  - split; [apply Hok |]. rewrite Hc, Hr.
    split; [lia |]. split; [lia |].
    split; [intros H; discriminate H |]. split; [intros H; discriminate H |].
    intros code Hcode. injection Hcode as <-. left.
    split; [reflexivity |]. split; [eexists; exact Hlog |].
    split; [intros H; destruct r; discriminate H | intros _; split; reflexivity].
Qed.






End OneClient.

(** A run of [index.js] in which the row stream raises its error while a row
    is on its way: [main] prints the error, releases the client and closes
    the pool with the row's unit still waiting for the provider. *)
Example index_main_stream_error :
  let s := IndexJsRun.steps (IndexJsRun.boot empty_store)
             [EvMain quiet; EvMain quiet;
              EvStream (StreamData {| row_ticker := "AAPL"; row_name := "Apple" |});
              EvStream (StreamError (ExnStream 0));
              EvMain quiet] in
  IndexJsRun.main s = IndexJsRun.MainExited 0 /\
  promise_all (IndexJsRun.pendingPromises s) = None /\
  log (IndexJsRun.world s) =
    [ObsPrint LogProgramCompleted; ObsPrint LogConnectionsClosed; ObsRelease;
     ObsPrint (ErrProcessingCsv (ExnStream 0)); ObsConnect].
Proof. vm_compute. repeat split; reflexivity. Qed.

(** A run of [index.js] in which the store refuses the write of the first of
    two rows: the unit's [catch] prints the error and returns, the second
    row is saved, the run completes, and nothing has been counted. *)
Example index_failing_row :
  let s := IndexJsRun.steps (IndexJsRun.boot empty_store) index_store_failure_run in
  let w := IndexJsRun.world s in
  IndexJsRun.main s = IndexJsRun.MainExited 0 /\
  IndexJsRun.csv s = Some (Ok tt) /\
  IndexJsRun.pendingPromises s = [Ret (Ok tt); Ret (Ok tt)] /\
  In (ObsPrint (ErrProcessingTicker "AAPL" (ExnDb "57014"))) (log w) /\
  map rk_stock_id (rankings (store w)) = [2] /\
  counters w = zero_counters.
Proof. vm_compute. repeat split; try reflexivity. tauto. Qed.

(** [stocks.csv] is missing when [index.js] runs: the process dies with
    status 1 holding the client it was given, and prints nothing. *)
Example index_missing_file :
  let s := IndexJsRun.steps (IndexJsRun.boot empty_store)
             [EvMain quiet; EvMain quiet; EvStream (SourceError (ExnStream 0));
              EvMain quiet] in
  IndexJsRun.main s = IndexJsRun.MainExited 1 /\
  IndexJsRun.csv s = None /\
  log (IndexJsRun.world s) = [ObsConnect].
Proof. vm_compute. repeat split; reflexivity. Qed.


(** ** The first program *)

Ltac wp_step_catch :=
  first
    [ match goal with
      | |- wp ?p _ _ =>
          match p with
          | context [IndexJs.is_unique_violation ?e] =>
              destruct (IndexJs.is_unique_violation e)
          end
      end
    | wp_step ].

Section FirstProgram.
Context {P : Platform}.

Lemma Script_getStockId_connection ticker name os i w :
  let '(_, w', _) := run (Script.getStockId ticker name) os i w in
  connects w' = S (connects w) /\
  match o_fail (os i) with
  | Some _ => releases w' = releases w /\ queries w' = queries w
  | None => releases w' = S (releases w) /\ exists rest, log w' = ObsRelease :: rest
  end.
Proof.
  unfold Script.getStockId.
  cbn [run bindE bind await]. unfold complete at 1. cbn [answer].
  destruct (o_fail (os i)) as [e |].
  - cbn. count_obs. auto.
  - cbn [bind].
    match goal with |- context [run ?p os ?j ?w1] =>
      assert (H : wp p (fun _ w' => connects w' = connects w1 /\
                          releases w' = S (releases w1) /\
                          exists rest, log w' = ObsRelease :: rest) w1);
      [| apply (@wp_run _ _ p _ w1 os j) in H;
         destruct (run p os j w1) as [[r w'] i'] ]
    end.
    + repeat wp_step.
      all: repeat split; try (eexists; reflexivity); count_obs; try reflexivity.
    + cbn [fst snd] in H. destruct H as (Hc & Hr & Hl).
      count_obs. auto.
Qed.

Lemma Script_saveZacksRanking_connection stockId data os i w :
  let '(_, w', _) := run (Script.saveZacksRanking stockId data) os i w in
  connects w' = S (connects w) /\
  match o_fail (os i) with
  | Some _ => releases w' = releases w /\ queries w' = queries w
  | None => releases w' = S (releases w) /\ exists rest, log w' = ObsRelease :: rest
  end.
Proof.
  unfold Script.saveZacksRanking.
  cbn [run bindE bind await]. unfold complete at 1. cbn [answer].
  destruct (o_fail (os i)) as [e |].
  - cbn. count_obs. auto.
  - cbn [bind].
    match goal with |- context [run ?p os ?j ?w1] =>
      assert (H : wp p (fun _ w' => connects w' = connects w1 /\
                          releases w' = S (releases w1) /\
                          exists rest, log w' = ObsRelease :: rest) w1);
      [| apply (@wp_run _ _ p _ w1 os j) in H;
         destruct (run p os j w1) as [[r w'] i'] ]
    end.
    + repeat wp_step_catch.
      all: repeat split; try (eexists; reflexivity); count_obs; try reflexivity.
    + cbn [fst snd] in H. destruct H as (Hc & Hr & Hl).
      count_obs. auto.
Qed.

(** X26.  In the first program every call of [getStockId] and of
    [saveZacksRanking] asks the pool for a client of its own and, when it
    gets one, releases it exactly once, as the last thing it does, whatever
    statement fails; when the pool refuses the client nothing is sent and
    nothing is released. *)
Theorem Script_clients_released_once ticker name stockId data os i w :
  (let '(_, w', _) := run (Script.getStockId ticker name) os i w in
   connects w' = S (connects w) /\
   match o_fail (os i) with
   | Some _ => releases w' = releases w /\ queries w' = queries w
   | None => releases w' = S (releases w) /\ exists rest, log w' = ObsRelease :: rest
   end) /\
  (let '(_, w', _) := run (Script.saveZacksRanking stockId data) os i w in
   connects w' = S (connects w) /\
   match o_fail (os i) with
   | Some _ => releases w' = releases w /\ queries w' = queries w
   | None => releases w' = S (releases w) /\ exists rest, log w' = ObsRelease :: rest
   end).
Proof.
  split.
  - apply Script_getStockId_connection.
  - apply Script_saveZacksRanking_connection.
Qed.

Lemma Script_onData_fulfils row : fulfils (Script.onData row).
Proof.
  unfold Script.onData. apply fulfils_try_catch.
  intros e. cbn. repeat constructor.
Qed.

(** The handler suspends at its first call to the provider, having done
    nothing. *)
Lemma Script_onData_suspends row w :
  exists k, advance (Script.onData row) w = (Await (GetData (row_ticker row)) k, w).
Proof.
  unfold Script.onData, Script.getDataWithRetry, IndexJs.getDataWithRetry,
    default_maxRetries, try_catch, bindE.
  cbn [IndexJs.attempts Nat.leb bind await advance]. eexists. reflexivity.
Qed.

Lemma Script_steps_snoc s evs ev :
  Script.steps s (evs ++ [ev]) = Script.step (Script.steps s evs) ev.
Proof. unfold Script.steps. rewrite fold_left_app. reflexivity. Qed.

(** The rows of the file, read one after the other before any call has
    completed *)
Lemma Script_rows_read st rows :
  let s := Script.steps (Script.boot st) (map (fun row => EvStream (StreamData row)) rows) in
  Script.world s = Script.world (Script.boot st) /\
  Script.stream s = Flowing /\ Script.crashed s = false /\
  List.length (Script.handlers s) = List.length rows /\
  Forall (fun p : Async unit => exists R (c : Call R) k, p = Await c k) (Script.handlers s).
Proof.
  induction rows as [| row rows IH] using rev_ind.
  - cbn. repeat split; auto.
  - rewrite map_app. cbn [map]. rewrite Script_steps_snoc.
    cbv zeta in IH.
    destruct (Script.steps (Script.boot st) (map (fun row => EvStream (StreamData row)) rows))
      as [w str hs cr].
    cbn [Script.world Script.stream Script.crashed Script.handlers] in IH.
    destruct IH as (Hw & -> & -> & Hlen & Hall).
    unfold Script.step. cbn [Script.crashed Script.stream Script.world Script.handlers].
    destruct (Script_onData_suspends row w) as [k ->].
    cbn [Script.world Script.stream Script.crashed Script.handlers].
    split; [exact Hw |]. split; [reflexivity |]. split; [reflexivity |].
    split; [rewrite !length_app, Hlen; reflexivity |].
    apply Forall_app. split; [exact Hall |].
    constructor; [eexists _, _, _; reflexivity | constructor].
Qed.

(** X27.  In the first program the 'end' handler waits for nothing: when the
    rows of the file have been read and the stream ends before any call has
    completed, "CSV file processing completed." is printed with every row's
    handler still waiting for its first reply, nothing else printed and
    nothing written to the store. *)
Theorem Script_end_does_not_wait st rows :
  let s := Script.steps (Script.boot st)
             (map (fun row => EvStream (StreamData row)) rows ++ [EvStream StreamEnd]) in
  log (Script.world s) = [ObsPrint LogCsvCompleted] /\
  store (Script.world s) = st /\
  List.length (Script.handlers s) = List.length rows /\
  Forall (fun p => ~ settled p) (Script.handlers s).
Proof.
  intros s. subst s. rewrite Script_steps_snoc.
  pose proof (Script_rows_read st rows) as H. cbv zeta in H.
  destruct (Script.steps (Script.boot st) (map (fun row => EvStream (StreamData row)) rows))
    as [w str hs cr].
  cbn [Script.world Script.stream Script.crashed Script.handlers] in H.
  destruct H as (-> & -> & -> & Hlen & Hall).
  unfold Script.step. cbn.
  split; [reflexivity |]. split; [reflexivity |]. split; [exact Hlen |].
  eapply Forall_impl; [| exact Hall].
  intros p (R & c & k & ->) [a Ha]. discriminate Ha.
Qed.

(** X28.  The 'data' handler of the first program never rejects: whatever
    the provider and the store do, it returns. *)
Theorem Script_handler_never_rejects row os i w :
  exists w' i', run (Script.onData row) os i w = (Ok tt, w', i').
Proof.
  destruct (@fulfils_run _ _ (Script.onData row) os i w (Script_onData_fulfils row))
    as ([] & w' & i' & Hrun).
  exists w', i'. exact Hrun.
Qed.

End FirstProgram.

(** ** Transactions *)

Ltac count_tx :=
  unfold begins, commits, rollbacks in *; cbn [log] in *;
  rewrite ?count_cons in *;
  cbn [is_begin is_commit is_rollback] in *.

Section Transactions.
Context {P : Platform}.

Lemma resolver_transaction ticker name os i w :
  let '(r, w', _) := run (getOrCreateStockId ticker name) os i w in
  match o_fail (os i) with
  | Some _ => begins w' = begins w /\ commits w' = commits w /\ rollbacks w' = rollbacks w
  | None => transaction_closed w r w'
  end.
Proof.
  rewrite getOrCreateStockId_unfold.
  cbn [run bindE bind await]. unfold complete at 1. cbn [answer].
  destruct (o_fail (os i)) as [e |].
  - cbn. count_tx. auto.
  - cbn [bind].
    match goal with |- context [run ?p os ?j ?w1] =>
      assert (H : wp p (fun r w' => transaction_closed w1 r w') w1);
      [| apply (@wp_run _ _ p _ w1 os j) in H;
         destruct (run p os j w1) as [[r w'] i'] ]
    end.
    + unfold at_begin, resolver_guard, transaction_closed.
      repeat wp_step.
      all: cbn [wp]; count_tx; repeat split; lia.
    + cbn [fst snd] in H. unfold transaction_closed in *.
      count_tx. exact H.
Qed.

Lemma writer_transaction stockId data os i w :
  let '(r, w', _) := run (saveZacksRanking stockId data) os i w in
  if invalid_for_save data
  then begins w' = begins w /\ commits w' = commits w /\ rollbacks w' = rollbacks w
  else
    match o_fail (os i) with
    | Some _ => begins w' = begins w /\ commits w' = commits w /\ rollbacks w' = rollbacks w
    | None => transaction_closed w r w'
    end.
Proof.
  unfold saveZacksRanking. destruct (invalid_for_save data).
  - cbn. count_tx. auto.
  - cbn [run bindE bind await]. unfold complete at 1. cbn [answer].
    destruct (o_fail (os i)) as [e |].
    + cbn. count_tx. auto.
    + cbn [bind].
      match goal with |- context [run ?p os ?j ?w1] =>
        assert (H : wp p (fun r w' => transaction_closed w1 r w') w1);
        [| apply (@wp_run _ _ p _ w1 os j) in H;
           destruct (run p os j w1) as [[r w'] i'] ]
      end.
      * unfold transaction_closed.
        repeat wp_step.
        all: cbn [wp]; count_tx; repeat split; lia.
      * cbn [fst snd] in H. unfold transaction_closed in *.
        count_tx. exact H.
Qed.

(** X5.  A call of [getOrCreateStockId] or of [saveZacksRanking] that was
    given a client begins one transaction and ends it before it releases the
    client: it returns only after its COMMIT, having sent no ROLLBACK, and it
    throws only after having sent one ROLLBACK.  A call that was refused the
    client, or a payload the guard of [saveZacksRanking] skips, sends none of
    the three. *)
Theorem transactions_are_closed ticker name stockId data os i w :
  (let '(r, w', _) := run (getOrCreateStockId ticker name) os i w in
   match o_fail (os i) with
   | Some _ => begins w' = begins w /\ commits w' = commits w /\ rollbacks w' = rollbacks w
   | None => transaction_closed w r w'
   end) /\
  (let '(r, w', _) := run (saveZacksRanking stockId data) os i w in
   if invalid_for_save data
   then begins w' = begins w /\ commits w' = commits w /\ rollbacks w' = rollbacks w
   else
     match o_fail (os i) with
     | Some _ => begins w' = begins w /\ commits w' = commits w /\ rollbacks w' = rollbacks w
     | None => transaction_closed w r w'
     end).
Proof.
  split.
  - apply resolver_transaction.
  - apply writer_transaction.
Qed.

End Transactions.

(** ** Rows without a ranking *)

Section NoRanking.
Context {P : Platform}.

(** X8.  A record that lacks its rank or its label ([null] or undefined)
    ends the fetch at the attempt that received it, whichever it is: one
    call to the provider, no wait and no further attempt, a warning, and the
    row counted in [noRankingStocks], not in [failedRetrievals]. *)
Theorem incomplete_payload_is_terminal ticker maxRetries delay os i w fuel n data :
  (n <= maxRetries)%nat ->
  o_api (os i) = Ok data ->
  incomplete data = true ->
  exists w',
    run (attempts ticker maxRetries delay (S fuel) n) os i w = (Ok Null, w', S i) /\
    api_calls w' = S (api_calls w) /\
    delays w' = delays w /\
    counters w' = incr NoRankingStocks (counters w) /\
    store w' = store w /\
    log w' = ObsPrint (WarnIncompleteData ticker) :: ObsGetData ticker :: log w /\
    ((1 <= maxRetries)%nat ->
     run (getDataWithRetry ticker maxRetries delay) os i w = (Ok Null, w', S i)).
Proof.
  intros Hn Hapi Hinc.
  assert (Hle : (n <=? maxRetries)%nat = true) by (apply Nat.leb_le; lia).
  unfold incomplete in Hinc.
  apply andb_true_iff in Hinc. destruct Hinc as [Hinc Hl].
  apply andb_true_iff in Hinc. destruct Hinc as [Hnull Hobj].
  apply negb_true_iff in Hnull.
  eexists. split; [| split; [| split; [| split; [| split; [| split]]]]].
  - cbn [attempts]. rewrite Hle. unfold attempt. simpl. unfold complete. simpl.
    rewrite Hapi. simpl. rewrite Hnull, Hobj. simpl. rewrite Hl. simpl. reflexivity.
  - count_log. reflexivity.
  - count_log. reflexivity.
  - reflexivity.
  - reflexivity.
  - reflexivity.
  - intros Hm. unfold getDataWithRetry.
    destruct maxRetries as [| m]; [lia |].
    cbn [attempts]. replace (1 <=? S m)%nat with true by (symmetry; apply Nat.leb_le; lia).
    unfold attempt. simpl. unfold complete. simpl.
    rewrite Hapi. simpl. rewrite Hnull, Hobj. simpl. rewrite Hl. simpl. reflexivity.
Qed.

(** X9.  A row for which the provider answers [null], or a record without
    rank or label, at the first attempt: the unit returns without asking for
    a connection or sending a statement; the store is as it was, and the row
    is counted once as processed and once in [noRankingStocks]. *)
Theorem row_without_ranking_touches_nothing row data os i w :
  o_api (os i) = Ok data ->
  strict_null data || incomplete data = true ->
  exists w',
    run (rowUnit row) os i w = (Ok tt, w', S i) /\
    store w' = store w /\
    connects w' = connects w /\ queries w' = queries w /\
    counters w' = incr NoRankingStocks (incr TotalProcessed (counters w)) /\
    In (ObsPrint (LogSkippingInsertion (row_ticker row))) (log w').
Proof.
  intros Hapi Hcase.
  unfold rowUnit, try_catch, bindE, getDataWithRetry, default_maxRetries.
  cbn [attempts Nat.leb]. unfold attempt.
  cbn [bind tick perform await run effect]. unfold complete at 1. cbn [answer].
  rewrite Hapi. cbn [bind].
  destruct (strict_null data) eqn:Hnull.
  - cbn. eexists. split; [reflexivity |].
    count_obs. repeat split; auto. left. reflexivity.
  - cbn [orb] in Hcase. unfold incomplete in Hcase. rewrite Hnull in Hcase.
    cbn [negb andb] in Hcase.
    apply andb_true_iff in Hcase. destruct Hcase as [Hobj Hl].
    rewrite Hobj. cbn [negb]. rewrite Hl.
    cbn. eexists. split; [reflexivity |].
    count_obs. repeat split; auto. left. reflexivity.
Qed.

End NoRanking.

Lemma incomplete_payload_is_terminal_witness :
  exists w',
    run (getDataWithRetry "ZZZ" 3 1000)
        (fun _ => answers (Ok (Obj [("zacksRankText", Str "Hold")]))) 0 initial_world =
      (Ok Null, w', 1%nat) /\
    api_calls w' = 1%nat /\ delays w' = 0%nat /\
    noRankingStocks (counters w') = 1%nat /\ failedRetrievals (counters w') = 0%nat.
Proof.
  destruct (@incomplete_payload_is_terminal sample_platform "ZZZ" 3 1000
              (fun _ => answers (Ok (Obj [("zacksRankText", Str "Hold")])))
              0%nat initial_world 2%nat 1%nat (Obj [("zacksRankText", Str "Hold")])
              ltac:(lia) eq_refl eq_refl)
    as (w' & _ & Ha & Hd & Hc & _ & _ & Hrun).
  exists w'. split; [apply Hrun; lia |].
  rewrite Hc. repeat split; assumption.
Defined.

Lemma row_without_ranking_touches_nothing_witness :
  exists w',
    run (rowUnit {| row_ticker := "ZZZ"; row_name := "None" |})
        (fun _ => answers (Ok Null)) 0 initial_world = (Ok tt, w', 1%nat) /\
    store w' = empty_store /\
    totalProcessed (counters w') = 1%nat /\ noRankingStocks (counters w') = 1%nat.
Proof.
  destruct (@row_without_ranking_touches_nothing sample_platform
              {| row_ticker := "ZZZ"; row_name := "None" |} Null
              (fun _ => answers (Ok Null)) 0%nat initial_world eq_refl eq_refl)
    as (w' & Hrun & Hs & _ & _ & Hc & _).
  exists w'. split; [exact Hrun |]. split; [exact Hs |].
  rewrite Hc. split; reflexivity.
Defined.
